(** * domUtils: a shallow embedding of the DOM helper layer

    The development follows [domUtils.ts]: the element accessors, the
    notification helper, [ModalUtils], [FormUtils], [LoadingUtils],
    [StorageUtils] and [ProfileFormUtils].  The browser is the environment
    of that code; it is represented by

    - JavaScript strings as sequences of UTF-16 code units, and numbers
      with [NaN] and the infinities,
    - a store of element objects addressed by reference, with the
      document's elements listed in tree order and a queue of pending
      timers; the [value] of an element is held in the way of its kind
      (sanitized by a form control, a number on a list item, ...),
    - the HTML parser behind [innerHTML], the engine's printing of
      numbers, and the [Storage] and [JSON] interfaces as type classes,
    - a state-and-exception monad [JS] for the code that runs against them.

    Part I holds the definitions, Part II the lemmas and theorems. *)

From Stdlib Require Import ZArith NArith QArith List Bool Ascii String
  DecimalString.
From stdpp Require Import base option list gmap.

Set Default Proof Using "Type".

(* ===================================================================== *)
(** * Part I: definitions                                                 *)
(* ===================================================================== *)

(** ** JavaScript strings *)

(** A string value is a sequence of 16-bit code units; [length], [trim] and
    regular expressions without the [u] flag all work on code units. *)
Definition code_unit := N.
Definition jsstring := list N.

(** String literals of the source (all of them ASCII). *)
Definition js (s : string) : jsstring :=
  map N_of_ascii (list_ascii_of_string s).
Arguments js s%_string : simpl never.

(** The double quote, for the literals that contain markup. *)
Definition dquote : jsstring := [34%N].
Definition newline : jsstring := [10%N].

(** ToBoolean on a string: only the empty string is falsy. *)
Definition truthy (s : jsstring) : bool :=
  match s with [] => false | _ :: _ => true end.

(** [o || dflt] where [o] is a string or [undefined]. *)
Definition or_string (o : option jsstring) (dflt : jsstring) : jsstring :=
  match o with
  | Some s => if truthy s then s else dflt
  | None => dflt
  end.

(** [o || dflt] where [o] is a boolean or [undefined]. *)
Definition or_bool (o : option bool) (dflt : bool) : bool :=
  match o with
  | Some true => true
  | _ => dflt
  end.

(** WhiteSpace and LineTerminator of ECMA-262: the code units removed by
    [String.prototype.trim] and matched by the class escape [\s]. *)
Definition is_whitespace (c : code_unit) : bool :=
  ((9 <=? c) && (c <=? 13) || (c =? 32) || (c =? 160) || (c =? 5760)
   || (8192 <=? c) && (c <=? 8202)
   || (c =? 8232) || (c =? 8233) || (c =? 8239) || (c =? 8287)
   || (c =? 12288) || (c =? 65279))%N.

Fixpoint trimStart (s : jsstring) : jsstring :=
  match s with
  | [] => []
  | c :: s' => if is_whitespace c then trimStart s' else s
  end.

Definition trimEnd (s : jsstring) : jsstring := rev (trimStart (rev s)).

Definition trim (s : jsstring) : jsstring := trimEnd (trimStart s).

(** ** Numbers *)

(** The decimal rendering of an integer: an optional minus sign and all the
    digits.  It is what a template literal prints for a number whose value
    is an integer of magnitude below two to the 53 (a safe integer); the
    durations of [AnimationUtils] are taken at integer values. *)
Definition Number_toString (n : Z) : jsstring :=
  js (NilZero.string_of_int (Z.to_int n)).

(** A Number value: [NaN], an infinity, or a finite value.  The finite
    values are taken in the rationals, which hold every finite double. *)
Inductive number : Type :=
| NaN
| Infinity (negative : bool)
| Finite (q : Q).

Definition number_of_Z (z : Z) : number := Finite (inject_Z z).

(** [s.length] as a number. *)
Definition number_of_nat (n : nat) : number := number_of_Z (Z.of_nat n).

(** [x < y] and [x <= y]: both are false when an operand is [NaN]. *)
Definition number_lt (x y : number) : bool :=
  match x, y with
  | Finite p, Finite q => negb (Qle_bool q p)
  | Finite _, Infinity negative => negb negative
  | Infinity negative, Finite _ => negative
  | Infinity negative, Infinity negative' => negative && negb negative'
  | NaN, _ => false
  | _, NaN => false
  end.

Definition number_le (x y : number) : bool :=
  match x, y with
  | Finite p, Finite q => Qle_bool p q
  | Finite _, Infinity negative => negb negative
  | Infinity negative, Finite _ => negative
  | Infinity negative, Infinity negative' => negative || negb negative'
  | NaN, _ => false
  | _, NaN => false
  end.

(** The engine's [Number::toString], which a template literal applies to a
    number.  On a safe integer it prints the decimal digits; what it prints
    elsewhere ('NaN', 'Infinity', fractions, exponents for large
    magnitudes) is left to the engine. *)
Class NumberFormat : Type := {
  ToString : number -> jsstring;
  ToString_safe_integer (z : Z) :
    (Z.abs z < 2 ^ 53)%Z -> ToString (number_of_Z z) = Number_toString z
}.

(** ** Regular expressions *)

(** The patterns of the source are built from character classes, sequence
    and [+]; they are matched by Brzozowski derivatives. *)
Inductive regex : Type :=
| Never
| Epsilon
| Class (p : code_unit -> bool)
| Cat (r1 r2 : regex)
| Alt (r1 r2 : regex)
| Star (r : regex).

Definition Plus (r : regex) : regex := Cat r (Star r).

Fixpoint nullable (r : regex) : bool :=
  match r with
  | Never => false
  | Epsilon => true
  | Class _ => false
  | Cat r1 r2 => nullable r1 && nullable r2
  | Alt r1 r2 => nullable r1 || nullable r2
  | Star _ => true
  end.

Fixpoint deriv (c : code_unit) (r : regex) : regex :=
  match r with
  | Never => Never
  | Epsilon => Never
  | Class p => if p c then Epsilon else Never
  | Cat r1 r2 =>
      if nullable r1
      then Alt (Cat (deriv c r1) r2) (deriv c r2)
      else Cat (deriv c r1) r2
  | Alt r1 r2 => Alt (deriv c r1) (deriv c r2)
  | Star r1 => Cat (deriv c r1) (Star r1)
  end.

Fixpoint matches (r : regex) (s : jsstring) : bool :=
  match s with
  | [] => nullable r
  | c :: s' => matches (deriv c r) s'
  end.

(** The language of a pattern, the reference for [matches]. *)
Inductive lang : regex -> jsstring -> Prop :=
| lang_eps : lang Epsilon []
| lang_class p c : p c = true -> lang (Class p) [c]
| lang_cat r1 r2 s1 s2 :
    lang r1 s1 -> lang r2 s2 -> lang (Cat r1 r2) (s1 ++ s2)
| lang_alt_l r1 r2 s : lang r1 s -> lang (Alt r1 r2) s
| lang_alt_r r1 r2 s : lang r2 s -> lang (Alt r1 r2) s
| lang_star_nil r : lang (Star r) []
| lang_star_app r s1 s2 :
    lang r s1 -> lang (Star r) s2 -> lang (Star r) (s1 ++ s2).

(** A regular expression literal: its body, and whether it opens with [^]
    and closes with [$]. *)
Record RegExp : Type := {
  re_from_start : bool;
  re_body : regex;
  re_to_end : bool
}.

Definition any_unit : regex := Class (fun _ => true).

(** [RegExp.prototype.test] (no flags): some substring matches the body,
    starting at the beginning under [^] and reaching the end under [$]. *)
Definition RegExp_test (re : RegExp) (s : jsstring) : bool :=
  matches
    (Cat (if re_from_start re then Epsilon else Star any_unit)
       (Cat (re_body re)
          (if re_to_end re then Epsilon else Star any_unit)))
    s.

Definition is_letter (c : code_unit) : bool :=
  ((65 <=? c) && (c <=? 90) || (97 <=? c) && (c <=? 122))%N.

Definition is_digit (c : code_unit) : bool :=
  ((48 <=? c) && (c <=? 57))%N.

Definition at_sign : code_unit := 64%N.
Definition full_stop : code_unit := 46%N.

(** The class [[^\s@]]. *)
Definition not_space_or_at (c : code_unit) : bool :=
  negb (is_whitespace c || (c =? at_sign)%N).

Definition Lit (c : code_unit) : regex := Class (fun x => (x =? c)%N).

(** ** Completions and the [JS] monad *)

Inductive exn : Type :=
| TypeError
| SyntaxError
| InvalidCharacterError
| NotFoundError
| InvalidStateError
| QuotaExceededError
| SecurityError.

Inductive completion (A : Type) : Type :=
| Normal (a : A)
| Throw (e : exn).
Arguments Normal {A} & a.
Arguments Throw {A} e.

(** A computation over a world [W]: it ends normally with a value or
    abruptly with an exception, and leaves a world behind either way. *)
Definition JS (W A : Type) : Type := W -> completion A * W.

Definition ret {W A} (a : A) : JS W A := fun w => (Normal a, w).

Definition throw {W A} (e : exn) : JS W A := fun w => (Throw e, w).

Definition bind {W A B} (m : JS W A) (k : A -> JS W B) : JS W B :=
  fun w =>
    match m w with
    | (Normal a, w') => k a w'
    | (Throw e, w') => (Throw e, w')
    end.

(** [try { m } catch (error) { h error }] *)
Definition try_catch {W A} (m : JS W A) (h : exn -> JS W A) : JS W A :=
  fun w =>
    match m w with
    | (Normal a, w') => (Normal a, w')
    | (Throw e, w') => h e w'
    end.

Definition gets {W A} (f : W -> A) : JS W A := fun w => (Normal (f w), w).

Definition modify {W} (f : W -> W) : JS W unit := fun w => (Normal tt, f w).

(** The completion of a call that does not touch the world. *)
Definition call {W A} (c : completion A) : JS W A := fun w => (c, w).

(** [if (c) m] as a statement. *)
Definition when {W} (c : bool) (m : JS W unit) : JS W unit :=
  if c then m else ret tt.

Notation "'let*' x ':=' m 'in' k" := (bind m (fun x => k))
  (at level 10, x name, m at level 100, k at level 200).
Notation "m ';;;' k" := (bind m (fun _ => k))
  (at level 100, k at level 200, right associativity).

(** The world after a computation, and its result. *)
Definition world_after {W A} (m : JS W A) (w : W) : W := snd (m w).
Definition result_of {W A} (m : JS W A) (w : W) : completion A := fst (m w).

(** ** Values of the [value] property *)

(** The source types [element.value] as a string.  At run time the
    property holds a string on a form control and a number on [li],
    [progress] and [meter]; on an element without such a property it is
    [undefined], or holds whatever a script has stored under that name: a
    string, a number, or another value (a boolean, an object), of which
    only its truth value matters here, and which is taken to have no
    [trim] method. *)
Inductive jsvalue : Type :=
| VString (s : jsstring)
| VNumber (x : number)
| VOther (truthy : bool).

(** A string is used where a value is expected, also inside the pair of
    a completion and a world. *)
Coercion VString : jsstring >-> jsvalue.
Arguments pair {A B} & a b.

(** ToBoolean on a number: zero and [NaN] are falsy. *)
Definition number_truthy (x : number) : bool :=
  match x with
  | NaN => false
  | Infinity _ => true
  | Finite q => negb (Qeq_bool q 0)
  end.

Definition value_truthy (v : jsvalue) : bool :=
  match v with
  | VString s => truthy s
  | VNumber x => number_truthy x
  | VOther b => b
  end.

(** [o || dflt] where [o] is a value or [undefined]. *)
Definition or_value (o : option jsvalue) (dflt : jsstring) : jsvalue :=
  match o with
  | Some v => if value_truthy v then v else VString dflt
  | None => VString dflt
  end.

(** [x.trim()]: a string has the method, a number has not. *)
Definition String_trim (x : jsvalue) : completion jsstring :=
  match x with
  | VString s => Normal (trim s)
  | VNumber _ => Throw TypeError
  | VOther _ => Throw TypeError
  end.

(** Value sanitization of a text input (types text, search, tel and
    password): CR and LF are stripped. *)
Definition strip_newlines (s : jsstring) : jsstring :=
  List.filter (fun c => negb ((c =? 10) || (c =? 13))%N) s.

(** The API value of a textarea: CR LF and a lone CR become LF. *)
Fixpoint normalize_newlines (s : jsstring) : jsstring :=
  match s with
  | [] => []
  | c :: t =>
      if (c =? 13)%N
      then 10%N :: match t with
                   | [] => []
                   | c' :: t' =>
                       if (c' =? 10)%N then normalize_newlines t'
                       else normalize_newlines t
                   end
      else c :: normalize_newlines t
  end.

(** How an element holds its [value].

    - [NoValue]: an element without a [value] property of its own ([div],
      [span], [img], ...) to which none was assigned; it reads
      [undefined].
    - [OwnValue v]: such an element with a property of that name, created
      by an assignment; it holds what was assigned, as it is.
    - [Control sanitize v]: a form control that keeps a string: an
      [input] of any type but file, a [textarea], a [select], a [button].
      An assignment stores what the control's value sanitization makes of
      the new value.  ([strip_newlines] for a text input,
      [normalize_newlines] for a textarea, the identity for a checkbox or
      a button; a number input maps what is not a number to the empty
      string, a select what is not one of its options.)
    - [FileControl v]: an [input] of type file; only the empty string can
      be assigned to it.
    - [NumberControl convert x]: [li], [progress] and [meter], whose
      [value] is a number; an assignment converts the string, which may
      throw (a [progress] refuses what is not finite). *)
Inductive ValueState : Type :=
| NoValue
| OwnValue (v : jsvalue)
| Control (sanitize : jsstring -> jsstring) (v : jsstring)
| FileControl (v : jsstring)
| NumberControl (convert : jsstring -> completion number) (x : number).

(** [element.value] *)
Definition value_read (st : ValueState) : option jsvalue :=
  match st with
  | NoValue => None
  | OwnValue v => Some v
  | Control _ v => Some (VString v)
  | FileControl v => Some (VString v)
  | NumberControl _ x => Some (VNumber x)
  end.

(** [element.value = v] *)
Definition value_assign (v : jsstring) (st : ValueState)
    : completion ValueState :=
  match st with
  | NoValue => Normal (OwnValue (VString v))
  | OwnValue _ => Normal (OwnValue (VString v))
  | Control sanitize _ => Normal (Control sanitize (sanitize v))
  | FileControl _ =>
      if truthy v then Throw InvalidStateError else Normal (FileControl [])
  | NumberControl convert _ =>
      match convert v with
      | Normal x => Normal (NumberControl convert x)
      | Throw e => Throw e
      end
  end.

(** ** Elements and the document *)

(** Element objects are addressed by reference.  The body has a reference
    of its own; every other element lives in the heap.  A [Document] is a
    page whose body exists; a page that has not reached its body yet is
    told apart in [Tab], below. *)
Inductive node : Type :=
| Body
| Ref (p : positive).

#[global] Instance node_eq_dec : EqDecision node.
Proof. solve_decision. Defined.

Record Style : Type := {
  overflow : jsstring;
  opacity : jsstring;
  transform : jsstring
}.

(** The properties that the utilities read or write.  [el_value] holds the
    [value] in the way of the element's kind.  [el_innerHTML] and
    [el_textContent] hold what the two properties read back: the
    serialization and the text of what is below the element; an
    assignment to [innerHTML] brings both up to date on the element
    assigned to.  The other properties, and [el_textContent] under an
    assignment to [textContent], are slots that hold what was last
    assigned to them.  A slot does not follow what an assignment does
    elsewhere: what [innerHTML] and [textContent] read on the elements
    that hold the element assigned to, the children that an assignment to
    [textContent] replaces, the other radio buttons of a group when one
    is checked, the absolute URL that [src] reads back on an image.  The
    theorems read a slot only where it holds what the property reads: on
    the element assigned to ([checked], [textContent], [disabled], the
    style, the classes), or where nothing was assigned. *)
Record Element : Type := {
  el_localName : jsstring;
  el_id : jsstring;
  el_value : ValueState;
  el_checked : bool;
  el_textContent : jsstring;
  el_src : jsstring;
  el_classList : list jsstring;
  el_innerHTML : jsstring;
  el_disabled : bool;
  el_style : Style;
  el_parentNode : option node
}.

(** The closures handed to [setTimeout], each with what it captures. *)
Inductive Callback : Type :=
| NotificationFade (notification : node)
| NotificationRemove (notification : node).

Record Timer : Type := {
  timer_delay : number;
  timer_callback : Callback
}.

(** [doc_tree] lists the nodes connected to the document in tree order;
    a node of the heap that is not listed is detached. *)
Record Document : Type := {
  doc_body : Element;
  doc_heap : gmap positive Element;
  doc_tree : list node;
  doc_timers : list Timer
}.

Definition empty_style : Style :=
  {| overflow := []; opacity := []; transform := [] |}.

(** The element that [document.createElement] returns. *)
Definition new_element (localName : jsstring) : Element :=
  {| el_localName := localName; el_id := []; el_value := NoValue;
     el_checked := false; el_textContent := []; el_src := [];
     el_classList := []; el_innerHTML := []; el_disabled := false;
     el_style := empty_style; el_parentNode := None |}.

(** *** Property assignment *)

Definition set_overflow (v : jsstring) (s : Style) : Style :=
  {| overflow := v; opacity := opacity s; transform := transform s |}.

Definition set_opacity (v : jsstring) (s : Style) : Style :=
  {| overflow := overflow s; opacity := v; transform := transform s |}.

Definition set_transform (v : jsstring) (s : Style) : Style :=
  {| overflow := overflow s; opacity := opacity s; transform := v |}.

Definition set_value (v : ValueState) (e : Element) : Element :=
  {| el_localName := el_localName e; el_id := el_id e; el_value := v;
     el_checked := el_checked e; el_textContent := el_textContent e;
     el_src := el_src e; el_classList := el_classList e;
     el_innerHTML := el_innerHTML e; el_disabled := el_disabled e;
     el_style := el_style e; el_parentNode := el_parentNode e |}.

Definition set_checked (v : bool) (e : Element) : Element :=
  {| el_localName := el_localName e; el_id := el_id e; el_value := el_value e;
     el_checked := v; el_textContent := el_textContent e;
     el_src := el_src e; el_classList := el_classList e;
     el_innerHTML := el_innerHTML e; el_disabled := el_disabled e;
     el_style := el_style e; el_parentNode := el_parentNode e |}.

Definition set_textContent (v : jsstring) (e : Element) : Element :=
  {| el_localName := el_localName e; el_id := el_id e; el_value := el_value e;
     el_checked := el_checked e; el_textContent := v;
     el_src := el_src e; el_classList := el_classList e;
     el_innerHTML := el_innerHTML e; el_disabled := el_disabled e;
     el_style := el_style e; el_parentNode := el_parentNode e |}.

Definition set_src (v : jsstring) (e : Element) : Element :=
  {| el_localName := el_localName e; el_id := el_id e; el_value := el_value e;
     el_checked := el_checked e; el_textContent := el_textContent e;
     el_src := v; el_classList := el_classList e;
     el_innerHTML := el_innerHTML e; el_disabled := el_disabled e;
     el_style := el_style e; el_parentNode := el_parentNode e |}.

Definition set_classList (v : list jsstring) (e : Element) : Element :=
  {| el_localName := el_localName e; el_id := el_id e; el_value := el_value e;
     el_checked := el_checked e; el_textContent := el_textContent e;
     el_src := el_src e; el_classList := v;
     el_innerHTML := el_innerHTML e; el_disabled := el_disabled e;
     el_style := el_style e; el_parentNode := el_parentNode e |}.

Definition set_innerHTML (v : jsstring) (e : Element) : Element :=
  {| el_localName := el_localName e; el_id := el_id e; el_value := el_value e;
     el_checked := el_checked e; el_textContent := el_textContent e;
     el_src := el_src e; el_classList := el_classList e;
     el_innerHTML := v; el_disabled := el_disabled e;
     el_style := el_style e; el_parentNode := el_parentNode e |}.

Definition set_disabled (v : bool) (e : Element) : Element :=
  {| el_localName := el_localName e; el_id := el_id e; el_value := el_value e;
     el_checked := el_checked e; el_textContent := el_textContent e;
     el_src := el_src e; el_classList := el_classList e;
     el_innerHTML := el_innerHTML e; el_disabled := v;
     el_style := el_style e; el_parentNode := el_parentNode e |}.

Definition set_style (v : Style) (e : Element) : Element :=
  {| el_localName := el_localName e; el_id := el_id e; el_value := el_value e;
     el_checked := el_checked e; el_textContent := el_textContent e;
     el_src := el_src e; el_classList := el_classList e;
     el_innerHTML := el_innerHTML e; el_disabled := el_disabled e;
     el_style := v; el_parentNode := el_parentNode e |}.

Definition set_parentNode (v : option node) (e : Element) : Element :=
  {| el_localName := el_localName e; el_id := el_id e; el_value := el_value e;
     el_checked := el_checked e; el_textContent := el_textContent e;
     el_src := el_src e; el_classList := el_classList e;
     el_innerHTML := el_innerHTML e; el_disabled := el_disabled e;
     el_style := el_style e; el_parentNode := v |}.

(** [element.style.p = v] *)
Definition style_assign (f : jsstring -> Style -> Style) (v : jsstring)
    (e : Element) : Element :=
  set_style (f v (el_style e)) e.

Definition with_body (b : Element) (d : Document) : Document :=
  {| doc_body := b; doc_heap := doc_heap d; doc_tree := doc_tree d;
     doc_timers := doc_timers d |}.

Definition with_heap (h : gmap positive Element) (d : Document) : Document :=
  {| doc_body := doc_body d; doc_heap := h; doc_tree := doc_tree d;
     doc_timers := doc_timers d |}.

Definition with_tree (t : list node) (d : Document) : Document :=
  {| doc_body := doc_body d; doc_heap := doc_heap d; doc_tree := t;
     doc_timers := doc_timers d |}.

Definition with_timers (t : list Timer) (d : Document) : Document :=
  {| doc_body := doc_body d; doc_heap := doc_heap d; doc_tree := doc_tree d;
     doc_timers := t |}.

(** *** The store *)

Definition deref (d : Document) (n : node) : option Element :=
  match n with
  | Body => Some (doc_body d)
  | Ref p => doc_heap d !! p
  end.

(** The object behind a reference (references handed out by the document
    are never dangling; a dangling one reads as a blank element). *)
Definition the (d : Document) (n : node) : Element :=
  default (new_element []) (deref d n).

Definition update (n : node) (f : Element -> Element) (d : Document)
    : Document :=
  match n with
  | Body => with_body (f (doc_body d)) d
  | Ref p => with_heap (alter f p (doc_heap d)) d
  end.

Definition read {A} (n : node) (f : Element -> A) : JS Document A :=
  gets (fun d => f (the d n)).

Definition write (n : node) (f : Element -> Element) : JS Document unit :=
  modify (update n f).

(** [element?.p] *)
Definition opt_read {A} (element : option node) (f : Element -> A)
    : JS Document (option A) :=
  match element with
  | Some n => let* v := read n f in ret (Some v)
  | None => ret None
  end.

(** [element?.value], which is [undefined] also on an element that has no
    such property. *)
Definition opt_value (element : option node)
    : JS Document (option jsvalue) :=
  match element with
  | Some n => read n (fun e => value_read (el_value e))
  | None => ret None
  end.

(** [element.value = v] *)
Definition assign_value (element : node) (v : jsstring)
    : JS Document unit :=
  let* st := read element el_value in
  match value_assign v st with
  | Normal st' => write element (set_value st')
  | Throw e => throw e
  end.

(** *** [document.getElementById] *)

(** An element has an ID when its [id] is not empty; the first element in
    tree order with the requested ID is returned. *)
Definition has_id (d : Document) (i : jsstring) (n : node) : bool :=
  match deref d n with
  | Some e => truthy i && bool_decide (el_id e = i)
  | None => false
  end.

Definition document_getElementById (i : jsstring) (d : Document)
    : option node :=
  List.find (has_id d i) (doc_tree d).

(** *** [DOMTokenList] *)

Definition is_ascii_whitespace (c : code_unit) : bool :=
  ((c =? 9) || (c =? 10) || (c =? 12) || (c =? 13) || (c =? 32))%N.

(** Every method that takes a token to add or remove first validates it. *)
Definition validate_token {W} (t : jsstring) : JS W unit :=
  if negb (truthy t) then throw SyntaxError
  else if existsb is_ascii_whitespace t then throw InvalidCharacterError
  else ret tt.

Definition token_add (t : jsstring) (l : list jsstring) : list jsstring :=
  if bool_decide (t ∈ l) then l else l ++ [t].

Definition token_remove (t : jsstring) (l : list jsstring) : list jsstring :=
  List.filter (fun x => negb (bool_decide (x = t))) l.

Definition classList_add (n : node) (t : jsstring) : JS Document unit :=
  validate_token t ;;;
  write n (fun e => set_classList (token_add t (el_classList e)) e).

Definition classList_remove (n : node) (t : jsstring) : JS Document unit :=
  validate_token t ;;;
  write n (fun e => set_classList (token_remove t (el_classList e)) e).

Definition classList_toggle (n : node) (t : jsstring) : JS Document bool :=
  validate_token t ;;;
  let* l := read n el_classList in
  if bool_decide (t ∈ l)
  then write n (set_classList (token_remove t l)) ;;; ret false
  else write n (set_classList (l ++ [t])) ;;; ret true.

Definition classList_contains (t : jsstring) (e : Element) : bool :=
  bool_decide (t ∈ el_classList e).

(** The ordered-set parser behind [element.className = s]. *)
Fixpoint split_tokens (cur : jsstring) (s : jsstring) : list jsstring :=
  match s with
  | [] => if truthy cur then [cur] else []
  | c :: s' =>
      if is_ascii_whitespace c
      then (if truthy cur then cur :: split_tokens [] s'
            else split_tokens [] s')
      else split_tokens (cur ++ [c]) s'
  end.

Definition set_className (s : jsstring) (e : Element) : Element :=
  set_classList (fold_left (fun l t => token_add t l) (split_tokens [] s) []) e.

(** *** Creating nodes and timers *)

Definition createElement (localName : jsstring) : JS Document node :=
  fun d =>
    let p := fresh (dom (doc_heap d)) in
    (Normal (Ref p),
     with_heap (<[p := new_element localName]> (doc_heap d)) d).

(** [m] is [a] or has [a] among its ancestors. *)
Fixpoint has_ancestor (fuel : nat) (d : Document) (a m : node) : bool :=
  bool_decide (m = a)
  || match fuel with
     | O => false
     | S fuel' =>
         match el_parentNode (the d m) with
         | Some p => has_ancestor fuel' d a p
         | None => false
         end
     end.

(** The delay is recorded as it is passed. *)
Definition setTimeout (cb : Callback) (delay : number) : JS Document unit :=
  modify (fun d =>
    with_timers
      (doc_timers d ++ [{| timer_delay := delay; timer_callback := cb |}]) d).

(** *** The page, its parser and its detached nodes *)

(** An element that the HTML parser creates from markup, with the place
    of its parent among the elements parsed with it ([None] for a child
    of the element that the markup is assigned to). *)
Record ParsedElement : Type := {
  parsed_parent : option nat;
  parsed_element : Element
}.

(** The fragment parser and serializer of the browser, as an assignment
    to [innerHTML] uses them, by the local name of the element assigned to
    and the markup: the elements that the markup parses into, in tree
    order; the markup that [innerHTML] then reads back (the serialization
    of what was parsed); the text that [textContent] then reads back.
    The page is an HTML document that takes a string for [innerHTML]
    (Trusted Types are not enforced): its parser accepts every markup,
    and the assignment does not throw. *)
Class HTMLParser : Type := {
  parse_fragment : jsstring -> jsstring -> list ParsedElement;
  serialize_fragment : jsstring -> jsstring -> jsstring;
  text_of_fragment : jsstring -> jsstring -> jsstring
}.

(** What [showNotification] runs against.  [document.body] is [null]
    until the parser has reached the body, so for a script that runs from
    the head; [doc_body] is then not reachable.  [tab_below] gives, for
    an element that is not in the document, the elements below it in
    tree order. *)
Record Tab : Type := {
  tab_document : Document;
  tab_body : bool;
  tab_below : node -> list node
}.

Definition with_tab_document (d : Document) (t : Tab) : Tab :=
  {| tab_document := d; tab_body := tab_body t; tab_below := tab_below t |}.

(** A computation on the document, run in the tab. *)
Definition in_document {A} (m : JS Document A) : JS Tab A :=
  fun t =>
    match m (tab_document t) with
    | (r, d') => (r, with_tab_document d' t)
    end.

Definition set_below (n : node) (l : list node) (below : node -> list node)
    : node -> list node :=
  fun m => if bool_decide (m = n) then l else below m.

(** The parent of a parsed element, once the elements have references. *)
Definition parsed_parent_node (context : node) (refs : list positive)
    (pe : ParsedElement) : node :=
  match parsed_parent pe with
  | Some j =>
      match refs !! j with
      | Some q => Ref q
      | None => context
      end
  | None => context
  end.

Definition place (context : node) (refs : list positive)
    (pe : ParsedElement) : Element :=
  set_parentNode (Some (parsed_parent_node context refs pe))
    (parsed_element pe).

(** What an assignment to [innerHTML] does to the element itself:
    [innerHTML] and [textContent] read back what the parser has made of
    the markup. *)
Definition with_markup {parser : HTMLParser} (markup : jsstring) (e : Element)
    : Element :=
  set_textContent (text_of_fragment (el_localName e) markup)
    (set_innerHTML (serialize_fragment (el_localName e) markup) e).

(** A child of [element] loses its parent. *)
Definition orphan (element : node) (e : Element) : Element :=
  if bool_decide (el_parentNode e = Some element)
  then set_parentNode None e
  else e.

(** [element.innerHTML = markup]: the elements below [element] leave the
    document and its children lose their parent; the elements that the
    markup parses into enter the store below [element], and the document
    right after it when [element] is in the document. *)
Definition assign_innerHTML {parser : HTMLParser} (element : node)
    (markup : jsstring) : JS Document unit :=
  modify (fun d =>
    let parsed := parse_fragment (el_localName (the d element)) markup in
    let refs := fresh_list (length parsed) (dom (doc_heap d)) in
    let below m :=
      has_ancestor (length (doc_tree d)) d element m
      && negb (bool_decide (m = element)) in
    update element (with_markup markup)
      (with_tree
         (flat_map
            (fun m =>
               if bool_decide (m = element) then m :: (Ref <$> refs)
               else if below m then []
               else [m])
            (doc_tree d))
         (with_heap
            (list_to_map (zip refs (place element refs <$> parsed))
               ∪ (orphan element <$> doc_heap d))
            d))).

(** [element.innerHTML = markup] for an element that has no children and
    is not in the document (one that was just created): the parsed
    elements enter the store below it, and [tab_below] keeps their
    order. *)
Definition innerHTML_assign {parser : HTMLParser} (element : node)
    (markup : jsstring) : JS Tab unit :=
  modify (fun t =>
    let d := tab_document t in
    let parsed := parse_fragment (el_localName (the d element)) markup in
    let refs := fresh_list (length parsed) (dom (doc_heap d)) in
    {| tab_document :=
         update element (with_markup markup)
           (with_heap
              (list_to_map (zip refs (place element refs <$> parsed))
                 ∪ doc_heap d)
              d);
       tab_body := tab_body t;
       tab_below := set_below element (Ref <$> refs) (tab_below t) |}).

(** [l] with [new] put in right after the last element of [l] that
    satisfies [p]; [None] when no element does. *)
Fixpoint insert_after_last {A} (p : A -> bool) (new l : list A)
    : option (list A) :=
  match l with
  | [] => None
  | a :: l' =>
      match insert_after_last p new l' with
      | Some r => Some (a :: r)
      | None => if p a then Some (a :: new ++ l') else None
      end
  end.

(** The nodes of a document after a child, with what is below it, has
    become the last child of the body: they come right after what the
    body holds, before the elements that follow the body in the document,
    if there are any. *)
Definition appended_to_body (d : Document) (child : node)
    (below : list node) : list node :=
  let rest :=
    List.filter (fun m => negb (bool_decide (m = child))) (doc_tree d) in
  default (rest ++ child :: below)
    (insert_after_last (has_ancestor (length (doc_tree d)) d Body)
       (child :: below) rest).

(** [document.body.appendChild(child)] for a child that is not in the
    document: [document.body] may be [null]; otherwise the child becomes
    the last child of the body. *)
Definition body_appendChild (child : node) : JS Tab unit :=
  fun t =>
    if tab_body t
    then
      let d := tab_document t in
      (Normal tt,
       {| tab_document :=
            with_tree (appended_to_body d child (tab_below t child))
              (update child (set_parentNode (Some Body)) d);
          tab_body := true;
          tab_below := set_below child [] (tab_below t) |})
    else (Throw TypeError, t).

(** [parent.removeChild(child)]: the child and what is below it leave the
    document, or what is below the detached node that held them. *)
Definition removeChild (parent child : node) : JS Tab unit :=
  fun t =>
    let d := tab_document t in
    if bool_decide (el_parentNode (the d child) = Some parent)
    then
      let inside := has_ancestor (length (doc_tree d)) d child in
      (Normal tt,
       {| tab_document :=
            with_tree
              (List.filter (fun m => negb (inside m)) (doc_tree d))
              (update child (set_parentNode None) d);
          tab_body := tab_body t;
          tab_below :=
            let below :=
              List.filter (fun m => negb (bool_decide (m = child)))
                (List.filter inside (doc_tree d))
                ++ tab_below t child in
            set_below child below
              (fun n =>
                 List.filter
                   (fun m => negb (bool_decide (m ∈ child :: below)))
                   (tab_below t n)) |})
    else (Throw NotFoundError, t).

(** ** domUtils.ts *)

Definition getElementById (id : jsstring) : JS Document (option node) :=
  gets (document_getElementById id).

(** The result is typed [string]; it is the [value] itself, whatever it
    is, when the id names an element whose [value] is truthy. *)
Definition getInputValue (id : jsstring) : JS Document jsvalue :=
  let* element := getElementById id in
  let* v := opt_value element in
  ret (or_value v (js "")).

Definition setInputValue (id value : jsstring) : JS Document bool :=
  let* element := getElementById id in
  match element with
  | Some el => assign_value el value ;;; ret true
  | None => ret false
  end.

Definition getTextareaValue (id : jsstring) : JS Document jsvalue :=
  let* element := getElementById id in
  let* v := opt_value element in
  ret (or_value v (js "")).

Definition setTextareaValue (id value : jsstring) : JS Document bool :=
  let* element := getElementById id in
  match element with
  | Some el => assign_value el value ;;; ret true
  | None => ret false
  end.

Definition getCheckboxValue (id : jsstring) : JS Document bool :=
  let* element := getElementById id in
  let* v := opt_read element el_checked in
  ret (or_bool v false).

Definition setCheckboxValue (id : jsstring) (checked : bool)
    : JS Document bool :=
  let* element := getElementById id in
  match element with
  | Some el => write el (set_checked checked) ;;; ret true
  | None => ret false
  end.

Definition getTextContent (id : jsstring) : JS Document jsstring :=
  let* element := getElementById id in
  let* v := opt_read element el_textContent in
  ret (or_string v (js "")).

Definition setTextContent (id text : jsstring) : JS Document bool :=
  let* element := getElementById id in
  match element with
  | Some el => write el (set_textContent text) ;;; ret true
  | None => ret false
  end.

Definition getImageSrc (id : jsstring) : JS Document jsstring :=
  let* element := getElementById id in
  let* v := opt_read element el_src in
  ret (or_string v (js "")).

Definition setImageSrc (id src : jsstring) : JS Document bool :=
  let* element := getElementById id in
  match element with
  | Some el => write el (set_src src) ;;; ret true
  | None => ret false
  end.

Definition addClass (id className : jsstring) : JS Document bool :=
  let* element := getElementById id in
  match element with
  | Some el => classList_add el className ;;; ret true
  | None => ret false
  end.

Definition removeClass (id className : jsstring) : JS Document bool :=
  let* element := getElementById id in
  match element with
  | Some el => classList_remove el className ;;; ret true
  | None => ret false
  end.

Definition toggleClass (id className : jsstring) : JS Document bool :=
  let* element := getElementById id in
  match element with
  | Some el => classList_toggle el className ;;; ret true
  | None => ret false
  end.

Definition hasClass (id className : jsstring) : JS Document bool :=
  let* element := getElementById id in
  let* v := opt_read element (classList_contains className) in
  ret (or_bool v false).

(** *** showNotification *)

Inductive NotificationType : Type := success | error | warning.

Definition colors (type : NotificationType) : jsstring :=
  match type with
  | success => js "bg-green-500"
  | error => js "bg-red-500"
  | warning => js "bg-yellow-500"
  end.

Definition icons (type : NotificationType) : jsstring :=
  match type with
  | success => js "fa-check-circle"
  | error => js "fa-exclamation-triangle"
  | warning => js "fa-exclamation-triangle"
  end.

Definition notification_className (type : NotificationType) : jsstring :=
  js "fixed top-4 right-4 " ++ colors type
    ++ js " text-white px-6 py-3 rounded-lg shadow-lg z-50 transition-all duration-300".

Definition notification_innerHTML (type : NotificationType)
    (message : jsstring) : jsstring :=
  newline
    ++ js "    <div class=" ++ dquote ++ js "flex items-center" ++ dquote
    ++ js ">" ++ newline
    ++ js "      <i class=" ++ dquote ++ js "fas " ++ icons type ++ js " mr-2"
    ++ dquote ++ js "></i>" ++ newline
    ++ js "      " ++ message ++ newline
    ++ js "    </div>" ++ newline
    ++ js "  ".

(** An omitted argument is [None] and takes the parameter's default. *)
Definition showNotification {parser : HTMLParser} (message : jsstring)
    (type : option NotificationType) (duration : option number)
    : JS Tab unit :=
  let type := default success type in
  let duration := default (number_of_Z 3000) duration in
  let* notification := in_document (createElement (js "div")) in
  in_document
    (write notification (set_className (notification_className type))) ;;;
  innerHTML_assign notification (notification_innerHTML type message) ;;;
  body_appendChild notification ;;;
  in_document (setTimeout (NotificationFade notification) duration).

(** What a timer does when it fires. *)
Definition run_callback (cb : Callback) : JS Tab unit :=
  match cb with
  | NotificationFade notification =>
      let* parent := in_document (read notification el_parentNode) in
      when (bool_decide (is_Some parent))
        (in_document
           (write notification (style_assign set_opacity (js "0"))) ;;;
         in_document
           (write notification
              (style_assign set_transform (js "translateX(100%)"))) ;;;
         in_document
           (setTimeout (NotificationRemove notification) (number_of_Z 300)))
  | NotificationRemove notification =>
      let* parent := in_document (read notification el_parentNode) in
      match parent with
      | Some p => removeChild p notification
      | None => ret tt
      end
  end.

(** *** ModalUtils *)

Module ModalUtils.

Definition show (modalId : jsstring) : JS Document bool :=
  let* modal := getElementById modalId in
  match modal with
  | Some m =>
      classList_remove m (js "hidden") ;;;
      write Body (style_assign set_overflow (js "hidden")) ;;;
      ret true
  | None => ret false
  end.

Definition hide (modalId : jsstring) : JS Document bool :=
  let* modal := getElementById modalId in
  match modal with
  | Some m =>
      classList_add m (js "hidden") ;;;
      write Body (style_assign set_overflow (js "auto")) ;;;
      ret true
  | None => ret false
  end.

End ModalUtils.

(** *** FormUtils *)

Record RequiredFields : Type := {
  required_isValid : bool;
  missingFields : list jsstring
}.

Record Validation : Type := {
  isValid : bool;
  errors : list jsstring
}.

(** [for (const x of xs) body], threading the variables the body updates. *)
Fixpoint for_of {W A S} (xs : list A) (body : A -> S -> JS W S) (acc : S)
    : JS W S :=
  match xs with
  | [] => ret acc
  | x :: xs' => let* acc' := body x acc in for_of xs' body acc'
  end.

(** [errors.push(x)] *)
Definition push {A} (l : list A) (x : A) : list A := l ++ [x].

Module FormUtils.

Definition validateRequired (ids : list jsstring)
    : JS Document RequiredFields :=
  let* missingFields :=
    for_of ids
      (fun id missingFields =>
         let* v := getInputValue id in
         let* value := call (String_trim v) in
         if negb (truthy value)
         then ret (push missingFields id)
         else ret missingFields)
      [] in
  ret {| required_isValid := (length missingFields =? 0)%nat;
         missingFields := missingFields |}.

(** [/^[^\s@]+@[^\s@]+\.[^\s@]+$/] *)
Definition emailRegex : RegExp :=
  {| re_from_start := true;
     re_body :=
       Cat (Plus (Class not_space_or_at))
         (Cat (Lit at_sign)
            (Cat (Plus (Class not_space_or_at))
               (Cat (Lit full_stop) (Plus (Class not_space_or_at)))));
     re_to_end := true |}.

Definition validateEmail (email : jsstring) : bool :=
  RegExp_test emailRegex email.

(** [/[A-Za-z]/] and [/[0-9]/] *)
Definition letterRegex : RegExp :=
  {| re_from_start := false; re_body := Class is_letter;
     re_to_end := false |}.

Definition digitRegex : RegExp :=
  {| re_from_start := false; re_body := Class is_digit;
     re_to_end := false |}.

Definition validatePassword {format : NumberFormat} (password : jsstring)
    (minLength : option number) : Validation :=
  let minLength := default (number_of_Z 8) minLength in
  let errors := [] in
  let errors :=
    if number_lt (number_of_nat (length password)) minLength
    then push errors
           (js "Password minimal " ++ ToString minLength ++ js " karakter")
    else errors in
  let errors :=
    if negb (RegExp_test letterRegex password)
    then push errors (js "Password harus mengandung huruf")
    else errors in
  let errors :=
    if negb (RegExp_test digitRegex password)
    then push errors (js "Password harus mengandung angka")
    else errors in
  {| isValid := (length errors =? 0)%nat; errors := errors |}.

Definition validatePasswordMatch (password confirmPassword : jsstring)
    : bool :=
  bool_decide (password = confirmPassword).

End FormUtils.

(** *** LoadingUtils *)

Record LoadingHandle : Type := {
  restore : JS Document unit
}.

Definition spinner (loadingText : jsstring) : jsstring :=
  js "<i class=" ++ dquote ++ js "fas fa-spinner fa-spin mr-2" ++ dquote
    ++ js "></i>" ++ loadingText.

Module LoadingUtils.

Definition setButtonLoading {parser : HTMLParser} (buttonId : jsstring)
    (loadingText : option jsstring) : JS Document (option LoadingHandle) :=
  let loadingText := default (js "Loading...") loadingText in
  let* button := getElementById buttonId in
  match button with
  | None => ret None
  | Some button =>
      let* originalText := read button el_innerHTML in
      let* wasDisabled := read button el_disabled in
      assign_innerHTML button (spinner loadingText) ;;;
      write button (set_disabled true) ;;;
      ret (Some
             {| restore :=
                  assign_innerHTML button originalText ;;;
                  write button (set_disabled wasDisabled) |})
  end.

Definition setElementLoading {parser : HTMLParser} (elementId : jsstring)
    (loadingText : option jsstring) : JS Document (option LoadingHandle) :=
  let loadingText := default (js "Loading...") loadingText in
  let* element := getElementById elementId in
  match element with
  | None => ret None
  | Some element =>
      let* originalContent := read element el_innerHTML in
      assign_innerHTML element (spinner loadingText) ;;;
      ret (Some
             {| restore := assign_innerHTML element originalContent |})
  end.

End LoadingUtils.

(** [setButtonLoading] followed immediately by [restore]. *)
Definition loading_round_trip {parser : HTMLParser} (buttonId : jsstring)
    (loadingText : option jsstring) : JS Document unit :=
  let* handle := LoadingUtils.setButtonLoading buttonId loadingText in
  match handle with
  | Some handle => restore handle
  | None => ret tt
  end.

(** [setElementLoading] followed immediately by [restore]. *)
Definition element_round_trip {parser : HTMLParser} (elementId : jsstring)
    (loadingText : option jsstring) : JS Document unit :=
  let* handle := LoadingUtils.setElementLoading elementId loadingText in
  match handle with
  | Some handle => restore handle
  | None => ret tt
  end.

(** *** StorageUtils *)

(** The [Storage] interface of the browser; each method may throw (access
    to the storage denied, quota exceeded). *)
Class Storage (S : Type) : Type := {
  getItem : jsstring -> JS S (option jsstring);
  setItem : jsstring -> jsstring -> JS S unit;
  removeItem : jsstring -> JS S unit
}.

(** [JSON.parse] and [JSON.stringify] over a type [V] of values. *)
Class JSON (V : Type) : Type := {
  JSON_parse : jsstring -> completion V;
  JSON_stringify : V -> completion jsstring
}.

(** What [StorageUtils] runs against: [localStorage] and the console. *)
Record Window (S : Type) : Type := {
  localStorage : S;
  console : list (jsstring * exn)
}.
Arguments localStorage {S} _.
Arguments console {S} _.

Definition with_localStorage {S} (s : S) (w : Window S) : Window S :=
  {| localStorage := s; console := console w |}.

(** A call of a [localStorage] method. *)
Definition on_localStorage {S A} (m : JS S A) : JS (Window S) A :=
  fun w =>
    match m (localStorage w) with
    | (r, s') => (r, with_localStorage s' w)
    end.

Definition console_error {S} (msg : jsstring) (e : exn)
    : JS (Window S) unit :=
  modify (fun w =>
    {| localStorage := localStorage w;
       console := console w ++ [(msg, e)] |}).

Module StorageUtils.
Section StorageUtils.
Context {S V : Type} `{!Storage S, !JSON V}.

Definition get (key : jsstring) : JS (Window S) (option jsstring) :=
  try_catch
    (on_localStorage (getItem key))
    (fun error =>
       console_error (js "Error reading from localStorage:") error ;;;
       ret None).

Definition set (key value : jsstring) : JS (Window S) bool :=
  try_catch
    (on_localStorage (setItem key value) ;;;
     ret true)
    (fun error =>
       console_error (js "Error writing to localStorage:") error ;;;
       ret false).

Definition remove (key : jsstring) : JS (Window S) bool :=
  try_catch
    (on_localStorage (removeItem key) ;;;
     ret true)
    (fun error =>
       console_error (js "Error removing from localStorage:") error ;;;
       ret false).

(** The result is the parsed value, or [None] for [null]. *)
Definition getJSON (key : jsstring) : JS (Window S) (option V) :=
  try_catch
    (let* item := on_localStorage (getItem key) in
     match item with
     | Some text =>
         if truthy text
         then let* v := call (JSON_parse text) in ret (Some v)
         else ret None
     | None => ret None
     end)
    (fun error =>
       console_error (js "Error parsing JSON from localStorage:") error ;;;
       ret None).

Definition setJSON (key : jsstring) (value : V) : JS (Window S) bool :=
  try_catch
    (let* text := call (JSON_stringify value) in
     on_localStorage (setItem key text) ;;;
     ret true)
    (fun error =>
       console_error (js "Error storing JSON to localStorage:") error ;;;
       ret false).

End StorageUtils.
End StorageUtils.

(** A storage area in memory: a finite map with a quota on the stored
    code units, and a flag for access being denied. *)
Record MemStorage : Type := {
  ms_items : gmap jsstring jsstring;
  ms_quota : nat;
  ms_denied : bool
}.

Definition ms_used (items : gmap jsstring jsstring) : nat :=
  map_fold (fun k v acc => length k + length v + acc) 0 items.

#[global] Instance MemStorage_Storage : Storage MemStorage := {
  getItem key s :=
    if ms_denied s then (Throw SecurityError, s)
    else (Normal (ms_items s !! key), s);
  setItem key value s :=
    if ms_denied s then (Throw SecurityError, s)
    else if ms_quota s <? ms_used (<[key := value]> (ms_items s))
    then (Throw QuotaExceededError, s)
    else (Normal tt,
          {| ms_items := <[key := value]> (ms_items s);
             ms_quota := ms_quota s; ms_denied := ms_denied s |});
  removeItem key s :=
    if ms_denied s then (Throw SecurityError, s)
    else (Normal tt,
          {| ms_items := delete key (ms_items s);
             ms_quota := ms_quota s; ms_denied := ms_denied s |})
}.

(** The JSON texts [null], [true] and [false], as a small instance of the
    interface. *)
Inductive JsonLiteral : Type :=
| JNull
| JBool (b : bool).

#[global] Instance JsonLiteral_JSON : JSON JsonLiteral := {
  JSON_parse text :=
    if bool_decide (text = js "null") then Normal JNull
    else if bool_decide (text = js "true") then Normal (JBool true)
    else if bool_decide (text = js "false") then Normal (JBool false)
    else Throw SyntaxError;
  JSON_stringify v :=
    Normal match v with
           | JNull => js "null"
           | JBool true => js "true"
           | JBool false => js "false"
           end
}.

(** *** ProfileFormUtils *)

Record ProfileFormData : Type := {
  fullName : jsstring;
  position : jsstring;
  email : jsstring;
  phone : jsstring;
  location : jsstring;
  address : jsstring;
  twoFactorAuth : bool;
  profileImage : option jsstring
}.

(** [Partial<ProfileFormData>]: a missing field is [None]. *)
Record PartialProfileFormData : Type := {
  p_fullName : option jsstring;
  p_position : option jsstring;
  p_email : option jsstring;
  p_phone : option jsstring;
  p_location : option jsstring;
  p_address : option jsstring;
  p_twoFactorAuth : option bool;
  p_profileImage : option jsstring
}.

(** [if (x) f(x)] for a string [x] that may be [undefined]. *)
Definition if_truthy {W A} (x : option jsstring) (f : jsstring -> JS W A)
    : JS W unit :=
  match x with
  | Some s => if truthy s then f s ;;; ret tt else ret tt
  | None => ret tt
  end.

(** [if (x !== undefined) f(x)] *)
Definition if_defined {W A B} (x : option A) (f : A -> JS W B) : JS W unit :=
  match x with
  | Some a => f a ;;; ret tt
  | None => ret tt
  end.

Module ProfileFormUtils.

Definition setFormData (data : PartialProfileFormData) : JS Document unit :=
  if_truthy (p_fullName data) (setInputValue (js "modalFullName")) ;;;
  if_truthy (p_position data) (setInputValue (js "modalPosition")) ;;;
  if_truthy (p_email data) (setInputValue (js "modalEmail")) ;;;
  if_truthy (p_phone data) (setInputValue (js "modalPhone")) ;;;
  if_truthy (p_location data) (setInputValue (js "modalLocation")) ;;;
  if_truthy (p_address data) (setTextareaValue (js "modalAddress")) ;;;
  if_defined (p_twoFactorAuth data)
    (setCheckboxValue (js "modalTwoFactorAuth")) ;;;
  if_truthy (p_profileImage data) (setImageSrc (js "modalProfileImage")).

Definition validateForm (data : ProfileFormData) : Validation :=
  let errors := [] in
  let errors :=
    if negb (truthy (trim (fullName data)))
    then push errors (js "Nama lengkap wajib diisi") else errors in
  let errors :=
    if negb (truthy (trim (position data)))
    then push errors (js "Jabatan wajib diisi") else errors in
  let errors :=
    if negb (truthy (trim (email data)))
    then push errors (js "Email wajib diisi") else errors in
  let errors :=
    if negb (truthy (trim (phone data)))
    then push errors (js "Nomor telepon wajib diisi") else errors in
  let errors :=
    if truthy (email data) && negb (FormUtils.validateEmail (email data))
    then push errors (js "Format email tidak valid") else errors in
  {| isValid := (length errors =? 0)%nat; errors := errors |}.

End ProfileFormUtils.

(** ** Observations *)

(** What the statements below look at: the element that carries an id;
    what [value], [checked] and [src] read on it; and the input value of
    the id, which is what [getInputValue] makes of its [value]. *)
Definition element_at (id : jsstring) (d : Document) : option Element :=
  match document_getElementById id d with
  | Some n => deref d n
  | None => None
  end.

Definition value_at (id : jsstring) (d : Document) : option jsvalue :=
  match element_at id d with
  | Some e => value_read (el_value e)
  | None => None
  end.

Definition checked_at (id : jsstring) (d : Document) : option bool :=
  el_checked <$> element_at id d.

Definition src_at (id : jsstring) (d : Document) : option jsstring :=
  el_src <$> element_at id d.

Definition input_value (id : jsstring) (d : Document) : jsvalue :=
  or_value (value_at id d) (js "").

(** An id whose input value is a string, as the source types it; and an
    id whose input value is a string that trims to the empty string. *)
Definition string_valued (d : Document) (id : jsstring) : bool :=
  match input_value id d with
  | VString _ => true
  | _ => false
  end.

Definition trims_to_empty (d : Document) (id : jsstring) : bool :=
  match input_value id d with
  | VString s => bool_decide (trim s = [])
  | _ => false
  end.

(** What [ModalUtils.show] and [ModalUtils.hide] do to the class list of
    the modal. *)
Definition remove_hidden (e : Element) : Element :=
  set_classList (token_remove (js "hidden") (el_classList e)) e.

Definition add_hidden (e : Element) : Element :=
  set_classList (token_add (js "hidden") (el_classList e)) e.

(** A field of the form data that [setFormData] passes over: absent, or
    the empty string. *)
Definition falsy (x : option jsstring) : Prop := x = None \/ x = Some [].

(** Relations between the document before and after a computation.
    [same_ids]: every id names the same element.  [keeps id]: moreover
    the element that carries [id] is as it was.  [written id x]: [value]
    reads on the element of [id] what it read before, or what it reads
    after the assignment of a non-empty string that [x] holds.
    [assigned id x]: [same_ids] and [written id x]. *)
Definition same_ids (d d' : Document) : Prop :=
  forall i, document_getElementById i d' = document_getElementById i d.

Definition keeps (id : jsstring) (d d' : Document) : Prop :=
  same_ids d d' /\ element_at id d' = element_at id d.

Definition written (id : jsstring) (x : option jsstring)
    (d d' : Document) : Prop :=
  value_at id d' = value_at id d
  \/ exists v e st,
       x = Some v /\ v <> []
       /\ element_at id d = Some e
       /\ value_assign v (el_value e) = Normal st
       /\ value_at id d' = value_read st.

Definition assigned (id : jsstring) (x : option jsstring)
    (d d' : Document) : Prop :=
  same_ids d d' /\ written id x d d'.

(** [steps R m]: from every document, [m] ends normally in a document
    related to the first by [R]. *)
Definition steps {A} (R : Document -> Document -> Prop) (m : JS Document A)
    : Prop :=
  forall d, exists a d', m d = (Normal a, d') /\ R d d'.

(** [leaves R m]: from every document, [m] ends, normally or not, in a
    document related to the first by [R]. *)
Definition leaves {A} (R : Document -> Document -> Prop) (m : JS Document A)
    : Prop :=
  forall d, R d (world_after m d).

(** ** A sample engine *)

(** An engine for the statements that are run on examples: it prints the
    integer part of a finite number in decimal (so an integer in full),
    and the names of the other values. *)
Definition integer_rendering (x : number) : jsstring :=
  match x with
  | NaN => js "NaN"
  | Infinity negative => if negative then js "-Infinity" else js "Infinity"
  | Finite q => Number_toString (Qnum q / Zpos (Qden q))
  end.

Definition integer_format : NumberFormat.
Proof.
  refine {| ToString := integer_rendering |}.
  intros z _. unfold number_of_Z, integer_rendering, inject_Z.
  cbn [Qnum Qden]. rewrite Z.div_1_r. reflexivity.
Defined.

(** ** A sample page *)

(** An element as the parser creates it for a tag with an [id], a child
    of the body; a text input, a textarea, a checkbox and a button with
    their ways of holding a value (the button with a text that needs no
    character reference); a list item numbered [n]. *)
Definition element_with_id (localName id : jsstring) : Element :=
  {| el_localName := localName; el_id := id; el_value := NoValue;
     el_checked := false; el_textContent := []; el_src := [];
     el_classList := []; el_innerHTML := []; el_disabled := false;
     el_style := empty_style; el_parentNode := Some Body |}.

Definition text_input (id value : jsstring) : Element :=
  set_value (Control strip_newlines value) (element_with_id (js "input") id).

Definition textarea (id value : jsstring) : Element :=
  set_value (Control normalize_newlines value)
    (element_with_id (js "textarea") id).

Definition checkbox (id : jsstring) (checked : bool) : Element :=
  set_checked checked
    (set_value (Control (fun v => v) (js "on"))
       (element_with_id (js "input") id)).

Definition button (id text : jsstring) : Element :=
  set_textContent text
    (set_innerHTML text
       (set_value (Control (fun v => v) [])
          (element_with_id (js "button") id))).

Definition file_input (id : jsstring) : Element :=
  set_value (FileControl []) (element_with_id (js "input") id).

(** [li.value = v] converts [v] to a 32-bit integer; the sample takes the
    conversion of the strings it uses: no digits give zero. *)
Definition list_item (id : jsstring) (n : Z) : Element :=
  set_value (NumberControl (fun _ => Normal (number_of_Z 0)) (number_of_Z n))
    (element_with_id (js "li") id).

(** A page with an e-mail input, a save button and a hidden modal. *)
Definition sample_document : Document :=
  {| doc_body := set_parentNode None (new_element (js "body"));
     doc_heap :=
       <[1%positive := text_input (js "modalEmail") (js "ani@desa.id")]>
       (<[2%positive := button (js "saveBtn") (js "Simpan")]>
       (<[3%positive :=
           set_classList [js "modal"; js "hidden"]
             (element_with_id (js "div") (js "editModal"))]> ∅));
     doc_tree := [Body; Ref 1; Ref 2; Ref 3];
     doc_timers := [] |}.

(** The sample page with a numbered list item added, the third step of a
    recipe. *)
Definition recipe_document : Document :=
  with_tree [Body; Ref 1; Ref 2; Ref 3; Ref 4]
    (with_heap
       (<[4%positive := list_item (js "langkah") 3]> (doc_heap sample_document))
       sample_document).

(** The sample page with a carriage return in the text of its button (as
    after [button.textContent = 'Simpan\rdata']). *)
Definition carriage_return_document : Document :=
  with_heap
    (<[2%positive := button (js "saveBtn") (js "Simpan" ++ [13%N] ++ js "data")]>
       (doc_heap sample_document))
    sample_document.

(** The sample page with a name input inside its modal, in which 'Ani'
    was typed. *)
Definition name_input_markup : jsstring :=
  js "<input id=" ++ dquote ++ js "nama" ++ dquote ++ js ">".

Definition nested_document : Document :=
  with_tree [Body; Ref 1; Ref 2; Ref 3; Ref 4]
    (with_heap
       (<[4%positive :=
            set_parentNode (Some (Ref 3)) (text_input (js "nama") (js "Ani"))]>
          (alter (set_innerHTML name_input_markup) 3%positive
             (doc_heap sample_document)))
       sample_document).

Definition sample_profile : ProfileFormData :=
  {| fullName := js "Ani"; position := js "Staf"; email := js "  ";
     phone := js "0812"; location := []; address := [];
     twoFactorAuth := false; profileImage := None |}.

(** A storage area holding one key, and one to which access is denied. *)
Definition sample_window : Window MemStorage :=
  {| localStorage :=
       {| ms_items := {[ js "darkMode" := js "true" ]};
          ms_quota := 64; ms_denied := false |};
     console := [] |}.

Definition denied_window : Window MemStorage :=
  {| localStorage :=
       {| ms_items := ∅; ms_quota := 64; ms_denied := true |};
     console := [] |}.


(** ** A sample profile page *)

(** The page of the profile form: its eight fields and two modals. *)
Definition profile_page : Document :=
  {| doc_body := set_parentNode None (new_element (js "body"));
     doc_heap :=
       list_to_map
         [(1%positive, text_input (js "modalFullName") (js "Ani"));
          (2%positive, text_input (js "modalPosition") []);
          (3%positive, text_input (js "modalEmail") (js "ani@desa.id"));
          (4%positive, text_input (js "modalPhone") []);
          (5%positive, text_input (js "modalLocation") []);
          (6%positive, textarea (js "modalAddress") []);
          (7%positive, checkbox (js "modalTwoFactorAuth") true);
          (8%positive, element_with_id (js "img") (js "modalProfileImage"));
          (9%positive,
           set_classList [js "modal"; js "hidden"]
             (element_with_id (js "div") (js "editProfileModal")));
          (10%positive,
           set_classList [js "modal"; js "hidden"]
             (element_with_id (js "div") (js "changePasswordModal")))];
     doc_tree :=
       [Body; Ref 1; Ref 2; Ref 3; Ref 4; Ref 5; Ref 6; Ref 7; Ref 8; Ref 9;
        Ref 10];
     doc_timers := [] |}.


(** A parser for the examples.  It knows

    - the markup of the success notification 'Tersimpan', which holds a
      [div] with an icon in it and reads back as it was written;
    - the markup of the spinner with the text 'Loading...', which holds
      an icon and reads back as it was written;
    - the markup of the name input, which holds an empty text input and
      reads back as it was written;
    - text without markup (no [<], no [&], no NUL): it holds no element;
      line breaks are normalized by the parser, and the serializer writes
      [>] and the no-break space as character references;

    and finds no element in other markup. *)
Definition sample_markup : jsstring :=
  notification_innerHTML success (js "Tersimpan").

Definition sample_parsed : list ParsedElement :=
  [{| parsed_parent := None;
      parsed_element :=
        set_textContent
          (newline ++ js "      " ++ newline ++ js "      Tersimpan"
             ++ newline ++ js "    ")
          (set_innerHTML
             (newline ++ js "      <i class=" ++ dquote
                ++ js "fas fa-check-circle mr-2" ++ dquote ++ js "></i>"
                ++ newline ++ js "      Tersimpan" ++ newline ++ js "    ")
             (set_classList [js "flex"; js "items-center"]
                (new_element (js "div")))) |};
   {| parsed_parent := Some 0;
      parsed_element :=
        set_classList [js "fas"; js "fa-check-circle"; js "mr-2"]
          (new_element (js "i")) |}].

Definition sample_text : jsstring :=
  newline ++ js "    " ++ newline ++ js "      " ++ newline
    ++ js "      Tersimpan" ++ newline ++ js "    " ++ newline ++ js "  ".

Definition spinner_parsed : list ParsedElement :=
  [{| parsed_parent := None;
      parsed_element :=
        set_classList [js "fas"; js "fa-spinner"; js "fa-spin"; js "mr-2"]
          (new_element (js "i")) |}].

Definition name_input_parsed : list ParsedElement :=
  [{| parsed_parent := None;
      parsed_element :=
        set_value (Control strip_newlines [])
          (set_parentNode None (element_with_id (js "input") (js "nama"))) |}].

Definition plain_text (s : jsstring) : bool :=
  forallb (fun c => negb ((c =? 0) || (c =? 38) || (c =? 60))%N) s.

Definition escape_text (s : jsstring) : jsstring :=
  flat_map
    (fun c =>
       if (c =? 62)%N then js "&gt;"
       else if (c =? 160)%N then js "&nbsp;"
       else [c])
    s.

Definition sample_parser : HTMLParser := {|
  parse_fragment := fun context markup =>
    if bool_decide (markup = sample_markup) then sample_parsed
    else if bool_decide (markup = spinner (js "Loading...")) then spinner_parsed
    else if bool_decide (markup = name_input_markup) then name_input_parsed
    else [];
  serialize_fragment := fun context markup =>
    if plain_text markup then escape_text (normalize_newlines markup)
    else markup;
  text_of_fragment := fun context markup =>
    if bool_decide (markup = sample_markup) then sample_text
    else if bool_decide (markup = spinner (js "Loading...")) then js "Loading..."
    else if bool_decide (markup = name_input_markup) then []
    else if plain_text markup then normalize_newlines markup
    else markup
|}.

(** The sample page in its tab, and a tab whose page has not reached its
    body yet. *)
Definition sample_tab : Tab :=
  {| tab_document := sample_document; tab_body := true;
     tab_below := fun _ => [] |}.

Definition loading_tab : Tab :=
  {| tab_document :=
       {| doc_body := new_element (js "body"); doc_heap := ∅;
          doc_tree := []; doc_timers := [] |};
     tab_body := false;
     tab_below := fun _ => [] |}.

(** Form data that hold a name only, and a name that is a line break. *)
Definition only_fullName (v : jsstring) : PartialProfileFormData :=
  {| p_fullName := Some v; p_position := None; p_email := None;
     p_phone := None; p_location := None; p_address := None;
     p_twoFactorAuth := None; p_profileImage := None |}.

Definition line_break_name : PartialProfileFormData := only_fullName newline.

(** ** AnimationUtils *)

(** The closures that the animation helpers hand to [setTimeout]. *)
Inductive AnimationCallback : Type :=
| FadeInShow (element : node)
| FadeOutHide (element : node)
| SlideUpHide (element : node).

Record AnimationTimer : Type := {
  anim_delay : Z;
  anim_callback : AnimationCallback
}.

(** The document together with what the animation helpers add to it: the
    [transition] style they assign (a log, latest first) and the timers
    they queue. *)
Record Page : Type := {
  page_document : Document;
  page_transition : list (node * jsstring);
  page_timers : list AnimationTimer
}.

Definition with_document (d : Document) (p : Page) : Page :=
  {| page_document := d; page_transition := page_transition p;
     page_timers := page_timers p |}.

(** A computation on the document, run on the page. *)
Definition on_document {A} (m : JS Document A) : JS Page A :=
  fun p =>
    match m (page_document p) with
    | (r, d') => (r, with_document d' p)
    end.

(** [element.style.transition = v] *)
Definition set_transition (element : node) (v : jsstring) : JS Page unit :=
  modify (fun p =>
    {| page_document := page_document p;
       page_transition := (element, v) :: page_transition p;
       page_timers := page_timers p |}).

Definition transition_of (element : node) (p : Page) : option jsstring :=
  snd <$> List.find (fun x => bool_decide (fst x = element))
            (page_transition p).

Definition setAnimationTimeout (cb : AnimationCallback) (delay : Z)
    : JS Page unit :=
  modify (fun p =>
    {| page_document := page_document p;
       page_transition := page_transition p;
       page_timers :=
         page_timers p ++ [{| anim_delay := delay; anim_callback := cb |}] |}).

Module AnimationUtils.

Definition fadeIn (elementId : jsstring) (duration : option Z)
    : JS Page unit :=
  let duration := default 300%Z duration in
  let* element := on_document (getElementById elementId) in
  match element with
  | Some element =>
      on_document (write element (style_assign set_opacity (js "0"))) ;;;
      set_transition element
        (js "opacity " ++ Number_toString duration ++ js "ms ease") ;;;
      on_document (classList_remove element (js "hidden")) ;;;
      setAnimationTimeout (FadeInShow element) 10%Z
  | None => ret tt
  end.

Definition fadeOut (elementId : jsstring) (duration : option Z)
    (hideAfter : option bool) : JS Page unit :=
  let duration := default 300%Z duration in
  let hideAfter := default true hideAfter in
  let* element := on_document (getElementById elementId) in
  match element with
  | Some element =>
      set_transition element
        (js "opacity " ++ Number_toString duration ++ js "ms ease") ;;;
      on_document (write element (style_assign set_opacity (js "0"))) ;;;
      when hideAfter (setAnimationTimeout (FadeOutHide element) duration)
  | None => ret tt
  end.

Definition slideUp (elementId : jsstring) (duration : option Z)
    : JS Page unit :=
  let duration := default 300%Z duration in
  let* element := on_document (getElementById elementId) in
  match element with
  | Some element =>
      set_transition element
        (js "transform " ++ Number_toString duration ++ js "ms ease, opacity "
           ++ Number_toString duration ++ js "ms ease") ;;;
      on_document
        (write element (style_assign set_transform (js "translateY(-20px)"))) ;;;
      on_document (write element (style_assign set_opacity (js "0"))) ;;;
      setAnimationTimeout (SlideUpHide element) duration
  | None => ret tt
  end.

End AnimationUtils.

(** What an animation timer does when it fires. *)
Definition run_animation_callback (cb : AnimationCallback) : JS Page unit :=
  match cb with
  | FadeInShow element =>
      on_document (write element (style_assign set_opacity (js "1")))
  | FadeOutHide element =>
      on_document (classList_add element (js "hidden"))
  | SlideUpHide element =>
      on_document (classList_add element (js "hidden"))
  end.

(** The sample page with nothing animated yet. *)
Definition sample_page : Page :=
  {| page_document := sample_document; page_transition := [];
     page_timers := [] |}.

(* ===================================================================== *)
(** * Part II: lemmas and theorems                                        *)
(* ===================================================================== *)

(** ** Strings *)

Lemma truthy_nil_iff (s : jsstring) : truthy s = false <-> s = [].
Proof. destruct s; simpl; split; congruence. Qed.

Lemma trimStart_nil_iff (s : jsstring) :
  trimStart s = [] <-> forallb is_whitespace s = true.
Proof.
  induction s as [|c s IH]; simpl.
  - tauto.
  - destruct (is_whitespace c); simpl.
    + exact IH.
    + split; discriminate.
Qed.

Lemma trimStart_head (s : jsstring) c t :
  trimStart s = c :: t -> is_whitespace c = false.
Proof.
  induction s as [|a s IH]; simpl; [discriminate|].
  destruct (is_whitespace a) eqn:Ha; [exact IH|].
  intros [= <- _]. exact Ha.
Qed.

Lemma forallb_rev {A} (p : A -> bool) (l : list A) :
  forallb p (rev l) = forallb p l.
Proof.
  induction l as [|a l IH]; simpl; [reflexivity|].
  rewrite forallb_app, IH. simpl. rewrite andb_true_r. apply andb_comm.
Qed.

(** A string trims to the empty string exactly when it is made of
    whitespace only. *)
Lemma trim_nil_iff (s : jsstring) :
  trim s = [] <-> forallb is_whitespace s = true.
Proof.
  unfold trim, trimEnd. split.
  - intros H.
    assert (Hr : trimStart (rev (trimStart s)) = []).
    { apply (f_equal (@rev N)) in H. rewrite rev_involutive in H. exact H. }
    apply trimStart_nil_iff in Hr. rewrite forallb_rev in Hr.
    destruct (trimStart s) as [|c t] eqn:E.
    + apply trimStart_nil_iff. exact E.
    + apply trimStart_head in E. simpl in Hr. rewrite E in Hr. discriminate.
  - intros H. apply trimStart_nil_iff in H. rewrite H. reflexivity.
Qed.

(** ** Regular expressions: [matches] decides [lang] *)

Lemma nullable_lang (r : regex) : nullable r = true <-> lang r [].
Proof.
  induction r as [| |p|r1 IH1 r2 IH2|r1 IH1 r2 IH2|r IH]; simpl.
  - split; [discriminate|]. intros H. inversion H.
  - split; [constructor|reflexivity].
  - split; [discriminate|]. intros H. inversion H.
  - rewrite andb_true_iff, IH1, IH2. split.
    + intros [H1 H2]. exact (lang_cat _ _ [] [] H1 H2).
    + intros H. inversion H as [| |? ? s1 s2 H1 H2| | | |]; subst.
      match goal with E : _ ++ _ = [] |- _ =>
        apply app_eq_nil in E as [-> ->] end.
      tauto.
  - rewrite orb_true_iff, IH1, IH2. split.
    + intros [H|H]; [apply lang_alt_l|apply lang_alt_r]; exact H.
    + intros H. inversion H; subst; tauto.
  - split; [constructor|reflexivity].
Qed.

(** A non-empty word of a starred pattern starts with a non-empty word of
    the pattern. *)
Lemma lang_star_cons (r : regex) c s :
  lang (Star r) (c :: s) ->
  exists s1 s2, s = s1 ++ s2 /\ lang r (c :: s1) /\ lang (Star r) s2.
Proof.
  intros H. remember (Star r) as r' eqn:Er. remember (c :: s) as w eqn:Ew.
  revert s Ew.
  induction H as [| | | | | |r0 s1 s2 H1 _ H2 IH2]; intros t Ew;
    try discriminate.
  injection Er as ->.
  destruct s1 as [|a s1]; simpl in Ew.
  - apply IH2; [reflexivity|exact Ew].
  - injection Ew as -> <-. exists s1, s2. auto.
Qed.

Lemma deriv_lang (c : code_unit) (r : regex) (s : jsstring) :
  lang (deriv c r) s <-> lang r (c :: s).
Proof.
  revert s.
  induction r as [| |p|r1 IH1 r2 IH2|r1 IH1 r2 IH2|r IH]; intros s; simpl.
  - split; intros H; inversion H.
  - split; intros H; inversion H.
  - destruct (p c) eqn:Hp; split; intros H; inversion H; subst.
    + constructor. exact Hp.
    + constructor.
    + congruence.
  - split.
    + intros H.
      assert (Hl : forall s, lang (Cat (deriv c r1) r2) s ->
                             lang (Cat r1 r2) (c :: s)).
      { clear H s. intros s H.
        inversion H as [| |? ? s1 s2 H1 H2| | | |]; subst.
        apply IH1 in H1. exact (lang_cat _ _ (c :: s1) s2 H1 H2). }
      destruct (nullable r1) eqn:Hn; [|apply Hl; exact H].
      inversion H as [| | |? ? ? H'|? ? ? H'| |]; subst; [apply Hl; exact H'|].
      apply IH2 in H'. apply nullable_lang in Hn.
      exact (lang_cat _ _ [] (c :: s) Hn H').
    + intros H.
      inversion H as [| |? ? s1 s2 H1 H2| | | |]; subst.
      match goal with E : _ ++ _ = _ :: _ |- _ => rename E into E0 end.
      destruct s1 as [|a s1]; simpl in E0.
      * subst s2. apply nullable_lang in H1 as Hn. rewrite Hn.
        apply lang_alt_r, IH2. exact H2.
      * injection E0 as -> <-.
        assert (Hc : lang (Cat (deriv c r1) r2) (s1 ++ s2)).
        { constructor; [apply IH1; exact H1|exact H2]. }
        destruct (nullable r1); [apply lang_alt_l|]; exact Hc.
  - split; intros H; inversion H; subst.
    + apply lang_alt_l, IH1. assumption.
    + apply lang_alt_r, IH2. assumption.
    + apply lang_alt_l, IH1. assumption.
    + apply lang_alt_r, IH2. assumption.
  - split.
    + intros H. inversion H as [| |? ? s1 s2 H1 H2| | | |]; subst.
      apply IH in H1. exact (lang_star_app _ (c :: s1) s2 H1 H2).
    + intros H. apply lang_star_cons in H as (s1 & s2 & -> & H1 & H2).
      constructor; [apply IH; exact H1|exact H2].
Qed.

Lemma matches_lang (r : regex) (s : jsstring) :
  matches r s = true <-> lang r s.
Proof.
  revert r. induction s as [|c s IH]; intros r; simpl.
  - apply nullable_lang.
  - rewrite IH. apply deriv_lang.
Qed.

Lemma lang_cat_inv (r1 r2 : regex) (s : jsstring) :
  lang (Cat r1 r2) s ->
  exists s1 s2, s = s1 ++ s2 /\ lang r1 s1 /\ lang r2 s2.
Proof. intros H. inversion H; subst. eauto. Qed.

Lemma lang_class_inv (p : code_unit -> bool) (s : jsstring) :
  lang (Class p) s -> exists c, s = [c] /\ p c = true.
Proof. intros H. inversion H; subst. eauto. Qed.

Lemma lang_eps_inv (s : jsstring) : lang Epsilon s -> s = [].
Proof. intros H. inversion H. reflexivity. Qed.

Lemma lang_star_any (s : jsstring) : lang (Star any_unit) s.
Proof.
  induction s as [|c s IH]; [constructor|].
  apply (lang_star_app any_unit [c] s); [|exact IH].
  constructor. reflexivity.
Qed.

(** An unanchored one-class pattern tests whether some code unit of the
    string is in the class. *)
Lemma RegExp_test_class (p : code_unit -> bool) (s : jsstring) :
  RegExp_test
    {| re_from_start := false; re_body := Class p; re_to_end := false |} s
  = existsb p s.
Proof.
  apply eq_iff_eq_true. unfold RegExp_test; simpl re_from_start;
    simpl re_body; simpl re_to_end; cbv iota.
  rewrite matches_lang, existsb_exists. split.
  - intros H.
    apply lang_cat_inv in H as (s1 & s' & -> & _ & H).
    apply lang_cat_inv in H as (s2 & s3 & -> & H & _).
    apply lang_class_inv in H as (c & -> & Hc).
    exists c. split; [|exact Hc].
    apply in_or_app. right. left. reflexivity.
  - intros (c & Hin & Hc).
    apply in_split in Hin as (l1 & l2 & ->).
    apply lang_cat; [apply lang_star_any|].
    apply (lang_cat _ _ [c] l2); [|apply lang_star_any].
    constructor. exact Hc.
Qed.

(** Every string accepted by the e-mail pattern contains an at sign. *)
Lemma validateEmail_at_sign (email : jsstring) :
  FormUtils.validateEmail email = true -> In at_sign email.
Proof.
  unfold FormUtils.validateEmail, RegExp_test. simpl.
  rewrite matches_lang. intros H.
  apply lang_cat_inv in H as (s0 & s' & -> & H0 & H).
  apply lang_eps_inv in H0 as ->.
  apply lang_cat_inv in H as (sb & s9 & -> & H & H9).
  apply lang_eps_inv in H9 as ->.
  apply lang_cat_inv in H as (s1 & s' & -> & _ & H).
  apply lang_cat_inv in H as (s2 & s3 & -> & H & _).
  apply lang_class_inv in H as (c & -> & Hc).
  apply N.eqb_eq in Hc as ->.
  simpl. rewrite app_nil_r. apply in_or_app. right. left. reflexivity.
Qed.

(** A string of whitespace fails the e-mail pattern. *)
Lemma validateEmail_whitespace (email : jsstring) :
  forallb is_whitespace email = true -> FormUtils.validateEmail email = false.
Proof.
  intros Hws. destruct (FormUtils.validateEmail email) eqn:E; [|reflexivity].
  apply validateEmail_at_sign in E.
  rewrite forallb_forall in Hws. apply Hws in E. discriminate E.
Qed.

(** ** FormUtils.validatePassword *)

Lemma is_letter_spec (c : code_unit) :
  is_letter c = true <-> (65 <= c <= 90 \/ 97 <= c <= 122)%N.
Proof.
  unfold is_letter.
  rewrite orb_true_iff, !andb_true_iff, !N.leb_le. tauto.
Qed.

Lemma is_digit_spec (c : code_unit) :
  is_digit c = true <-> (48 <= c <= 57)%N.
Proof.
  unfold is_digit. rewrite andb_true_iff, !N.leb_le. tauto.
Qed.

Lemma existsb_letter (s : jsstring) :
  existsb is_letter s = true <->
  exists c, In c s /\ (65 <= c <= 90 \/ 97 <= c <= 122)%N.
Proof.
  rewrite existsb_exists.
  split; intros (c & Hin & Hc); exists c; split; auto;
    apply is_letter_spec; exact Hc.
Qed.

Lemma existsb_digit (s : jsstring) :
  existsb is_digit s = true <-> exists c, In c s /\ (48 <= c <= 57)%N.
Proof.
  rewrite existsb_exists.
  split; intros (c & Hin & Hc); exists c; split; auto;
    apply is_digit_spec; exact Hc.
Qed.

(** The two comparisons agree on numbers that are not [NaN]. *)
Lemma number_lt_le (x y : number) :
  x <> NaN -> y <> NaN -> number_lt x y = negb (number_le y x).
Proof.
  intros Hx Hy.
  destruct x as [|[|]|p], y as [|[|]|q]; try congruence; reflexivity.
Qed.

Lemma number_le_NaN_l (x : number) : number_le NaN x = false.
Proof. reflexivity. Qed.

Lemma number_lt_NaN_r (x : number) : number_lt x NaN = false.
Proof. destruct x; reflexivity. Qed.

(** The verdict of [validatePassword], by its three checks. *)
Lemma validatePassword_isValid `{!NumberFormat} (password : jsstring)
    (minLength : option number) :
  isValid (FormUtils.validatePassword password minLength)
  = negb (number_lt (number_of_nat (length password))
            (default (number_of_Z 8) minLength))
    && existsb is_letter password && existsb is_digit password.
Proof.
  unfold FormUtils.validatePassword, FormUtils.letterRegex,
    FormUtils.digitRegex.
  rewrite !RegExp_test_class.
  destruct (number_lt _ _);
    destruct (existsb is_letter password);
    destruct (existsb is_digit password); reflexivity.
Qed.

Lemma validatePassword_errors `{!NumberFormat} (password : jsstring)
    (minLength : option number) :
  let m := default (number_of_Z 8) minLength in
  errors (FormUtils.validatePassword password minLength)
  = (if number_lt (number_of_nat (length password)) m
     then [js "Password minimal " ++ ToString m ++ js " karakter"]
     else [])
    ++ (if existsb is_letter password then []
        else [js "Password harus mengandung huruf"])
    ++ (if existsb is_digit password then []
        else [js "Password harus mengandung angka"]).
Proof.
  intros m. unfold FormUtils.validatePassword. fold m.
  unfold FormUtils.letterRegex, FormUtils.digitRegex.
  rewrite !RegExp_test_class.
  destruct (number_lt _ m);
    destruct (existsb is_letter password);
    destruct (existsb is_digit password); reflexivity.
Qed.

(** C2, as stated, fails when [minLength] is [NaN]: the comparison
    [password.length < minLength] is then false, so the length check never
    fails and 'a1' is reported valid, although its length is not at least
    [minLength]. *)
Lemma C2_minLength_NaN :
  let r :=
    FormUtils.validatePassword (format := integer_format) (js "a1")
      (Some NaN) in
  isValid r = true
  /\ number_le NaN (number_of_nat (length (js "a1"))) = false
  /\ errors r = [].
Proof. repeat split. Qed.

(** C2, amended.  For a [minLength] other than [NaN] (8 when the argument
    is omitted), [FormUtils.validatePassword] reports a valid password
    exactly when it has at least [minLength] code units, a letter of
    [A-Za-z] and a digit of [0-9]; for [NaN] the length check never fails
    and the verdict rests on the letter and the digit.  In both cases the
    error list holds one message for each check of the code that fails,
    in the order length, letter, digit, the first one naming [minLength]
    as the engine prints it. *)
Theorem C2_validatePassword `{!NumberFormat} (password : jsstring)
    (minLength : option number) :
  let m := default (number_of_Z 8) minLength in
  let r := FormUtils.validatePassword password minLength in
  let has_letter :=
    exists c, In c password /\ (65 <= c <= 90 \/ 97 <= c <= 122)%N in
  let has_digit := exists c, In c password /\ (48 <= c <= 57)%N in
  (m <> NaN ->
   (isValid r = true <->
      number_le m (number_of_nat (length password)) = true
      /\ has_letter /\ has_digit))
  /\ (m = NaN -> (isValid r = true <-> has_letter /\ has_digit))
  /\ errors r =
       (if number_lt (number_of_nat (length password)) m
        then [js "Password minimal " ++ ToString m ++ js " karakter"]
        else [])
       ++ (if existsb is_letter password then []
           else [js "Password harus mengandung huruf"])
       ++ (if existsb is_digit password then []
           else [js "Password harus mengandung angka"]).
Proof.
  intros m r has_letter has_digit. subst r has_letter has_digit.
  rewrite validatePassword_isValid. fold m.
  rewrite <- existsb_letter, <- existsb_digit.
  split; [|split; [|apply validatePassword_errors]].
  - intros Hm.
    rewrite number_lt_le by (unfold number_of_nat, number_of_Z; congruence).
    rewrite negb_involutive, !andb_true_iff. tauto.
  - intros ->. rewrite number_lt_NaN_r. cbn [negb andb].
    rewrite andb_true_iff. tauto.
Qed.

(** With [minLength] omitted the first message names 8, on every
    engine. *)
Lemma validatePassword_default_message `{!NumberFormat}
    (password : jsstring) :
  length password < 8 ->
  In (js "Password minimal 8 karakter")
    (errors (FormUtils.validatePassword password None)).
Proof.
  intros Hlen. rewrite validatePassword_errors. cbn [default].
  assert (Hlt : number_lt (number_of_nat (length password)) (number_of_Z 8)
                = true).
  { unfold number_lt, number_of_nat, number_of_Z.
    apply negb_true_iff. destruct (Qle_bool _ _) eqn:E; [|reflexivity].
    apply Qle_bool_iff in E. rewrite <- Zle_Qle in E. lia. }
  rewrite Hlt. apply in_or_app. left. left.
  rewrite (ToString_safe_integer 8) by (apply Z.ltb_lt; reflexivity).
  reflexivity.
Qed.

(** ** ProfileFormUtils.validateForm *)

(** C9.  When the e-mail of the form is a non-empty string of whitespace,
    [ProfileFormUtils.validateForm] reports both 'Email wajib diisi' (the
    trimmed e-mail is empty) and 'Format email tidak valid' (the e-mail is
    truthy and fails the pattern), and the form is not valid. *)
Theorem C9_validateForm_whitespace_email (data : ProfileFormData) :
  email data <> [] ->
  forallb is_whitespace (email data) = true ->
  let r := ProfileFormUtils.validateForm data in
  In (js "Email wajib diisi") (errors r)
  /\ In (js "Format email tidak valid") (errors r)
  /\ isValid r = false.
Proof.
  intros Hne Hws r. subst r. unfold ProfileFormUtils.validateForm.
  rewrite (validateEmail_whitespace _ Hws).
  apply trim_nil_iff in Hws. rewrite Hws.
  assert (Ht : truthy (email data) = true)
    by (destruct (email data); [congruence|reflexivity]).
  rewrite Ht.
  destruct (truthy (trim (fullName data)));
    destruct (truthy (trim (position data)));
    destruct (truthy (trim (phone data)));
    unfold push; simpl; intuition.
Qed.

Lemma C9_validateForm_whitespace_email_witness :
  email sample_profile <> []
  /\ forallb is_whitespace (email sample_profile) = true
  /\ In (js "Email wajib diisi")
       (errors (ProfileFormUtils.validateForm sample_profile))
  /\ In (js "Format email tidak valid")
       (errors (ProfileFormUtils.validateForm sample_profile))
  /\ isValid (ProfileFormUtils.validateForm sample_profile) = false.
Proof.
  split; [discriminate|]. split; [reflexivity|].
  apply (C9_validateForm_whitespace_email sample_profile);
    [discriminate|reflexivity].
Defined.

Example validateForm_sample :
  errors (ProfileFormUtils.validateForm sample_profile)
  = [js "Email wajib diisi"; js "Format email tidak valid"].
Proof. reflexivity. Qed.

(** ** The store *)

Lemma deref_update_eq (n : node) f (d : Document) :
  deref (update n f d) n = f <$> deref d n.
Proof. destruct n; simpl; [reflexivity|]. apply lookup_alter_eq. Qed.

Lemma deref_update_ne (n m : node) f (d : Document) :
  n <> m -> deref (update n f d) m = deref d m.
Proof.
  intros Hne. destruct n, m; simpl; try reflexivity; [congruence|].
  apply lookup_alter_ne. congruence.
Qed.

Lemma the_update_eq (n : node) f (d : Document) e :
  deref d n = Some e -> the (update n f d) n = f e.
Proof. intros H. unfold the. rewrite deref_update_eq, H. reflexivity. Qed.

Lemma the_update_ne (n m : node) f (d : Document) :
  n <> m -> the (update n f d) m = the d m.
Proof. intros H. unfold the. rewrite deref_update_ne by exact H. reflexivity. Qed.

Lemma the_deref (d : Document) (n : node) e :
  deref d n = Some e -> the d n = e.
Proof. intros H. unfold the. rewrite H. reflexivity. Qed.

Lemma doc_tree_update (n : node) f (d : Document) :
  doc_tree (update n f d) = doc_tree d.
Proof. destruct n; reflexivity. Qed.

Lemma doc_timers_update (n : node) f (d : Document) :
  doc_timers (update n f d) = doc_timers d.
Proof. destruct n; reflexivity. Qed.

Lemma deref_with_tree (t : list node) (d : Document) (n : node) :
  deref (with_tree t d) n = deref d n.
Proof. destruct n; reflexivity. Qed.

Lemma deref_with_timers (t : list Timer) (d : Document) (n : node) :
  deref (with_timers t d) n = deref d n.
Proof. destruct n; reflexivity. Qed.

Lemma the_with_tree (t : list node) (d : Document) (n : node) :
  the (with_tree t d) n = the d n.
Proof. unfold the. rewrite deref_with_tree. reflexivity. Qed.

Lemma the_with_timers (t : list Timer) (d : Document) (n : node) :
  the (with_timers t d) n = the d n.
Proof. unfold the. rewrite deref_with_timers. reflexivity. Qed.

(** An assignment that leaves the object as it was leaves the document as
    it was. *)
Lemma update_fixed (n : node) f (d : Document) :
  (forall e, deref d n = Some e -> f e = e) -> update n f d = d.
Proof.
  intros H. destruct d as [b h t ti]. destruct n as [|p]; simpl in *.
  - unfold with_body; simpl. rewrite H; reflexivity.
  - unfold with_heap; simpl. rewrite alter_id; [reflexivity|exact H].
Qed.





(** ** document.getElementById *)

Lemma find_ext {A} (f g : A -> bool) (l : list A) :
  (forall x, In x l -> f x = g x) -> List.find f l = List.find g l.
Proof.
  induction l as [|a l IH]; intros H; simpl; [reflexivity|].
  rewrite <- (H a) by (left; reflexivity).
  destruct (f a); [reflexivity|].
  apply IH. intros x Hx. apply H. right. exact Hx.
Qed.

(** The element found carries the requested id, which is not empty. *)
Lemma getElementById_Some (id : jsstring) (d : Document) (n : node) :
  document_getElementById id d = Some n ->
  In n (doc_tree d)
  /\ exists e, deref d n = Some e /\ el_id e = id /\ id <> [].
Proof.
  unfold document_getElementById. intros H.
  apply find_some in H as [Hin H]. split; [exact Hin|].
  unfold has_id in H. destruct (deref d n) as [e|]; [|discriminate].
  apply andb_true_iff in H as [Ht Hid].
  apply bool_decide_eq_true in Hid.
  exists e. repeat split; auto. intros ->. discriminate.
Qed.

(** Assignments that keep the [id] slot do not change which element an id
    names. *)
Lemma getElementById_update (id : jsstring) (n : node) f (d : Document) :
  (forall e, el_id (f e) = el_id e) ->
  document_getElementById id (update n f d) = document_getElementById id d.
Proof.
  intros Hid. unfold document_getElementById. rewrite doc_tree_update.
  apply find_ext. intros m _. unfold has_id.
  destruct (decide (n = m)) as [->|Hne].
  - rewrite deref_update_eq. destruct (deref d m); simpl; [|reflexivity].
    rewrite Hid. reflexivity.
  - rewrite deref_update_ne by exact Hne. reflexivity.
Qed.

(** Elements named by different ids are different objects. *)
Lemma getElementById_inj (i j : jsstring) (d : Document) (n m : node) :
  document_getElementById i d = Some n ->
  document_getElementById j d = Some m ->
  i <> j -> n <> m.
Proof.
  intros Hi Hj Hne ->.
  apply getElementById_Some in Hi as (_ & e & He & <- & _).
  apply getElementById_Some in Hj as (_ & e' & He' & <- & _).
  congruence.
Qed.

(** ** Absent elements *)

Lemma getInputValue_absent (id : jsstring) (d : Document) :
  document_getElementById id d = None ->
  getInputValue id d = (Normal (js ""), d).
Proof.
  intros H. unfold getInputValue, getElementById, bind, gets.
  rewrite H. reflexivity.
Qed.

(** C1.  When no element of the document carries the id, every utility
    ends normally with its default and leaves the document as it is: the
    string getters give the empty string, [getCheckboxValue] and
    [hasClass] give [false], the setters, the class operations and
    [ModalUtils.show]/[hide] give [false], and the two [LoadingUtils]
    functions give [null]. *)
Theorem C1_absent_element {parser : HTMLParser} (d : Document)
    (id : jsstring) :
  document_getElementById id d = None ->
  getInputValue id d = (Normal (js ""), d)
  /\ getTextareaValue id d = (Normal (js ""), d)
  /\ getTextContent id d = (Normal (js ""), d)
  /\ getImageSrc id d = (Normal (js ""), d)
  /\ getCheckboxValue id d = (Normal false, d)
  /\ (forall className, hasClass id className d = (Normal false, d))
  /\ (forall value, setInputValue id value d = (Normal false, d))
  /\ (forall value, setTextareaValue id value d = (Normal false, d))
  /\ (forall checked, setCheckboxValue id checked d = (Normal false, d))
  /\ (forall text, setTextContent id text d = (Normal false, d))
  /\ (forall src, setImageSrc id src d = (Normal false, d))
  /\ (forall className, addClass id className d = (Normal false, d))
  /\ (forall className, removeClass id className d = (Normal false, d))
  /\ (forall className, toggleClass id className d = (Normal false, d))
  /\ ModalUtils.show id d = (Normal false, d)
  /\ ModalUtils.hide id d = (Normal false, d)
  /\ (forall loadingText,
        LoadingUtils.setButtonLoading id loadingText d = (Normal None, d))
  /\ (forall loadingText,
        LoadingUtils.setElementLoading id loadingText d = (Normal None, d)).
Proof.
  intros H.
  unfold getInputValue, getTextareaValue, getTextContent, getImageSrc,
    getCheckboxValue, hasClass, setInputValue, setTextareaValue,
    setCheckboxValue, setTextContent, setImageSrc, addClass, removeClass,
    toggleClass, ModalUtils.show, ModalUtils.hide,
    LoadingUtils.setButtonLoading, LoadingUtils.setElementLoading,
    getElementById, bind, gets.
  rewrite H. repeat split.
Qed.

(** ** Input values *)

Lemma or_string_empty (s : jsstring) : or_string (Some s) (js "") = s.
Proof. destruct s; reflexivity. Qed.

Lemma or_value_string (s : jsstring) :
  or_value (Some (VString s)) (js "") = VString s.
Proof. destruct s; reflexivity. Qed.

Lemma element_at_found (id : jsstring) (d : Document) (el : node) :
  document_getElementById id d = Some el ->
  element_at id d = Some (the d el).
Proof.
  intros H. unfold element_at. rewrite H.
  destruct (getElementById_Some _ _ _ H) as (_ & e & He & _).
  rewrite He, (the_deref _ _ _ He). reflexivity.
Qed.

(** [getInputValue] never changes the document and never throws; it
    returns the input value of the id. *)
Lemma getInputValue_input_value (id : jsstring) (d : Document) :
  getInputValue id d = (Normal (input_value id d), d).
Proof.
  unfold input_value, value_at, getInputValue, getElementById, bind, gets.
  destruct (document_getElementById id d) as [n|] eqn:H.
  - rewrite (element_at_found _ _ _ H). reflexivity.
  - unfold element_at. rewrite H. reflexivity.
Qed.

Lemma getTextareaValue_input_value (id : jsstring) (d : Document) :
  getTextareaValue id d = (Normal (input_value id d), d).
Proof. exact (getInputValue_input_value id d). Qed.

Lemma assign_value_run (el : node) (v : jsstring) (d : Document) :
  assign_value el v d
  = match value_assign v (el_value (the d el)) with
    | Normal st => (Normal tt, update el (set_value st) d)
    | Throw e => (Throw e, d)
    end.
Proof.
  unfold assign_value, bind, read, gets.
  destruct (value_assign v (el_value (the d el))); reflexivity.
Qed.

Lemma setInputValue_unfold (j v : jsstring) (d : Document) :
  setInputValue j v d
  = match document_getElementById j d with
    | Some n =>
        match value_assign v (el_value (the d n)) with
        | Normal st => (Normal true, update n (set_value st) d)
        | Throw e => (Throw e, d)
        end
    | None => (Normal false, d)
    end.
Proof.
  unfold setInputValue, getElementById, bind at 1, gets.
  destruct (document_getElementById j d) as [n|]; [|reflexivity].
  unfold bind. rewrite assign_value_run.
  destruct (value_assign v (el_value (the d n))); reflexivity.
Qed.

Lemma setTextareaValue_unfold (j v : jsstring) (d : Document) :
  setTextareaValue j v d
  = match document_getElementById j d with
    | Some n =>
        match value_assign v (el_value (the d n)) with
        | Normal st => (Normal true, update n (set_value st) d)
        | Throw e => (Throw e, d)
        end
    | None => (Normal false, d)
    end.
Proof. exact (setInputValue_unfold j v d). Qed.

(** What [value] reads on the element of an id after an assignment to that
    element. *)
Lemma value_at_update (id : jsstring) (d : Document) (el : node)
    (st : ValueState) :
  document_getElementById id d = Some el ->
  value_at id (update el (set_value st) d) = value_read st.
Proof.
  intros H. unfold value_at, element_at.
  rewrite getElementById_update by reflexivity. rewrite H.
  destruct (getElementById_Some _ _ _ H) as (_ & e & He & _).
  rewrite deref_update_eq, He. reflexivity.
Qed.

Lemma strip_newlines_fixed (v : jsstring) :
  Forall (fun c => c <> 10%N /\ c <> 13%N) v -> strip_newlines v = v.
Proof.
  unfold strip_newlines. induction 1 as [|c v [H10 H13] _ IH]; simpl.
  - reflexivity.
  - apply N.eqb_neq in H10, H13. rewrite H10, H13. simpl.
    f_equal. exact IH.
Qed.

(** C3, as stated, fails on a text input: the input strips line breaks
    from what is assigned to it, so the value that [getInputValue] returns
    after [setInputValue] is not the string that was set. *)
Lemma C3_text_input_strips_line_breaks :
  result_of (setInputValue (js "modalEmail") (js "a" ++ newline ++ js "b"))
    sample_document
  = Normal true
  /\ result_of (getInputValue (js "modalEmail"))
       (world_after
          (setInputValue (js "modalEmail") (js "a" ++ newline ++ js "b"))
          sample_document)
     = Normal (VString (js "ab"))
  /\ js "ab" <> js "a" ++ newline ++ js "b".
Proof. repeat split. discriminate. Qed.

(** C3, amended.  For an id that names an element of the document and any
    string [v]: when the element is a control that keeps its value as a
    string (an input of any type but file), [setInputValue] returns
    [true], and [getInputValue] on the resulting document returns [v] as
    the control's value sanitization leaves it; that is [v] itself when
    the sanitization does not change [v], as on a text input for a [v]
    without CR and LF.  When the element is an input of type file and [v]
    is not empty, [setInputValue] throws and changes nothing. *)
Theorem C3_input_value_round_trip (d : Document) (id v : jsstring)
    (el : node) :
  document_getElementById id d = Some el ->
  let d' := world_after (setInputValue id v) d in
  (forall sanitize old,
     el_value (the d el) = Control sanitize old ->
     setInputValue id v d = (Normal true, d')
     /\ getInputValue id d' = (Normal (sanitize v), d')
     /\ (sanitize v = v -> getInputValue id d' = (Normal v, d'))
     /\ (sanitize = strip_newlines ->
         Forall (fun c => c <> 10%N /\ c <> 13%N) v ->
         getInputValue id d' = (Normal v, d')))
  /\ (forall old,
        el_value (the d el) = FileControl old ->
        v <> [] ->
        setInputValue id v d = (Throw InvalidStateError, d)).
Proof.
  intros H d'. subst d'. unfold world_after.
  rewrite setInputValue_unfold, H. split.
  - intros sanitize old E. rewrite E. cbn [value_assign snd].
    assert (G : getInputValue id (update el (set_value (Control sanitize (sanitize v))) d)
                = (Normal (VString (sanitize v)),
                   update el (set_value (Control sanitize (sanitize v))) d)).
    { rewrite getInputValue_input_value. unfold input_value.
      rewrite (value_at_update _ _ _ _ H). cbn [value_read].
      rewrite or_value_string. reflexivity. }
    split; [reflexivity|]. split; [exact G|]. split.
    + intros Ev. rewrite G. do 3 f_equal. exact Ev.
    + intros -> Hv. rewrite G. do 3 f_equal.
      exact (strip_newlines_fixed _ Hv).
  - intros old E Hv. rewrite E. cbn [value_assign].
    destruct v; [congruence|reflexivity].
Qed.

Lemma the_update_at (n : node) f (d : Document) :
  is_Some (deref d n) -> the (update n f d) n = f (the d n).
Proof.
  intros [e He]. rewrite (the_update_eq _ _ _ _ He), (the_deref _ _ _ He).
  reflexivity.
Qed.

(** A slot that an assignment does not touch reads the same afterwards,
    on every object. *)
Lemma the_update_slot {A} (g : Element -> A) (n m : node) f (d : Document) :
  (forall e, g (f e) = g e) ->
  g (the (update n f d) m) = g (the d m).
Proof.
  intros Hg. destruct (decide (n = m)) as [->|Hne].
  - unfold the. rewrite deref_update_eq.
    destruct (deref d m); simpl; [apply Hg|reflexivity].
  - rewrite the_update_ne by exact Hne. reflexivity.
Qed.

(** ** Class tokens *)

Lemma token_remove_In (t x : jsstring) (l : list jsstring) :
  In x (token_remove t l) <-> In x l /\ x <> t.
Proof.
  unfold token_remove. rewrite filter_In, negb_true_iff, bool_decide_eq_false.
  reflexivity.
Qed.


Lemma token_add_In (t x : jsstring) (l : list jsstring) :
  In x (token_add t l) <-> In x l \/ x = t.
Proof.
  unfold token_add. case_bool_decide as Ht.
  - apply list_elem_of_In in Ht. split; [tauto|].
    intros [H| ->]; assumption.
  - rewrite in_app_iff. simpl. intuition congruence.
Qed.


(** ** ModalUtils *)





(** ** LoadingUtils *)

Lemma orphan_keeps {A} (g : Element -> A) (n : node) (e : Element) :
  (forall v e, g (set_parentNode v e) = g e) -> g (orphan n e) = g e.
Proof.
  intros Hg. unfold orphan. case_bool_decide; [apply Hg|reflexivity].
Qed.

(** What is in the store for an element after an assignment to its
    [innerHTML]. *)
Lemma assign_innerHTML_element `{!HTMLParser} (element : node)
    (markup : jsstring) (d : Document) (e : Element) :
  deref d element = Some e ->
  exists e',
    deref (world_after (assign_innerHTML element markup) d) element
    = Some e'
    /\ el_innerHTML e' = serialize_fragment (el_localName e) markup
    /\ el_textContent e' = text_of_fragment (el_localName e) markup
    /\ el_localName e' = el_localName e
    /\ el_disabled e' = el_disabled e
    /\ el_id e' = el_id e.
Proof.
  intros He. unfold assign_innerHTML, modify, world_after. cbn [snd].
  rewrite deref_update_eq, deref_with_tree.
  destruct element as [|q]; cbn [deref with_heap doc_heap doc_body] in *.
  - injection He as <-. eexists. split; [reflexivity|]. repeat split.
  - rewrite lookup_union_r.
    + rewrite lookup_fmap, He. cbn [fmap option_fmap option_map].
      eexists. split; [reflexivity|].
      unfold with_markup.
      cbn [el_innerHTML el_textContent el_localName el_disabled el_id
           set_textContent set_innerHTML].
      rewrite !(orphan_keeps el_localName) by reflexivity.
      rewrite (orphan_keeps el_disabled) by reflexivity.
      rewrite (orphan_keeps el_id) by reflexivity.
      repeat split.
    + apply not_elem_of_list_to_map_1. rewrite fst_zip.
      * intros Hq. apply fresh_list_is_fresh in Hq.
        apply Hq, elem_of_dom. eauto.
      * rewrite length_fmap, length_fresh_list. reflexivity.
Qed.

Lemma setButtonLoading_found `{!HTMLParser} (buttonId : jsstring)
    (loadingText : option jsstring) (d : Document) (button : node) :
  document_getElementById buttonId d = Some button ->
  LoadingUtils.setButtonLoading buttonId loadingText d
  = (Normal (Some
       {| restore :=
            assign_innerHTML button (el_innerHTML (the d button)) ;;;
            write button (set_disabled (el_disabled (the d button))) |}),
     update button (set_disabled true)
       (world_after
          (assign_innerHTML button
             (spinner (default (js "Loading...") loadingText)))
          d)).
Proof.
  intros Hid.
  unfold LoadingUtils.setButtonLoading, getElementById, bind, gets.
  rewrite Hid. reflexivity.
Qed.

(** [restore], on any document that holds the button: the captured markup
    is assigned, and [disabled] gets its captured value. *)
Lemma restore_run `{!HTMLParser} (button : node) (markup : jsstring)
    (wasDisabled : bool) (w : Document) (e : Element) :
  deref w button = Some e ->
  let restored :=
    world_after
      (assign_innerHTML button markup ;;;
       write button (set_disabled wasDisabled))
      w in
  (assign_innerHTML button markup ;;; write button (set_disabled wasDisabled))
    w
  = (Normal tt, restored)
  /\ el_innerHTML (the restored button)
     = serialize_fragment (el_localName e) markup
  /\ el_disabled (the restored button) = wasDisabled.
Proof.
  intros He restored. subst restored.
  destruct (assign_innerHTML_element button markup w e He)
    as (e' & He' & Hi & _ & _ & _ & _).
  unfold world_after in *. unfold bind, write, assign_innerHTML, modify in *.
  cbn [snd] in *. split; [reflexivity|].
  rewrite (the_update_eq _ _ _ _ He'). split; [exact Hi|reflexivity].
Qed.

(** C10, as stated, fails for a button whose text holds a carriage return:
    the parser turns it into a line feed when [restore] assigns the
    captured markup, so [innerHTML] after [setButtonLoading] and [restore]
    is not what it was before. *)
Lemma C10_carriage_return_lost :
  el_innerHTML (the carriage_return_document (Ref 2))
  = js "Simpan" ++ [13%N] ++ js "data"
  /\ el_innerHTML
       (the
          (world_after
             (loading_round_trip (parser := sample_parser) (js "saveBtn") None)
             carriage_return_document)
          (Ref 2))
     = js "Simpan" ++ [10%N] ++ js "data".
Proof. split; vm_compute; reflexivity. Qed.

(** C10, amended.  For a button id that names an element,
    [setButtonLoading] captures [innerHTML] and [disabled], assigns the
    spinner markup to [innerHTML], sets [disabled], and returns a handle
    whose [restore] assigns the captured markup to [innerHTML] and the
    captured state to [disabled].  After [setButtonLoading] followed
    immediately by [restore], [disabled] has its earlier value, and
    [innerHTML] reads what the parser reads back from the captured markup:
    its earlier value when the captured markup reads back unchanged.  On
    any later document that still holds the button, [restore] ends
    normally and does the same two assignments. *)
Theorem C10_setButtonLoading_restore `{!HTMLParser} (d : Document)
    (buttonId : jsstring) (loadingText : option jsstring) (button : node) :
  document_getElementById buttonId d = Some button ->
  let name := el_localName (the d button) in
  let original := el_innerHTML (the d button) in
  exists handle,
    let loading :=
      world_after (LoadingUtils.setButtonLoading buttonId loadingText) d in
    let restored := world_after (restore handle) loading in
    LoadingUtils.setButtonLoading buttonId loadingText d
    = (Normal (Some handle), loading)
    /\ el_innerHTML (the loading button)
       = serialize_fragment name
           (spinner (default (js "Loading...") loadingText))
    /\ el_disabled (the loading button) = true
    /\ restore handle loading = (Normal tt, restored)
    /\ el_innerHTML (the restored button) = serialize_fragment name original
    /\ el_disabled (the restored button) = el_disabled (the d button)
    /\ (serialize_fragment name original = original ->
        el_innerHTML (the restored button) = original)
    /\ (forall later e,
          deref later button = Some e ->
          let after := world_after (restore handle) later in
          restore handle later = (Normal tt, after)
          /\ el_innerHTML (the after button)
             = serialize_fragment (el_localName e) original
          /\ el_disabled (the after button) = el_disabled (the d button)).
Proof.
  intros Hid name original. subst name original.
  destruct (getElementById_Some _ _ _ Hid) as (_ & e & He & _).
  rewrite (the_deref _ _ _ He).
  eexists. unfold world_after at 1 2.
  rewrite (setButtonLoading_found _ _ _ _ Hid). cbn [snd restore].
  rewrite (the_deref _ _ _ He).
  destruct (assign_innerHTML_element button
              (spinner (default (js "Loading...") loadingText)) d e He)
    as (e1 & He1 & Hi1 & _ & Hn1 & _ & _).
  set (loading := update button (set_disabled true) _).
  assert (Hl : deref loading button = Some (set_disabled true e1)).
  { subst loading. rewrite deref_update_eq, He1. reflexivity. }
  split; [reflexivity|].
  split; [rewrite (the_deref _ _ _ Hl); exact Hi1|].
  split; [rewrite (the_deref _ _ _ Hl); reflexivity|].
  destruct (restore_run button (el_innerHTML e) (el_disabled e) loading _ Hl)
    as (Hr & Hri & Hrd).
  cbn [el_localName set_disabled] in Hri. rewrite Hn1 in Hri.
  split; [exact Hr|]. split; [exact Hri|]. split; [exact Hrd|].
  split; [intros E; exact (eq_trans Hri E)|].
  intros later e' He'.
  exact (restore_run button (el_innerHTML e) (el_disabled e) later e' He').
Qed.

(** ** FormUtils.validateRequired *)

(** The loop of [validateRequired] never changes the document.  It ends
    normally when every id has a string for its input value, and throws
    at the first id that has another value. *)
Lemma validateRequired_loop (ids acc : list jsstring) (d : Document) :
  for_of ids
    (fun id missingFields =>
       let* v := getInputValue id in
       let* value := call (String_trim v) in
       if negb (truthy value)
       then ret (push missingFields id)
       else ret missingFields)
    acc d
  = (if forallb (string_valued d) ids
     then Normal (acc ++ List.filter (trims_to_empty d) ids)
     else Throw TypeError,
     d).
Proof.
  revert acc. induction ids as [|id ids IH]; intros acc.
  - simpl. rewrite app_nil_r. reflexivity.
  - cbn [for_of forallb List.filter]. unfold bind at 1. unfold bind at 1.
    rewrite getInputValue_input_value.
    unfold string_valued at 1, trims_to_empty at 1.
    destruct (input_value id d) as [s|x|b]; [|reflexivity..].
    unfold bind at 1. cbn [String_trim call andb].
    destruct (trim s) as [|c t] eqn:E; cbn [truthy negb].
    + unfold ret at 1. rewrite IH.
      rewrite bool_decide_eq_true_2 by reflexivity.
      unfold push. rewrite <- app_assoc. reflexivity.
    + unfold ret at 1. rewrite IH.
      rewrite bool_decide_eq_false_2 by discriminate. reflexivity.
Qed.

Lemma validateRequired_run (ids : list jsstring) (d : Document) :
  FormUtils.validateRequired ids d
  = (if forallb (string_valued d) ids
     then
       Normal
         {| required_isValid :=
              (length (List.filter (trims_to_empty d) ids) =? 0)%nat;
            missingFields := List.filter (trims_to_empty d) ids |}
     else Throw TypeError,
     d).
Proof.
  unfold FormUtils.validateRequired. unfold bind at 1.
  rewrite validateRequired_loop.
  destruct (forallb (string_valued d) ids); reflexivity.
Qed.

(** C7, as stated, fails for an id that names a list item numbered 3:
    its [value] is the number 3, which has no [trim], and
    [validateRequired] throws instead of returning a result. *)
Lemma C7_number_value_throws :
  value_at (js "langkah") recipe_document = Some (VNumber (number_of_Z 3))
  /\ FormUtils.validateRequired [js "modalEmail"; js "langkah"]
       recipe_document
     = (Throw TypeError, recipe_document).
Proof. split; reflexivity. Qed.

(** C7, amended.  [FormUtils.validateRequired] reads the document without
    changing it.  When the input value of every given id is a string (the
    input value of an id without an element being the empty string), it
    returns a result whose [missingFields] is the list of ids filtered, in
    order, to those whose input value trims to the empty string, and whose
    [isValid] holds exactly when [missingFields] is empty.  When the input
    value of some id is not a string, it throws. *)
Theorem C7_validateRequired (ids : list jsstring) (d : Document) :
  world_after (FormUtils.validateRequired ids) d = d
  /\ (forallb (string_valued d) ids = true ->
      exists r,
        FormUtils.validateRequired ids d = (Normal r, d)
        /\ missingFields r = List.filter (trims_to_empty d) ids
        /\ (required_isValid r = true <-> missingFields r = []))
  /\ (forallb (string_valued d) ids = false ->
      FormUtils.validateRequired ids d = (Throw TypeError, d)).
Proof.
  unfold world_after. rewrite validateRequired_run.
  split; [reflexivity|]. split.
  - intros ->. eexists. split; [reflexivity|]. split; [reflexivity|].
    cbn [required_isValid missingFields].
    destruct (List.filter (trims_to_empty d) ids); simpl; split;
      congruence.
  - intros ->. reflexivity.
Qed.

(** ** ProfileFormUtils.setFormData *)

Lemma steps_ret {A} (R : Document -> Document -> Prop) (a : A) :
  (forall d, R d d) -> steps R (ret a).
Proof. intros Hr d. exists a, d. split; [reflexivity|apply Hr]. Qed.

Lemma steps_bind {A B} (R : Document -> Document -> Prop)
    (m : JS Document A) (k : A -> JS Document B) :
  (forall d1 d2 d3, R d1 d2 -> R d2 d3 -> R d1 d3) ->
  steps R m -> (forall a, steps R (k a)) -> steps R (bind m k).
Proof.
  intros Ht Hm Hk d.
  destruct (Hm d) as (a & d1 & E1 & R1).
  destruct (Hk a d1) as (b & d2 & E2 & R2).
  exists b, d2. unfold bind. rewrite E1, E2.
  split; [reflexivity|exact (Ht _ _ _ R1 R2)].
Qed.

Lemma steps_leaves {A} (R : Document -> Document -> Prop)
    (m : JS Document A) :
  steps R m -> leaves R m.
Proof.
  intros H d. destruct (H d) as (a & d' & E & Hr).
  unfold world_after. rewrite E. exact Hr.
Qed.

Lemma leaves_ret {A} (R : Document -> Document -> Prop) (a : A) :
  (forall d, R d d) -> leaves R (ret a).
Proof. intros Hr d. apply Hr. Qed.

(** Sequencing: when the first part throws, the second does not run. *)
Lemma leaves_seq {A B} (R1 R2 R3 : Document -> Document -> Prop)
    (m : JS Document A) (k : A -> JS Document B) :
  (forall d1 d2 d3, R1 d1 d2 -> R2 d2 d3 -> R3 d1 d3) ->
  (forall d1 d2, R1 d1 d2 -> R3 d1 d2) ->
  leaves R1 m -> (forall a, leaves R2 (k a)) -> leaves R3 (bind m k).
Proof.
  intros Ht Hw Hm Hk d. unfold world_after, bind.
  specialize (Hm d). unfold world_after in Hm.
  destruct (m d) as [[a|e] d1]; cbn [snd] in *.
  - exact (Ht _ _ _ Hm (Hk a d1)).
  - apply Hw. exact Hm.
Qed.

Lemma leaves_bind {A B} (R : Document -> Document -> Prop)
    (m : JS Document A) (k : A -> JS Document B) :
  (forall d1 d2 d3, R d1 d2 -> R d2 d3 -> R d1 d3) ->
  leaves R m -> (forall a, leaves R (k a)) -> leaves R (bind m k).
Proof. intros Ht. apply leaves_seq; [exact Ht|auto]. Qed.

Lemma leaves_if_truthy {A} (R : Document -> Document -> Prop)
    (x : option jsstring) (f : jsstring -> JS Document A) :
  (forall d, R d d) ->
  (forall v, x = Some v -> v <> [] -> leaves R (f v)) ->
  leaves R (if_truthy x f).
Proof.
  intros Hr Hf. unfold if_truthy.
  destruct x as [[|c s]|]; simpl; try (apply leaves_ret; exact Hr).
  intros d. specialize (Hf (c :: s) eq_refl ltac:(discriminate) d).
  unfold world_after, bind in *.
  destruct (f (c :: s) d) as [[a|e] d1]; exact Hf.
Qed.

Lemma leaves_if_truthy_falsy {A} (R : Document -> Document -> Prop)
    (x : option jsstring) (f : jsstring -> JS Document A) :
  (forall d, R d d) -> falsy x -> leaves R (if_truthy x f).
Proof.
  intros Hr [-> | ->]; apply leaves_ret; exact Hr.
Qed.

Lemma leaves_if_defined {A B} (R : Document -> Document -> Prop)
    (x : option A) (f : A -> JS Document B) :
  (forall d, R d d) ->
  (forall v, leaves R (f v)) ->
  leaves R (if_defined x f).
Proof.
  intros Hr Hf. unfold if_defined.
  destruct x as [a|]; [|apply leaves_ret; exact Hr].
  intros d. specialize (Hf a d). unfold world_after, bind in *.
  destruct (f a d) as [[b|e] d1]; exact Hf.
Qed.

Lemma same_ids_refl (d : Document) : same_ids d d.
Proof. intros i. reflexivity. Qed.

Lemma same_ids_trans (d1 d2 d3 : Document) :
  same_ids d1 d2 -> same_ids d2 d3 -> same_ids d1 d3.
Proof. intros H1 H2 i. rewrite H2. apply H1. Qed.

Lemma keeps_refl (id : jsstring) (d : Document) : keeps id d d.
Proof. split; [apply same_ids_refl|reflexivity]. Qed.

Lemma keeps_trans (id : jsstring) (d1 d2 d3 : Document) :
  keeps id d1 d2 -> keeps id d2 d3 -> keeps id d1 d3.
Proof.
  intros [S1 E1] [S2 E2]. split; [exact (same_ids_trans _ _ _ S1 S2)|].
  congruence.
Qed.

Lemma leaves_world_after {A} (R : Document -> Document -> Prop)
    (m : JS Document A) (d : Document) :
  leaves R m -> R d (world_after m d).
Proof. intros H. apply H. Qed.

Lemma keeps_value_at (id : jsstring) (d d' : Document) :
  keeps id d d' -> value_at id d' = value_at id d.
Proof. intros [_ E]. unfold value_at. rewrite E. reflexivity. Qed.

Lemma keeps_checked_at (id : jsstring) (d d' : Document) :
  keeps id d d' -> checked_at id d' = checked_at id d.
Proof. intros [_ E]. unfold checked_at. rewrite E. reflexivity. Qed.

Lemma keeps_src_at (id : jsstring) (d d' : Document) :
  keeps id d d' -> src_at id d' = src_at id d.
Proof. intros [_ E]. unfold src_at. rewrite E. reflexivity. Qed.

Lemma assigned_refl (id : jsstring) (x : option jsstring) (d : Document) :
  assigned id x d d.
Proof. split; [apply same_ids_refl|left; reflexivity]. Qed.

Lemma keeps_assigned (id : jsstring) (x : option jsstring)
    (d d' : Document) :
  keeps id d d' -> assigned id x d d'.
Proof.
  intros K. split; [exact (proj1 K)|]. left. exact (keeps_value_at _ _ _ K).
Qed.

Lemma keeps_then_assigned (id : jsstring) (x : option jsstring)
    (d1 d2 d3 : Document) :
  keeps id d1 d2 -> assigned id x d2 d3 -> assigned id x d1 d3.
Proof.
  intros K [S2 V]. split; [exact (same_ids_trans _ _ _ (proj1 K) S2)|].
  destruct V as [V|(v & e & st & Ex & Hv & He & Ha & Hr)].
  - left. rewrite V. exact (keeps_value_at _ _ _ K).
  - right. exists v, e, st. repeat split; try assumption.
    rewrite <- (proj2 K). exact He.
Qed.

Lemma assigned_then_keeps (id : jsstring) (x : option jsstring)
    (d1 d2 d3 : Document) :
  assigned id x d1 d2 -> keeps id d2 d3 -> assigned id x d1 d3.
Proof.
  intros [S1 V] K. split; [exact (same_ids_trans _ _ _ S1 (proj1 K))|].
  unfold written. rewrite (keeps_value_at _ _ _ K). exact V.
Qed.

(** An assignment to the element of another id. *)
Lemma update_keeps (i j : jsstring) (n : node) f (d : Document) :
  document_getElementById j d = Some n ->
  j <> i ->
  (forall e, el_id (f e) = el_id e) ->
  keeps i d (update n f d).
Proof.
  intros Hj Hne Hid. split.
  - intros k. apply getElementById_update. exact Hid.
  - unfold element_at. rewrite getElementById_update by exact Hid.
    destruct (document_getElementById i d) as [m|] eqn:Hi; [|reflexivity].
    apply deref_update_ne.
    exact (getElementById_inj _ _ _ _ _ Hj Hi Hne).
Qed.

(** A setter of the form "look the id up, assign one slot, return". *)
Lemma setter_steps (R : Document -> Document -> Prop)
    (m : JS Document bool) (j : jsstring) (f : Element -> Element) :
  (forall d, m d = match document_getElementById j d with
                   | Some n => (Normal true, update n f d)
                   | None => (Normal false, d)
                   end) ->
  (forall d, R d d) ->
  (forall d n, document_getElementById j d = Some n -> R d (update n f d)) ->
  steps R m.
Proof.
  intros Hm Hr Hu d. rewrite Hm.
  destruct (document_getElementById j d) as [n|] eqn:E.
  - exists true, (update n f d). split; [reflexivity|apply Hu; exact E].
  - exists false, d. split; [reflexivity|apply Hr].
Qed.

Lemma setCheckboxValue_unfold (j : jsstring) (b : bool) (d : Document) :
  setCheckboxValue j b d
  = match document_getElementById j d with
    | Some n => (Normal true, update n (set_checked b) d)
    | None => (Normal false, d)
    end.
Proof.
  unfold setCheckboxValue, getElementById, bind, gets.
  destruct (document_getElementById j d); reflexivity.
Qed.

Lemma setImageSrc_unfold (j v : jsstring) (d : Document) :
  setImageSrc j v d
  = match document_getElementById j d with
    | Some n => (Normal true, update n (set_src v) d)
    | None => (Normal false, d)
    end.
Proof.
  unfold setImageSrc, getElementById, bind, gets.
  destruct (document_getElementById j d); reflexivity.
Qed.

(** [setInputValue] on the element of another id, whether it ends
    normally or throws. *)
Lemma setInputValue_keeps (i j v : jsstring) :
  j <> i -> leaves (keeps i) (setInputValue j v).
Proof.
  intros Hne d. unfold world_after. rewrite setInputValue_unfold.
  destruct (document_getElementById j d) as [n|] eqn:E;
    [|apply keeps_refl].
  destruct (value_assign v (el_value (the d n))) as [st|e];
    [|apply keeps_refl].
  apply (update_keeps i j); auto.
Qed.

Lemma setTextareaValue_keeps (i j v : jsstring) :
  j <> i -> leaves (keeps i) (setTextareaValue j v).
Proof. exact (setInputValue_keeps i j v). Qed.

Lemma setCheckboxValue_keeps (i j : jsstring) (b : bool) :
  j <> i -> leaves (keeps i) (setCheckboxValue j b).
Proof.
  intros Hne. apply steps_leaves, (setter_steps _ _ j (set_checked b)).
  - apply setCheckboxValue_unfold.
  - apply keeps_refl.
  - intros d n Hn. apply (update_keeps i j); auto.
Qed.

Lemma setImageSrc_keeps (i j v : jsstring) :
  j <> i -> leaves (keeps i) (setImageSrc j v).
Proof.
  intros Hne. apply steps_leaves, (setter_steps _ _ j (set_src v)).
  - apply setImageSrc_unfold.
  - apply keeps_refl.
  - intros d n Hn. apply (update_keeps i j); auto.
Qed.

(** [setInputValue] on the element of the id itself. *)
Lemma setInputValue_assigned (i v : jsstring) :
  v <> [] -> leaves (assigned i (Some v)) (setInputValue i v).
Proof.
  intros Hv d. unfold world_after. rewrite setInputValue_unfold.
  destruct (document_getElementById i d) as [n|] eqn:E;
    [|apply assigned_refl].
  destruct (value_assign v (el_value (the d n))) as [st|e] eqn:Ea;
    [|apply assigned_refl].
  cbn [snd]. split.
  - intros k. apply getElementById_update. reflexivity.
  - right. exists v, (the d n), st.
    split; [reflexivity|]. split; [exact Hv|].
    split; [exact (element_at_found _ _ _ E)|].
    split; [exact Ea|]. exact (value_at_update _ _ _ _ E).
Qed.

Lemma setTextareaValue_assigned (i v : jsstring) :
  v <> [] -> leaves (assigned i (Some v)) (setTextareaValue i v).
Proof. exact (setInputValue_assigned i v). Qed.

Ltac ids_differ :=
  let E := fresh "E" in intros E; vm_compute in E; discriminate E.

(** A step of [setFormData] that writes the field of another id. *)
Ltac other_field :=
  first
    [ apply leaves_if_truthy;
      [ apply keeps_refl
      | intros ? _ _;
        first [ apply setInputValue_keeps
              | apply setTextareaValue_keeps
              | apply setImageSrc_keeps ];
        ids_differ ]
    | apply leaves_if_defined;
      [ apply keeps_refl
      | intros ?; apply setCheckboxValue_keeps; ids_differ ] ].

(** [setFormData] keeps the element of a field whose value it passes
    over: the step of that field does nothing, the others write to the
    elements of other ids. *)
Ltac frame_field H :=
  unfold ProfileFormUtils.setFormData;
  repeat (apply leaves_bind; [apply keeps_trans | | intros _]);
  first
    [ apply leaves_if_truthy_falsy; [apply keeps_refl | exact H]
    | rewrite H; apply leaves_ret; apply keeps_refl
    | other_field ].

(** The step of a text field assigns the value passed for it, when that
    is not empty. *)
Ltac own_field :=
  apply leaves_if_truthy;
  [ apply assigned_refl
  | intros ? -> ?;
    first [apply setInputValue_assigned | apply setTextareaValue_assigned];
    assumption ].

Lemma leaves_keeps_assigned {A} (i : jsstring) (x : option jsstring)
    (m : JS Document A) :
  leaves (keeps i) m -> leaves (assigned i x) m.
Proof. intros H d. apply keeps_assigned, H. Qed.

(** The steps before the one of the field, the step itself, the steps
    after it. *)
Ltac assign_field :=
  unfold ProfileFormUtils.setFormData;
  repeat
    first
      [ apply (leaves_seq _ _ _ _ _ (keeps_then_assigned _ _)
                 (keeps_assigned _ _));
        [ other_field | intros _ ]
      | apply (leaves_seq _ _ _ _ _ (assigned_then_keeps _ _)
                 (fun _ _ H => H));
        [ own_field | intros _ ] ];
  first
    [ own_field
    | repeat (apply leaves_bind; [apply keeps_trans | | intros _]);
      other_field ].

(** C8, as stated, fails in its last part: a text field can be cleared.
    A line break is a non-empty string, so [setFormData] assigns it, and a
    text input strips it: the name, 'Ani' before, is empty afterwards. *)
Lemma C8_text_field_cleared :
  p_fullName line_break_name = Some newline
  /\ newline <> []
  /\ value_at (js "modalFullName") profile_page = Some (VString (js "Ani"))
  /\ value_at (js "modalFullName")
       (world_after (ProfileFormUtils.setFormData line_break_name)
          profile_page)
     = Some (VString []).
Proof.
  split; [reflexivity|]. split; [discriminate|].
  split; vm_compute; reflexivity.
Qed.

(** C8, amended.  [ProfileFormUtils.setFormData] writes a field only when
    the value passed for it is truthy (for [twoFactorAuth]: defined).  For
    every text field whose value is absent or the empty string the [value]
    of the field's input is left as it was; likewise [checked] of the
    checkbox when [twoFactorAuth] is absent and [src] of the image when
    [profileImage] is absent or empty.  The [value] of a text field
    afterwards is the earlier one, or the one that the assignment of the
    non-empty string passed for the field gives; so [setFormData] never
    assigns the empty string to a text field, though the input may make
    the empty string of what is assigned. *)
Theorem C8_setFormData_frame (data : PartialProfileFormData)
    (d : Document) :
  let d' := world_after (ProfileFormUtils.setFormData data) d in
  (falsy (p_fullName data) ->
   value_at (js "modalFullName") d' = value_at (js "modalFullName") d)
  /\ (falsy (p_position data) ->
      value_at (js "modalPosition") d' = value_at (js "modalPosition") d)
  /\ (falsy (p_email data) ->
      value_at (js "modalEmail") d' = value_at (js "modalEmail") d)
  /\ (falsy (p_phone data) ->
      value_at (js "modalPhone") d' = value_at (js "modalPhone") d)
  /\ (falsy (p_location data) ->
      value_at (js "modalLocation") d' = value_at (js "modalLocation") d)
  /\ (falsy (p_address data) ->
      value_at (js "modalAddress") d' = value_at (js "modalAddress") d)
  /\ (p_twoFactorAuth data = None ->
      checked_at (js "modalTwoFactorAuth") d'
      = checked_at (js "modalTwoFactorAuth") d)
  /\ (falsy (p_profileImage data) ->
      src_at (js "modalProfileImage") d' = src_at (js "modalProfileImage") d)
  /\ written (js "modalFullName") (p_fullName data) d d'
  /\ written (js "modalPosition") (p_position data) d d'
  /\ written (js "modalEmail") (p_email data) d d'
  /\ written (js "modalPhone") (p_phone data) d d'
  /\ written (js "modalLocation") (p_location data) d d'
  /\ written (js "modalAddress") (p_address data) d d'.
Proof.
  intros d'. subst d'.
  repeat match goal with
         | |- (_ -> value_at ?i _ = _) /\ _ =>
             split;
             [ intros H; apply keeps_value_at;
               apply (leaves_world_after (keeps i)); frame_field H
             | ]
         end.
  split.
  { intros H. apply keeps_checked_at.
    apply (leaves_world_after (keeps (js "modalTwoFactorAuth"))).
    frame_field H. }
  split.
  { intros H. apply keeps_src_at.
    apply (leaves_world_after (keeps (js "modalProfileImage"))).
    frame_field H. }
  repeat match goal with
         | |- written ?i ?x _ _ /\ _ => split
         end;
    match goal with
    | |- written ?i ?x ?d ?d' =>
        apply (proj2 (A := same_ids d d'));
        apply (leaves_world_after (assigned i x)); assign_field
    end.
Qed.

(** ** showNotification *)

Lemma createElement_fresh (d : Document) :
  deref d (Ref (fresh (dom (doc_heap d)))) = None.
Proof. simpl. apply not_elem_of_dom, is_fresh. Qed.

Lemma attached_is_Some (w : Document) (n p : node) :
  el_parentNode (the w n) = Some p -> is_Some (deref w n).
Proof.
  unfold the. destruct (deref w n) as [e|]; [eauto|discriminate].
Qed.

Lemma has_ancestor_self (fuel : nat) (d : Document) (n : node) :
  has_ancestor fuel d n n = true.
Proof. destruct fuel; simpl; rewrite bool_decide_eq_true_2; auto. Qed.

Lemma insert_after_last_None {A} (p : A -> bool) (new l : list A) :
  insert_after_last p new l = None -> Forall (fun m => p m = false) l.
Proof.
  induction l as [|a l IH]; simpl; intros E; [constructor|].
  destruct (insert_after_last p new l); [discriminate|].
  destruct (p a) eqn:Ea; [discriminate|]. constructor; auto.
Qed.

Lemma insert_after_last_Some {A} (p : A -> bool) (new l r : list A) :
  insert_after_last p new l = Some r ->
  exists before after,
    l = before ++ after
    /\ r = before ++ new ++ after
    /\ Forall (fun m => p m = false) after.
Proof.
  revert r. induction l as [|a l IH]; simpl; intros r E; [discriminate|].
  destruct (insert_after_last p new l) as [r'|] eqn:El.
  - injection E as <-.
    destruct (IH r' eq_refl) as (before & after & -> & -> & Hf).
    exists (a :: before), after. auto.
  - destruct (p a); [|discriminate]. injection E as <-.
    exists [a], l. repeat split. exact (insert_after_last_None _ _ _ El).
Qed.

(** The nodes after an append to the body: the earlier ones in their
    order, with the new ones put in after the last node that the body
    holds. *)
Lemma appended_to_body_split (d : Document) (child : node)
    (below : list node) :
  exists before after,
    List.filter (fun m => negb (bool_decide (m = child))) (doc_tree d)
    = before ++ after
    /\ appended_to_body d child below = before ++ child :: below ++ after
    /\ Forall
         (fun m => has_ancestor (length (doc_tree d)) d Body m = false)
         after.
Proof.
  unfold appended_to_body.
  destruct (insert_after_last _ (child :: below) _) as [r|] eqn:E.
  - apply insert_after_last_Some in E as (before & after & E1 & -> & Hf).
    exists before, after. auto.
  - eexists _, []. rewrite !app_nil_r. repeat split. constructor.
Qed.

Lemma child_of_body (fuel : nat) (d : Document) (m : node) :
  el_parentNode (the d m) = Some Body ->
  has_ancestor (S fuel) d Body m = true.
Proof.
  intros Hp. simpl. rewrite Hp, has_ancestor_self. apply orb_true_r.
Qed.

(** The store after the parsed elements have entered it: the objects that
    were there are as they were, and each new reference holds its
    element. *)
Section Parsed.
Context (context : node) (parsed : list ParsedElement)
  (h : gmap positive Element).

Let refs := fresh_list (length parsed) (dom h).
Let h' := list_to_map (zip refs (place context refs <$> parsed)) ∪ h.

Lemma parsed_refs_fresh (q : positive) : q ∈ refs -> h !! q = None.
Proof.
  intros Hq. apply not_elem_of_dom.
  exact (fresh_list_is_fresh _ _ _ Hq).
Qed.

Lemma parsed_keeps (q : positive) : is_Some (h !! q) -> h' !! q = h !! q.
Proof.
  intros [e He]. subst h'. apply lookup_union_r.
  apply not_elem_of_list_to_map_1. rewrite fst_zip.
  - intros Hq. apply parsed_refs_fresh in Hq. congruence.
  - subst refs. rewrite length_fmap, length_fresh_list. reflexivity.
Qed.

Lemma parsed_placed (i : nat) (q : positive) (pe : ParsedElement) :
  refs !! i = Some q -> parsed !! i = Some pe ->
  h' !! q = Some (place context refs pe).
Proof.
  intros Hq Hpe. subst h'. apply lookup_union_Some_l.
  apply elem_of_list_to_map_1.
  - rewrite fst_zip.
    + apply NoDup_fresh_list.
    + subst refs. rewrite length_fmap, length_fresh_list. reflexivity.
  - apply list_elem_of_lookup. exists i.
    apply lookup_zip_with_Some. exists q, (place context refs pe).
    split; [reflexivity|]. split; [exact Hq|].
    rewrite list_lookup_fmap, Hpe. reflexivity.
Qed.

End Parsed.

Lemma set_below_same (n : node) (l : list node) (below : node -> list node) :
  set_below n l below n = l.
Proof. unfold set_below. rewrite bool_decide_eq_true_2; reflexivity. Qed.

(** The tab that [showNotification] leaves. *)
Section Run.
Context `{!HTMLParser} (message : jsstring) (type : option NotificationType)
  (duration : option number) (t : Tab).

Let d := tab_document t.
Let p := fresh (dom (doc_heap d)).
Let markup := notification_innerHTML (default success type) message.
Let h1 :=
  alter (set_className (notification_className (default success type))) p
    (<[p := new_element (js "div")]> (doc_heap d)).
Let parsed := parse_fragment (js "div") markup.
Let refs := fresh_list (length parsed) (dom h1).
Let h2 :=
  alter (with_markup markup) p
    (list_to_map (zip refs (place (Ref p) refs <$> parsed)) ∪ h1).

Lemma notification_h1_p :
  h1 !! p
  = Some (set_className (notification_className (default success type))
            (new_element (js "div"))).
Proof. subst h1. rewrite lookup_alter_eq, lookup_insert_eq. reflexivity. Qed.

(** The element that the markup is assigned to is a [div]. *)
Lemma notification_context (d' : Document) :
  doc_heap d' = h1 -> el_localName (the d' (Ref p)) = js "div".
Proof.
  intros E. unfold the. cbn [deref]. rewrite E, notification_h1_p.
  reflexivity.
Qed.

Lemma showNotification_no_body :
  tab_body t = false ->
  showNotification message type duration t
  = (Throw TypeError,
     {| tab_document := with_heap h2 d;
        tab_body := false;
        tab_below := set_below (Ref p) (Ref <$> refs) (tab_below t) |}).
Proof.
  intros Hb.
  unfold showNotification, bind, in_document, createElement,
    write, innerHTML_assign, body_appendChild, modify.
  cbn [tab_document tab_body tab_below with_tab_document fst snd].
  erewrite !notification_context by reflexivity. rewrite Hb. reflexivity.
Qed.

Lemma showNotification_body :
  tab_body t = true ->
  showNotification message type duration t
  = (Normal tt,
     {| tab_document :=
          with_timers
            (doc_timers d
               ++ [{| timer_delay := default (number_of_Z 3000) duration;
                      timer_callback := NotificationFade (Ref p) |}])
            (with_tree
               (appended_to_body (with_heap h2 d) (Ref p) (Ref <$> refs))
               (with_heap (alter (set_parentNode (Some Body)) p h2) d));
        tab_body := true;
        tab_below :=
          set_below (Ref p) []
            (set_below (Ref p) (Ref <$> refs) (tab_below t)) |}).
Proof.
  intros Hb.
  unfold showNotification, bind, in_document, createElement,
    write, innerHTML_assign, body_appendChild, setTimeout, modify.
  cbn [tab_document tab_body tab_below with_tab_document fst snd].
  erewrite !notification_context by reflexivity. rewrite Hb.
  cbn [tab_document tab_body tab_below with_tab_document fst snd].
  rewrite set_below_same. reflexivity.
Qed.

Lemma notification_h1 (q : positive) :
  q <> p -> h1 !! q = doc_heap d !! q.
Proof.
  intros Hq. subst h1. rewrite lookup_alter_ne by congruence.
  apply lookup_insert_ne. congruence.
Qed.

Lemma notification_fresh : doc_heap d !! p = None.
Proof. apply not_elem_of_dom, is_fresh. Qed.

Lemma notification_refs_new (q : positive) :
  q ∈ refs -> q <> p /\ doc_heap d !! q = None.
Proof.
  intros Hq.
  assert (Hn : h1 !! q = None) by exact (parsed_refs_fresh _ _ _ Hq).
  assert (Hqp : q <> p).
  { intros ->. rewrite notification_h1_p in Hn. discriminate. }
  split; [exact Hqp|]. rewrite <- (notification_h1 _ Hqp). exact Hn.
Qed.

(** The objects that were in the store are as they were. *)
Lemma notification_h2_old (q : positive) :
  is_Some (doc_heap d !! q) -> h2 !! q = doc_heap d !! q.
Proof.
  intros Hq.
  assert (Hqp : q <> p).
  { intros ->. rewrite notification_fresh in Hq. destruct Hq; discriminate. }
  subst h2. unfold refs. rewrite lookup_alter_ne by congruence.
  rewrite parsed_keeps by (rewrite notification_h1; assumption).
  apply notification_h1. exact Hqp.
Qed.

Lemma notification_h2_p :
  h2 !! p
  = Some (with_markup markup
            (set_className
               (notification_className (default success type))
               (new_element (js "div")))).
Proof.
  subst h2. unfold refs. rewrite lookup_alter_eq.
  rewrite parsed_keeps by (rewrite notification_h1_p; eauto).
  rewrite notification_h1_p. reflexivity.
Qed.

Lemma notification_h2_parsed (i : nat) (q : positive) (pe : ParsedElement) :
  refs !! i = Some q -> parsed !! i = Some pe ->
  h2 !! q = Some (place (Ref p) refs pe).
Proof.
  intros Hq Hpe.
  assert (Hqp : q <> p).
  { apply notification_refs_new. apply list_elem_of_lookup. eauto. }
  subst h2. rewrite lookup_alter_ne by congruence.
  exact (parsed_placed _ _ _ _ _ _ Hq Hpe).
Qed.

(** No child that the body had comes after the notification. *)
Lemma notification_last_child (after : list node) :
  (forall m, In m after -> In m (doc_tree d)) ->
  Forall
    (fun m =>
       has_ancestor (length (doc_tree (with_heap h2 d))) (with_heap h2 d)
         Body m = false)
    after ->
  forall m, In m after -> el_parentNode (the d m) <> Some Body.
Proof.
  intros Hsub Hf m Hm Hp.
  rewrite List.Forall_forall in Hf. specialize (Hf m Hm).
  assert (Hs : is_Some (deref d m)).
  { unfold the in Hp. destruct (deref d m); [eauto|discriminate]. }
  assert (Ht : the (with_heap h2 d) m = the d m).
  { unfold the. f_equal. destruct m as [|q]; [reflexivity|].
    cbn [deref with_heap doc_heap]. apply notification_h2_old. exact Hs. }
  cbn [doc_tree with_heap] in Hf.
  destruct (doc_tree d) as [|a l] eqn:El; [exact (Hsub m Hm)|].
  cbn [length] in Hf. rewrite child_of_body in Hf; [discriminate|].
  rewrite Ht. exact Hp.
Qed.

End Run.

Lemma fade_attached (n p : node) (w : Tab) :
  el_parentNode (the (tab_document w) n) = Some p ->
  run_callback (NotificationFade n) w
  = (Normal tt,
     with_tab_document
       (with_timers
          (doc_timers (tab_document w)
             ++ [{| timer_delay := number_of_Z 300;
                    timer_callback := NotificationRemove n |}])
          (update n (style_assign set_transform (js "translateX(100%)"))
             (update n (style_assign set_opacity (js "0"))
                (tab_document w))))
       w).
Proof.
  intros Hp. unfold run_callback, bind, in_document, read, gets.
  cbn. rewrite Hp. rewrite bool_decide_eq_true_2 by eauto.
  unfold when, bind, in_document, write, modify, setTimeout. cbn.
  rewrite !doc_timers_update. destruct w; reflexivity.
Qed.

Lemma with_tab_document_same (w : Tab) :
  with_tab_document (tab_document w) w = w.
Proof. destruct w; reflexivity. Qed.

Lemma fade_detached (n : node) (w : Tab) :
  el_parentNode (the (tab_document w) n) = None ->
  run_callback (NotificationFade n) w = (Normal tt, w).
Proof.
  intros Hp. unfold run_callback, bind, in_document, read, gets.
  cbn. rewrite Hp.
  rewrite bool_decide_eq_false_2 by (intros [? ?]; discriminate).
  cbn. rewrite with_tab_document_same. reflexivity.
Qed.

Lemma remove_attached (n p : node) (w : Tab) :
  el_parentNode (the (tab_document w) n) = Some p ->
  exists w',
    run_callback (NotificationRemove n) w = (Normal tt, w')
    /\ tab_document w'
       = with_tree
           (List.filter
              (fun m =>
                 negb (has_ancestor (length (doc_tree (tab_document w)))
                         (tab_document w) n m))
              (doc_tree (tab_document w)))
           (update n (set_parentNode None) (tab_document w))
    /\ tab_body w' = tab_body w.
Proof.
  intros Hp. unfold run_callback, bind, in_document, read, gets.
  cbn. rewrite Hp. unfold removeChild. cbn.
  rewrite bool_decide_eq_true_2 by exact Hp.
  eexists. split; [reflexivity|]. split; reflexivity.
Qed.

Lemma remove_detached (n : node) (w : Tab) :
  el_parentNode (the (tab_document w) n) = None ->
  run_callback (NotificationRemove n) w = (Normal tt, w).
Proof.
  intros Hp. unfold run_callback, bind, in_document, read, gets.
  cbn. rewrite Hp. cbn. rewrite with_tab_document_same. reflexivity.
Qed.

(** A timer callback of [showNotification] never throws. *)
Lemma run_callback_normal (cb : Callback) (w : Tab) :
  result_of (run_callback cb) w = Normal tt.
Proof.
  unfold result_of.
  destruct cb as [n|n];
    destruct (el_parentNode (the (tab_document w) n)) as [p|] eqn:E.
  - rewrite (fade_attached _ _ _ E). reflexivity.
  - rewrite (fade_detached _ _ E). reflexivity.
  - destruct (remove_attached _ _ _ E) as (w' & -> & _). reflexivity.
  - rewrite (remove_detached _ _ E). reflexivity.
Qed.

(** C5, as stated, fails for a call made while [document.body] is still
    [null] (a script that runs from the head of the page):
    [showNotification] throws, nothing is appended and no timer is
    queued. *)
Lemma C5_no_body_throws :
  let call :=
    showNotification (parser := sample_parser) (js "Tersimpan") None None in
  tab_body loading_tab = false
  /\ result_of call loading_tab = Throw TypeError
  /\ doc_tree (tab_document (world_after call loading_tab)) = []
  /\ doc_timers (tab_document (world_after call loading_tab)) = [].
Proof. repeat split. Qed.

(** C5, amended.  A call of [showNotification] creates a node that was not
    in the store, a [div] with the classes of the notification type, and
    parses the message markup into it.  When [document.body] exists the
    call ends normally: the node becomes the last child of the body, the
    elements parsed from the markup follow it in the document, no child
    that the body had comes after it, and one timer is queued with the
    given duration (3000 when omitted).  When [document.body] is [null]
    the call throws, and neither the document tree nor the timers
    change.  When the timer fires on a notification
    that is still attached it starts the fade and queues a second timer
    of 300 ms, which takes the node out of the document; on a
    notification that is no longer attached both timers do nothing.  No
    timer callback throws. *)
Theorem C5_showNotification `{!HTMLParser} (message : jsstring)
    (type : option NotificationType) (duration : option number) (t : Tab) :
  let d := tab_document t in
  let notification := Ref (fresh (dom (doc_heap d))) in
  let markup := notification_innerHTML (default success type) message in
  let t' := world_after (showNotification message type duration) t in
  let d' := tab_document t' in
  deref d notification = None
  /\ (exists e,
        deref d' notification = Some e
        /\ el_localName e = js "div"
        /\ el_classList e
           = el_classList
               (set_className
                  (notification_className (default success type))
                  (new_element (js "div")))
        /\ el_innerHTML e = serialize_fragment (js "div") markup)
  /\ (tab_body t = false ->
      showNotification message type duration t = (Throw TypeError, t')
      /\ doc_tree d' = doc_tree d
      /\ doc_timers d' = doc_timers d)
  /\ (tab_body t = true ->
      showNotification message type duration t = (Normal tt, t')
      /\ el_parentNode (the d' notification) = Some Body
      /\ (exists refs before after,
            List.filter (fun m => negb (bool_decide (m = notification)))
              (doc_tree d)
            = before ++ after
            /\ doc_tree d' = before ++ notification :: (Ref <$> refs) ++ after
            /\ (forall m, In m after -> el_parentNode (the d m) <> Some Body)
            /\ length refs = length (parse_fragment (js "div") markup)
            /\ NoDup refs
            /\ (forall i q,
                  refs !! i = Some q ->
                  Ref q <> notification
                  /\ deref d (Ref q) = None
                  /\ exists pe,
                       parse_fragment (js "div") markup !! i = Some pe
                       /\ deref d' (Ref q)
                          = Some (place notification refs pe)))
      /\ doc_timers d'
         = doc_timers d
           ++ [{| timer_delay := default (number_of_Z 3000) duration;
                  timer_callback := NotificationFade notification |}])
  /\ (forall w p,
        el_parentNode (the (tab_document w) notification) = Some p ->
        let w1 := world_after (run_callback (NotificationFade notification)) w in
        let w2 :=
          world_after (run_callback (NotificationRemove notification)) w1 in
        run_callback (NotificationFade notification) w = (Normal tt, w1)
        /\ opacity (el_style (the (tab_document w1) notification)) = js "0"
        /\ transform (el_style (the (tab_document w1) notification))
           = js "translateX(100%)"
        /\ doc_timers (tab_document w1)
           = doc_timers (tab_document w)
             ++ [{| timer_delay := number_of_Z 300;
                    timer_callback := NotificationRemove notification |}]
        /\ run_callback (NotificationRemove notification) w1 = (Normal tt, w2)
        /\ ~ In notification (doc_tree (tab_document w2))
        /\ el_parentNode (the (tab_document w2) notification) = None)
  /\ (forall w,
        el_parentNode (the (tab_document w) notification) = None ->
        run_callback (NotificationFade notification) w = (Normal tt, w)
        /\ run_callback (NotificationRemove notification) w = (Normal tt, w))
  /\ (forall cb w, result_of (run_callback cb) w = Normal tt).
Proof.
  intros d notification markup t' d'. subst notification.
  set (p := fresh (dom (doc_heap d))) in *.
  split; [apply createElement_fresh|].
  destruct (tab_body t) eqn:Hb.
  - (* document.body exists *)
    pose proof (showNotification_body message type duration t Hb) as E.
    fold d in E. fold p in E. cbv zeta in E.
    subst d' t'. unfold world_after. rewrite E. cbn [snd tab_document].
    clear E.
    split.
    { eexists. split.
      - rewrite deref_with_timers, deref_with_tree. cbn [deref with_heap doc_heap].
        rewrite lookup_alter_eq, (notification_h2_p message type t).
        reflexivity.
      - repeat split. }
    split; [discriminate|].
    split.
    { intros _. split; [reflexivity|].
      split.
      { unfold the. rewrite deref_with_timers, deref_with_tree.
        cbn [deref with_heap doc_heap].
        rewrite lookup_alter_eq, (notification_h2_p message type t).
        reflexivity. }
      split; [|reflexivity].
      cbn [doc_tree with_timers with_tree].
      match goal with
      | |- context [appended_to_body ?a ?b ?c] =>
          destruct (appended_to_body_split a b c)
            as (before & after & Esplit & Etree & Hafter)
      end.
      eexists _, before, after.
      split; [exact Esplit|]. split; [exact Etree|].
      split.
      { apply (notification_last_child message type t after); [|exact Hafter].
        intros m Hm.
        assert (Hin : In m (before ++ after))
          by (apply in_or_app; right; exact Hm).
        rewrite <- Esplit in Hin. apply filter_In in Hin. apply Hin. }
      split; [apply length_fresh_list|].
      split; [apply NoDup_fresh_list|].
      intros i q Hq.
      assert (Hin : q ∈ fresh_list
                      (length (parse_fragment (js "div") markup))
                      (dom (alter
                              (set_className
                                 (notification_className
                                    (default success type)))
                              p (<[p := new_element (js "div")]> (doc_heap d)))))
        by (apply list_elem_of_lookup; eauto).
      destruct (notification_refs_new message type t q Hin) as [Hqp Hnew].
      change (q <> p) in Hqp.
      split; [congruence|].
      split; [exact Hnew|].
      destruct (lookup_lt_is_Some_2 (parse_fragment (js "div") markup) i)
        as [pe Hpe].
      { apply lookup_lt_Some in Hq. rewrite length_fresh_list in Hq.
        exact Hq. }
      exists pe. split; [exact Hpe|].
      rewrite deref_with_timers, deref_with_tree.
      cbn [deref with_heap doc_heap].
      rewrite lookup_alter_ne by congruence.
      exact (notification_h2_parsed message type t i q pe Hq Hpe). }
    split.
    { intros w p0 Hp. unfold world_after.
      rewrite (fade_attached _ _ _ Hp). cbn [snd].
      set (w1 := with_tab_document _ w).
      assert (Hp1 : el_parentNode (the (tab_document w1) (Ref p))
                    = Some p0).
      { subst w1. cbn [tab_document with_tab_document].
        rewrite the_with_timers.
        rewrite !(the_update_slot el_parentNode) by (intros []; reflexivity).
        exact Hp. }
      destruct (remove_attached _ _ _ Hp1) as (w2 & E2 & Ed2 & _).
      rewrite E2. cbn [snd].
      split; [reflexivity|].
      split.
      { subst w1. cbn [tab_document with_tab_document].
        rewrite the_with_timers.
        rewrite (the_update_slot (fun e => opacity (el_style e)))
          by (intros [? ? ? ? ? ? ? ? ? [] ?]; reflexivity).
        rewrite the_update_at by exact (attached_is_Some _ _ _ Hp).
        reflexivity. }
      split.
      { subst w1. cbn [tab_document with_tab_document].
        rewrite the_with_timers.
        rewrite the_update_at.
        - reflexivity.
        - destruct (attached_is_Some _ _ _ Hp) as [e He].
          rewrite deref_update_eq, He. eauto. }
      split; [reflexivity|].
      split; [reflexivity|].
      rewrite Ed2. split.
      - cbn [doc_tree with_tree]. intros Hin.
        apply filter_In in Hin as [_ Hin].
        rewrite has_ancestor_self in Hin. discriminate.
      - rewrite the_with_tree.
        rewrite the_update_at by exact (attached_is_Some _ _ _ Hp1).
        reflexivity. }
    split.
    { intros w Hw. split; [apply fade_detached|apply remove_detached];
        exact Hw. }
    apply run_callback_normal.
  - (* document.body is null *)
    pose proof (showNotification_no_body message type duration t Hb) as E.
    fold d in E. fold p in E. cbv zeta in E.
    subst d' t'. unfold world_after. rewrite E. cbn [snd tab_document].
    clear E.
    split.
    { eexists. split.
      - cbn [deref with_heap doc_heap].
        rewrite (notification_h2_p message type t). reflexivity.
      - repeat split. }
    split; [intros _; repeat split|].
    split; [discriminate|].
    split.
    { intros w p0 Hp. unfold world_after.
      rewrite (fade_attached _ _ _ Hp). cbn [snd].
      set (w1 := with_tab_document _ w).
      assert (Hp1 : el_parentNode (the (tab_document w1) (Ref p))
                    = Some p0).
      { subst w1. cbn [tab_document with_tab_document].
        rewrite the_with_timers.
        rewrite !(the_update_slot el_parentNode) by (intros []; reflexivity).
        exact Hp. }
      destruct (remove_attached _ _ _ Hp1) as (w2 & E2 & Ed2 & _).
      rewrite E2. cbn [snd].
      split; [reflexivity|].
      split.
      { subst w1. cbn [tab_document with_tab_document].
        rewrite the_with_timers.
        rewrite (the_update_slot (fun e => opacity (el_style e)))
          by (intros [? ? ? ? ? ? ? ? ? [] ?]; reflexivity).
        rewrite the_update_at by exact (attached_is_Some _ _ _ Hp).
        reflexivity. }
      split.
      { subst w1. cbn [tab_document with_tab_document].
        rewrite the_with_timers.
        rewrite the_update_at.
        - reflexivity.
        - destruct (attached_is_Some _ _ _ Hp) as [e He].
          rewrite deref_update_eq, He. eauto. }
      split; [reflexivity|].
      split; [reflexivity|].
      rewrite Ed2. split.
      - cbn [doc_tree with_tree]. intros Hin.
        apply filter_In in Hin as [_ Hin].
        rewrite has_ancestor_self in Hin. discriminate.
      - rewrite the_with_tree.
        rewrite the_update_at by exact (attached_is_Some _ _ _ Hp1).
        reflexivity. }
    split.
    { intros w Hw. split; [apply fade_detached|apply remove_detached];
        exact Hw. }
    apply run_callback_normal.
Qed.

(** ** StorageUtils *)

Ltac run_storage :=
  cbv [StorageUtils.get StorageUtils.set StorageUtils.remove
       StorageUtils.getJSON StorageUtils.setJSON result_of
       try_catch on_localStorage bind ret call console_error modify fst].

(** No function of [StorageUtils] lets an exception through. *)
Lemma StorageUtils_no_throw {S V : Type} `{!Storage S, !JSON V}
    (w : Window S) (key value : jsstring) (val : V) (e : exn) :
  result_of (StorageUtils.get key) w <> Throw e
  /\ result_of (StorageUtils.set key value) w <> Throw e
  /\ result_of (StorageUtils.remove key) w <> Throw e
  /\ result_of (StorageUtils.getJSON (V := V) key) w <> Throw e
  /\ result_of (StorageUtils.setJSON key val) w <> Throw e.
Proof.
  run_storage. repeat split.
  - destruct (getItem key (localStorage w)) as [[r|x] s']; discriminate.
  - destruct (setItem key value (localStorage w)) as [[r|x] s']; discriminate.
  - destruct (removeItem key (localStorage w)) as [[r|x] s']; discriminate.
  - destruct (getItem key (localStorage w)) as [[[text|]|x] s'];
      try discriminate.
    destruct (truthy text); [|discriminate].
    destruct (JSON_parse text); discriminate.
  - destruct (JSON_stringify val) as [text|x]; [|discriminate].
    destruct (setItem key text (localStorage w)) as [[r|x] s']; discriminate.
Qed.

(** What each function does, by the outcome of the underlying calls. *)
Lemma get_run {S : Type} `{!Storage S} (key : jsstring) (w : Window S) :
  StorageUtils.get key w
  = match getItem key (localStorage w) with
    | (Normal r, s') => (Normal r, with_localStorage s' w)
    | (Throw e, s') =>
        (Normal None,
         {| localStorage := s';
            console :=
              console w ++ [(js "Error reading from localStorage:", e)] |})
    end.
Proof.
  run_storage. destruct (getItem key (localStorage w)) as [[r|e] s'];
    reflexivity.
Qed.

Lemma set_run {S : Type} `{!Storage S} (key value : jsstring)
    (w : Window S) :
  StorageUtils.set key value w
  = match setItem key value (localStorage w) with
    | (Normal _, s') => (Normal true, with_localStorage s' w)
    | (Throw e, s') =>
        (Normal false,
         {| localStorage := s';
            console :=
              console w ++ [(js "Error writing to localStorage:", e)] |})
    end.
Proof.
  run_storage. destruct (setItem key value (localStorage w)) as [[r|e] s'];
    reflexivity.
Qed.

Lemma remove_run {S : Type} `{!Storage S} (key : jsstring) (w : Window S) :
  StorageUtils.remove key w
  = match removeItem key (localStorage w) with
    | (Normal _, s') => (Normal true, with_localStorage s' w)
    | (Throw e, s') =>
        (Normal false,
         {| localStorage := s';
            console :=
              console w ++ [(js "Error removing from localStorage:", e)] |})
    end.
Proof.
  run_storage. destruct (removeItem key (localStorage w)) as [[r|e] s'];
    reflexivity.
Qed.

Lemma getJSON_run {S V : Type} `{!Storage S, !JSON V} (key : jsstring)
    (w : Window S) :
  let logged s' e :=
    {| localStorage := s';
       console :=
         console w ++ [(js "Error parsing JSON from localStorage:", e)] |} in
  StorageUtils.getJSON (V := V) key w
  = match getItem key (localStorage w) with
    | (Normal (Some text), s') =>
        if truthy text
        then match JSON_parse text with
             | Normal v => (Normal (Some v), with_localStorage s' w)
             | Throw e => (Normal None, logged s' e)
             end
        else (Normal None, with_localStorage s' w)
    | (Normal None, s') => (Normal None, with_localStorage s' w)
    | (Throw e, s') => (Normal None, logged s' e)
    end.
Proof.
  run_storage.
  destruct (getItem key (localStorage w)) as [[[text|]|e] s'];
    try reflexivity.
  destruct (truthy text); [|reflexivity].
  destruct (JSON_parse text); reflexivity.
Qed.

Lemma setJSON_run {S V : Type} `{!Storage S, !JSON V} (key : jsstring)
    (val : V) (w : Window S) :
  let logged s' e :=
    {| localStorage := s';
       console :=
         console w ++ [(js "Error storing JSON to localStorage:", e)] |} in
  StorageUtils.setJSON key val w
  = match JSON_stringify val with
    | Normal text =>
        match setItem key text (localStorage w) with
        | (Normal _, s') => (Normal true, with_localStorage s' w)
        | (Throw e, s') => (Normal false, logged s' e)
        end
    | Throw e => (Normal false, logged (localStorage w) e)
    end.
Proof.
  run_storage. destruct (JSON_stringify val) as [text|e]; [|reflexivity].
  destruct (setItem key text (localStorage w)) as [[r|e] s']; reflexivity.
Qed.

(** C4.  Each function of [StorageUtils] passes the call on to
    [localStorage] (and to [JSON]) and never throws.  When the underlying
    operation throws, the exception is logged and [get] and [getJSON]
    return [null], [set], [remove] and [setJSON] return [false]; when it
    succeeds, [get] returns what [getItem] returned, [getJSON] returns the
    parsed value, or [null] for an absent key, and [set], [remove] and
    [setJSON] return [true].  ([JSON.parse] accepts no empty text.) *)
Theorem C4_StorageUtils {S V : Type} `{!Storage S, !JSON V}
    (w : Window S) (key value : jsstring) (val : V) :
  (forall v : V, JSON_parse [] <> Normal v) ->
  let s := localStorage w in
  let logged s' msg e :=
    {| localStorage := s'; console := console w ++ [(msg, e)] |} in
  ((forall e s', getItem key s = (Throw e, s') ->
      StorageUtils.get key w
      = (Normal None, logged s' (js "Error reading from localStorage:") e))
   /\ (forall r s', getItem key s = (Normal r, s') ->
         StorageUtils.get key w = (Normal r, with_localStorage s' w)))
  /\ ((forall e s', setItem key value s = (Throw e, s') ->
         StorageUtils.set key value w
         = (Normal false, logged s' (js "Error writing to localStorage:") e))
      /\ (forall s', setItem key value s = (Normal tt, s') ->
            StorageUtils.set key value w
            = (Normal true, with_localStorage s' w)))
  /\ ((forall e s', removeItem key s = (Throw e, s') ->
         StorageUtils.remove key w
         = (Normal false,
            logged s' (js "Error removing from localStorage:") e))
      /\ (forall s', removeItem key s = (Normal tt, s') ->
            StorageUtils.remove key w
            = (Normal true, with_localStorage s' w)))
  /\ ((forall e s', getItem key s = (Throw e, s') ->
         StorageUtils.getJSON (V := V) key w
         = (Normal None,
            logged s' (js "Error parsing JSON from localStorage:") e))
      /\ (forall text e s',
            getItem key s = (Normal (Some text), s') ->
            JSON_parse (V := V) text = Throw e ->
            result_of (StorageUtils.getJSON (V := V) key) w = Normal None)
      /\ (forall text v s',
            getItem key s = (Normal (Some text), s') ->
            JSON_parse text = Normal v ->
            StorageUtils.getJSON key w
            = (Normal (Some v), with_localStorage s' w))
      /\ (forall s', getItem key s = (Normal None, s') ->
            StorageUtils.getJSON (V := V) key w
            = (Normal None, with_localStorage s' w)))
  /\ ((forall e, JSON_stringify val = Throw e ->
         StorageUtils.setJSON key val w
         = (Normal false,
            logged s (js "Error storing JSON to localStorage:") e))
      /\ (forall text e s',
            JSON_stringify val = Normal text ->
            setItem key text s = (Throw e, s') ->
            StorageUtils.setJSON key val w
            = (Normal false,
               logged s' (js "Error storing JSON to localStorage:") e))
      /\ (forall text s',
            JSON_stringify val = Normal text ->
            setItem key text s = (Normal tt, s') ->
            StorageUtils.setJSON key val w
            = (Normal true, with_localStorage s' w)))
  /\ (forall e,
        result_of (StorageUtils.get key) w <> Throw e
        /\ result_of (StorageUtils.set key value) w <> Throw e
        /\ result_of (StorageUtils.remove key) w <> Throw e
        /\ result_of (StorageUtils.getJSON (V := V) key) w <> Throw e
        /\ result_of (StorageUtils.setJSON key val) w <> Throw e).
Proof.
  intros Hempty s logged. subst s logged.
  repeat match goal with |- _ /\ _ => split end.
  - intros e s' H. rewrite get_run, H. reflexivity.
  - intros r s' H. rewrite get_run, H. reflexivity.
  - intros e s' H. rewrite set_run, H. reflexivity.
  - intros s' H. rewrite set_run, H. reflexivity.
  - intros e s' H. rewrite remove_run, H. reflexivity.
  - intros s' H. rewrite remove_run, H. reflexivity.
  - intros e s' H. rewrite getJSON_run, H. reflexivity.
  - intros text e s' H Hparse. unfold result_of.
    rewrite getJSON_run, H, Hparse. destruct (truthy text); reflexivity.
  - intros text v s' H Hparse. rewrite getJSON_run, H.
    destruct text as [|c text]; [destruct (Hempty v Hparse)|].
    cbn [truthy]. rewrite Hparse. reflexivity.
  - intros s' H. rewrite getJSON_run, H. reflexivity.
  - intros e H. rewrite setJSON_run, H. reflexivity.
  - intros text e s' Hs H. rewrite setJSON_run, Hs, H. reflexivity.
  - intros text s' Hs H. rewrite setJSON_run, Hs, H. reflexivity.
  - intros e. apply StorageUtils_no_throw.
Qed.

(** ** The statements at work on the sample page *)

Lemma C1_absent_element_witness :
  document_getElementById (js "sidebar") sample_document = None
  /\ getInputValue (js "sidebar") sample_document
     = (Normal (js ""), sample_document)
  /\ ModalUtils.show (js "sidebar") sample_document
     = (Normal false, sample_document)
  /\ LoadingUtils.setButtonLoading (parser := sample_parser) (js "sidebar") None
       sample_document
     = (Normal None, sample_document).
Proof.
  assert (H : document_getElementById (js "sidebar") sample_document = None)
    by (vm_compute; reflexivity).
  split; [exact H|].
  pose proof (C1_absent_element (parser := sample_parser) sample_document
                (js "sidebar") H) as C.
  split; [apply C|]. split; apply C.
Defined.

Lemma C3_input_value_round_trip_witness :
  document_getElementById (js "modalEmail") sample_document = Some (Ref 1)
  /\ el_value (the sample_document (Ref 1))
     = Control strip_newlines (js "ani@desa.id")
  /\ setInputValue (js "modalEmail") (js "budi@desa.id") sample_document
     = (Normal true,
        world_after (setInputValue (js "modalEmail") (js "budi@desa.id"))
          sample_document)
  /\ getInputValue (js "modalEmail")
       (world_after (setInputValue (js "modalEmail") (js "budi@desa.id"))
          sample_document)
     = (Normal (js "budi@desa.id"),
        world_after (setInputValue (js "modalEmail") (js "budi@desa.id"))
          sample_document).
Proof.
  assert (H : document_getElementById (js "modalEmail") sample_document
              = Some (Ref 1)) by (vm_compute; reflexivity).
  assert (E : el_value (the sample_document (Ref 1))
              = Control strip_newlines (js "ani@desa.id")) by reflexivity.
  split; [exact H|]. split; [exact E|].
  destruct (C3_input_value_round_trip sample_document (js "modalEmail")
              (js "budi@desa.id") (Ref 1) H) as [C _].
  destruct (C strip_newlines (js "ani@desa.id") E) as (C1 & _ & C2 & _).
  split; [exact C1|]. apply C2. reflexivity.
Defined.


Lemma C10_setButtonLoading_restore_witness :
  document_getElementById (js "saveBtn") sample_document = Some (Ref 2)
  /\ el_innerHTML (the sample_document (Ref 2)) = js "Simpan"
  /\ exists handle,
       LoadingUtils.setButtonLoading (parser := sample_parser) (js "saveBtn")
         None sample_document
       = (Normal (Some handle),
          world_after
            (LoadingUtils.setButtonLoading (parser := sample_parser)
               (js "saveBtn") None)
            sample_document)
       /\ el_innerHTML
            (the
               (world_after (restore handle)
                  (world_after
                     (LoadingUtils.setButtonLoading (parser := sample_parser)
                        (js "saveBtn") None)
                     sample_document))
               (Ref 2))
          = js "Simpan".
Proof.
  assert (H : document_getElementById (js "saveBtn") sample_document
              = Some (Ref 2)) by (vm_compute; reflexivity).
  split; [exact H|]. split; [reflexivity|].
  destruct (C10_setButtonLoading_restore (H := sample_parser) sample_document
              (js "saveBtn") None (Ref 2) H) as (handle & C).
  exists handle. split; [apply C|].
  destruct C as (_ & _ & _ & _ & _ & _ & C & _). apply C. reflexivity.
Defined.

Lemma C4_StorageUtils_witness :
  (forall v : JsonLiteral, JSON_parse [] <> Normal v)
  /\ StorageUtils.getJSON (js "darkMode") sample_window
     = (Normal (Some (JBool true)), sample_window)
  /\ StorageUtils.get (js "darkMode") denied_window
     = (Normal None,
        {| localStorage := localStorage denied_window;
           console :=
             [(js "Error reading from localStorage:", SecurityError)] |}).
Proof.
  assert (H : forall v : JsonLiteral, JSON_parse [] <> Normal v)
    by (intros v; vm_compute; discriminate).
  split; [exact H|]. split.
  - apply (C4_StorageUtils sample_window (js "darkMode") [] JNull H)
      with (text := js "true"); vm_compute; reflexivity.
  - apply (C4_StorageUtils denied_window (js "darkMode") [] JNull H);
      reflexivity.
Defined.

(** ** Examples *)

Example validatePassword_short :
  FormUtils.validatePassword (format := integer_format) (js "abc") None
  = {| isValid := false;
       errors := [js "Password minimal 8 karakter";
                  js "Password harus mengandung angka"] |}.
Proof. reflexivity. Qed.

Example validatePassword_ok :
  FormUtils.validatePassword (format := integer_format) (js "rahasia123") None
  = {| isValid := true; errors := [] |}.
Proof. reflexivity. Qed.

Example validatePassword_infinite :
  FormUtils.validatePassword (format := integer_format) (js "rahasia123")
    (Some (Infinity false))
  = {| isValid := false; errors := [js "Password minimal Infinity karakter"] |}.
Proof. reflexivity. Qed.

Example validateEmail_ok : FormUtils.validateEmail (js "ani@desa.id") = true.
Proof. reflexivity. Qed.

Example validateEmail_no_dot : FormUtils.validateEmail (js "ani@desa") = false.
Proof. reflexivity. Qed.

Example trim_sample : trim (js "  ani  ") = js "ani".
Proof. reflexivity. Qed.

Example notification_classes :
  el_classList (set_className (notification_className error) (new_element []))
  = [js "fixed"; js "top-4"; js "right-4"; js "bg-red-500"; js "text-white";
     js "px-6"; js "py-3"; js "rounded-lg"; js "shadow-lg"; js "z-50";
     js "transition-all"; js "duration-300"].
Proof. vm_compute. reflexivity. Qed.

(** The markup of the spinner and of an error notification, code unit by
    code unit. *)
Example spinner_markup :
  spinner (js "Loading...")
  =
    [60; 105; 32; 99; 108; 97; 115; 115; 61; 34; 102; 97; 115; 32; 102; 97;
     45; 115; 112; 105; 110; 110; 101; 114; 32; 102; 97; 45; 115; 112; 105;
     110; 32; 109; 114; 45; 50; 34; 62; 60; 47; 105; 62; 76; 111; 97; 100;
     105; 110; 103; 46; 46; 46]%N.
Proof. reflexivity. Qed.

Example notification_markup :
  notification_innerHTML error (js "Gagal")
  =
    [10; 32; 32; 32; 32; 60; 100; 105; 118; 32; 99; 108; 97; 115; 115; 61;
     34; 102; 108; 101; 120; 32; 105; 116; 101; 109; 115; 45; 99; 101; 110;
     116; 101; 114; 34; 62; 10; 32; 32; 32; 32; 32; 32; 60; 105; 32; 99;
     108; 97; 115; 115; 61; 34; 102; 97; 115; 32; 102; 97; 45; 101; 120;
     99; 108; 97; 109; 97; 116; 105; 111; 110; 45; 116; 114; 105; 97; 110;
     103; 108; 101; 32; 109; 114; 45; 50; 34; 62; 60; 47; 105; 62; 10; 32;
     32; 32; 32; 32; 32; 71; 97; 103; 97; 108; 10; 32; 32; 32; 32; 60; 47;
     100; 105; 118; 62; 10; 32; 32]%N.
Proof. reflexivity. Qed.

Example validateRequired_sample :
  result_of
    (FormUtils.validateRequired [js "modalEmail"; js "sidebar"; js "saveBtn"])
    sample_document
  = Normal {| required_isValid := false;
              missingFields := [js "sidebar"; js "saveBtn"] |}.
Proof. vm_compute. reflexivity. Qed.

Example addClass_invalid_token :
  result_of (addClass (js "editModal") (js "two words")) sample_document
  = Throw InvalidCharacterError.
Proof. vm_compute. reflexivity. Qed.

Example showNotification_sample :
  let t' :=
    world_after
      (showNotification (parser := sample_parser) (js "Tersimpan") None None)
      sample_tab in
  let d' := tab_document t' in
  doc_tree d' = [Body; Ref 1; Ref 2; Ref 3; Ref 4; Ref 5; Ref 6]
  /\ doc_timers d'
     = [{| timer_delay := number_of_Z 3000;
           timer_callback := NotificationFade (Ref 4) |}]
  /\ el_parentNode (the d' (Ref 4)) = Some Body
  /\ el_parentNode (the d' (Ref 5)) = Some (Ref 4)
  /\ el_parentNode (the d' (Ref 6)) = Some (Ref 5)
  /\ el_classList (the d' (Ref 6))
     = [js "fas"; js "fa-check-circle"; js "mr-2"].
Proof. vm_compute. auto 10. Qed.

(** The notification of the sample page, from the call to the firing of
    its two timers. *)
Example notification_life_cycle :
  let t1 :=
    world_after
      (showNotification (parser := sample_parser) (js "Tersimpan") None
         (Some (number_of_Z 500)))
      sample_tab in
  let t2 := world_after (run_callback (NotificationFade (Ref 4))) t1 in
  let t3 := world_after (run_callback (NotificationRemove (Ref 4))) t2 in
  map timer_delay (doc_timers (tab_document t2))
  = [number_of_Z 500; number_of_Z 300]
  /\ opacity (el_style (the (tab_document t2) (Ref 4))) = js "0"
  /\ doc_tree (tab_document t3) = [Body; Ref 1; Ref 2; Ref 3]
  /\ tab_below t3 (Ref 4) = [Ref 5; Ref 6]
  /\ el_parentNode (the (tab_document t3) (Ref 4)) = None
  /\ result_of (run_callback (NotificationFade (Ref 4))) t3 = Normal tt
  /\ doc_timers
       (tab_document (world_after (run_callback (NotificationFade (Ref 4))) t3))
     = doc_timers (tab_document t3).
Proof. vm_compute. auto 10. Qed.

Example show_sample :
  el_classList
    (the (world_after (ModalUtils.show (js "editModal")) sample_document)
       (Ref 3))
  = [js "modal"].
Proof. vm_compute. reflexivity. Qed.

Example setFormData_sample :
  let data :=
    {| p_fullName := Some []; p_position := None;
       p_email := Some (js "budi@desa.id"); p_phone := None;
       p_location := None; p_address := None; p_twoFactorAuth := Some false;
       p_profileImage := None |} in
  value_at (js "modalEmail")
    (world_after (ProfileFormUtils.setFormData data) sample_document)
  = Some (VString (js "budi@desa.id")).
Proof. vm_compute. reflexivity. Qed.

Example normalize_newlines_sample :
  normalize_newlines (js "a" ++ [13; 10]%N ++ js "b" ++ [13]%N ++ js "c")
  = js "a" ++ newline ++ js "b" ++ newline ++ js "c".
Proof. reflexivity. Qed.

Example setJSON_quota :
  result_of
    (StorageUtils.setJSON (js "a-key-that-is-much-too-long-for-the-quota-of-this-storage-area")
       (JBool true))
    sample_window
  = Normal false.
Proof. vm_compute. reflexivity. Qed.

(* ===================================================================== *)
(** * Further properties of the utilities                                 *)
(* ===================================================================== *)

(** ** The accessors on an element that exists *)

Lemma or_bool_false (b : bool) : or_bool (Some b) false = b.
Proof. destruct b; reflexivity. Qed.

Lemma getCheckboxValue_found (id : jsstring) (d : Document) (el : node) :
  document_getElementById id d = Some el ->
  getCheckboxValue id d = (Normal (el_checked (the d el)), d).
Proof.
  intros H. unfold getCheckboxValue, getElementById, bind, gets.
  rewrite H. cbv [opt_read read gets bind ret].
  rewrite or_bool_false. reflexivity.
Qed.

Lemma getTextContent_found (id : jsstring) (d : Document) (el : node) :
  document_getElementById id d = Some el ->
  getTextContent id d = (Normal (el_textContent (the d el)), d).
Proof.
  intros H. unfold getTextContent, getElementById, bind, gets.
  rewrite H. cbv [opt_read read gets bind ret].
  rewrite or_string_empty. reflexivity.
Qed.

Lemma hasClass_found (id c : jsstring) (d : Document) (el : node) :
  document_getElementById id d = Some el ->
  hasClass id c d = (Normal (bool_decide (c ∈ el_classList (the d el))), d).
Proof.
  intros H. unfold hasClass, getElementById, bind, gets.
  rewrite H. cbv [opt_read read gets bind ret].
  rewrite or_bool_false. reflexivity.
Qed.

Lemma setTextContent_unfold (j v : jsstring) (d : Document) :
  setTextContent j v d
  = match document_getElementById j d with
    | Some n => (Normal true, update n (set_textContent v) d)
    | None => (Normal false, d)
    end.
Proof.
  unfold setTextContent, getElementById, bind, gets.
  destruct (document_getElementById j d); reflexivity.
Qed.

(** After an assignment that keeps the [id] slot, the element found for
    the id is the same object, with the assignment applied. *)
Lemma found_after_update (id : jsstring) (d : Document) (el : node) f :
  document_getElementById id d = Some el ->
  (forall e, el_id (f e) = el_id e) ->
  document_getElementById id (update el f d) = Some el
  /\ the (update el f d) el = f (the d el).
Proof.
  intros H Hid. split.
  - rewrite getElementById_update by exact Hid. exact H.
  - apply the_update_at.
    destruct (getElementById_Some _ _ _ H) as (_ & e & He & _). eauto.
Qed.

(** X1.  On an element that exists, [setCheckboxValue] followed by
    [getCheckboxValue] returns the state set, and [setTextContent]
    followed by [getTextContent] returns the text set; both setters
    return [true]. *)
Theorem checkbox_and_text_round_trip (d : Document) (id : jsstring)
    (el : node) :
  document_getElementById id d = Some el ->
  (forall checked,
     let d' := world_after (setCheckboxValue id checked) d in
     setCheckboxValue id checked d = (Normal true, d')
     /\ getCheckboxValue id d' = (Normal checked, d'))
  /\ (forall text,
        let d' := world_after (setTextContent id text) d in
        setTextContent id text d = (Normal true, d')
        /\ getTextContent id d' = (Normal text, d')).
Proof.
  intros H. split.
  - intros checked. unfold world_after.
    rewrite setCheckboxValue_unfold, H. cbn [snd].
    split; [reflexivity|].
    destruct (found_after_update id d el (set_checked checked) H)
      as [H' Hthe]; [reflexivity|].
    rewrite (getCheckboxValue_found _ _ _ H'), Hthe. reflexivity.
  - intros text. unfold world_after.
    rewrite setTextContent_unfold, H. cbn [snd].
    split; [reflexivity|].
    destruct (found_after_update id d el (set_textContent text) H)
      as [H' Hthe]; [reflexivity|].
    rewrite (getTextContent_found _ _ _ H'), Hthe. reflexivity.
Qed.

Lemma checkbox_and_text_round_trip_witness :
  document_getElementById (js "modalEmail") sample_document = Some (Ref 1)
  /\ getCheckboxValue (js "modalEmail")
       (world_after (setCheckboxValue (js "modalEmail") true) sample_document)
     = (Normal true,
        world_after (setCheckboxValue (js "modalEmail") true) sample_document)
  /\ getTextContent (js "modalEmail")
       (world_after (setTextContent (js "modalEmail") (js "Surel"))
          sample_document)
     = (Normal (js "Surel"),
        world_after (setTextContent (js "modalEmail") (js "Surel"))
          sample_document).
Proof.
  assert (H : document_getElementById (js "modalEmail") sample_document
              = Some (Ref 1)) by (vm_compute; reflexivity).
  split; [exact H|].
  pose proof (checkbox_and_text_round_trip sample_document (js "modalEmail")
                (Ref 1) H) as [C T].
  split; [apply C|apply T].
Defined.

(** What [hasClass] answers, by the element that the id names. *)
Lemma hasClass_result (id c : jsstring) (d : Document) :
  result_of (hasClass id c) d
  = Normal (or_bool (classList_contains c <$> element_at id d) false).
Proof.
  unfold result_of, hasClass, getElementById, bind, gets, element_at.
  destruct (document_getElementById id d) as [n|] eqn:E; [|reflexivity].
  destruct (getElementById_Some _ _ _ E) as (_ & e & He & _).
  cbn [opt_read]. unfold read, bind, gets, ret, the. rewrite He.
  reflexivity.
Qed.

Lemma keeps_hasClass (id c : jsstring) (d d' : Document) :
  keeps id d d' ->
  result_of (hasClass id c) d' = result_of (hasClass id c) d.
Proof. intros [_ K]. rewrite !hasClass_result, K. reflexivity. Qed.

(** X2.  What the setters of a value and of an image source leave alone.
    [setInputValue] and [setTextareaValue] on a control that keeps a
    string, and [setImageSrc] on any element, whether they end normally
    or throw: every id names afterwards the element that it named before,
    and for every other id [value], [checked], [src] and the answers of
    [hasClass] are what they were. *)
Theorem setters_leave_other_elements (d : Document) (id other : jsstring) :
  other <> id ->
  let unchanged d' :=
    (forall i, document_getElementById i d' = document_getElementById i d)
    /\ value_at other d' = value_at other d
    /\ checked_at other d' = checked_at other d
    /\ src_at other d' = src_at other d
    /\ (forall className,
          result_of (hasClass other className) d'
          = result_of (hasClass other className) d) in
  (forall el sanitize old v,
     document_getElementById id d = Some el ->
     el_value (the d el) = Control sanitize old ->
     unchanged (world_after (setInputValue id v) d)
     /\ unchanged (world_after (setTextareaValue id v) d))
  /\ (forall v, unchanged (world_after (setImageSrc id v) d)).
Proof.
  intros Hne unchanged.
  assert (Hne' : id <> other) by congruence.
  assert (U : forall d', keeps other d d' -> unchanged d').
  { intros d' K. subst unchanged. cbv beta.
    split; [exact (proj1 K)|].
    split; [exact (keeps_value_at _ _ _ K)|].
    split; [exact (keeps_checked_at _ _ _ K)|].
    split; [exact (keeps_src_at _ _ _ K)|].
    intros c. exact (keeps_hasClass _ c _ _ K). }
  split.
  - intros el sanitize old v _ _. split; apply U, leaves_world_after.
    + apply setInputValue_keeps. exact Hne'.
    + apply setTextareaValue_keeps. exact Hne'.
  - intros v. apply U, leaves_world_after, setImageSrc_keeps. exact Hne'.
Qed.

Lemma setters_leave_other_elements_witness :
  js "saveBtn" <> js "modalEmail"
  /\ value_at (js "saveBtn")
       (world_after (setInputValue (js "modalEmail") (js "x")) sample_document)
     = value_at (js "saveBtn") sample_document.
Proof.
  assert (H : js "saveBtn" <> js "modalEmail") by ids_differ.
  split; [exact H|].
  pose proof (setters_leave_other_elements sample_document (js "modalEmail")
                (js "saveBtn") H) as (C & _).
  destruct (C (Ref 1) strip_newlines (js "ani@desa.id") (js "x")
              eq_refl eq_refl)
    as ((_ & V & _) & _).
  exact V.
Defined.

(** ** The class operations on an element that exists *)

Lemma validate_token_valid {W} (c : jsstring) (w : W) :
  c <> [] -> existsb is_ascii_whitespace c = false ->
  validate_token c w = (Normal tt, w).
Proof.
  intros Hc Hw. unfold validate_token. rewrite Hw.
  destruct c; [congruence|reflexivity].
Qed.

Lemma addClass_found (id c : jsstring) (d : Document) (el : node) :
  document_getElementById id d = Some el ->
  c <> [] -> existsb is_ascii_whitespace c = false ->
  addClass id c d
  = (Normal true,
     update el (fun e => set_classList (token_add c (el_classList e)) e) d).
Proof.
  intros H Hc Hw. unfold addClass, getElementById, gets, classList_add.
  cbv [bind]. rewrite H, (validate_token_valid c d Hc Hw). reflexivity.
Qed.

Lemma removeClass_found (id c : jsstring) (d : Document) (el : node) :
  document_getElementById id d = Some el ->
  c <> [] -> existsb is_ascii_whitespace c = false ->
  removeClass id c d
  = (Normal true,
     update el (fun e => set_classList (token_remove c (el_classList e)) e)
       d).
Proof.
  intros H Hc Hw. unfold removeClass, getElementById, gets, classList_remove.
  cbv [bind]. rewrite H, (validate_token_valid c d Hc Hw). reflexivity.
Qed.

Lemma toggleClass_found (id c : jsstring) (d : Document) (el : node) :
  document_getElementById id d = Some el ->
  c <> [] -> existsb is_ascii_whitespace c = false ->
  toggleClass id c d
  = (Normal true,
     update el
       (set_classList
          (if bool_decide (c ∈ el_classList (the d el))
           then token_remove c (el_classList (the d el))
           else el_classList (the d el) ++ [c]))
       d).
Proof.
  intros H Hc Hw. unfold toggleClass, getElementById, gets, classList_toggle.
  cbv [bind]. rewrite H, (validate_token_valid c d Hc Hw).
  cbv [read gets].
  destruct (bool_decide (c ∈ el_classList (the d el))); reflexivity.
Qed.

Lemma class_op_invalid (c : jsstring) (d : Document) :
  c = [] \/ existsb is_ascii_whitespace c = true ->
  validate_token c d
  = (Throw (if truthy c then InvalidCharacterError else SyntaxError), d).
Proof.
  unfold validate_token. intros [-> | Hw]; [reflexivity|].
  rewrite Hw. destruct c; [discriminate|reflexivity].
Qed.

Lemma bool_decide_In_iff (x y : jsstring) (l k : list jsstring) :
  (In x l <-> In y k) -> bool_decide (x ∈ l) = bool_decide (y ∈ k).
Proof.
  intros H. apply bool_decide_ext. rewrite !list_elem_of_In. exact H.
Qed.

(** X3.  With a valid class name (not empty, no ASCII whitespace) and an
    element that exists: after [addClass] the element has the class,
    after [removeClass] it does not, both return [true], and the answer
    of [hasClass] for every other class name is what it was. *)
Theorem addClass_removeClass_hasClass (d : Document) (id c : jsstring)
    (el : node) :
  document_getElementById id d = Some el ->
  c <> [] ->
  existsb is_ascii_whitespace c = false ->
  let added := world_after (addClass id c) d in
  let removed := world_after (removeClass id c) d in
  addClass id c d = (Normal true, added)
  /\ hasClass id c added = (Normal true, added)
  /\ removeClass id c d = (Normal true, removed)
  /\ hasClass id c removed = (Normal false, removed)
  /\ (forall c', c' <> c ->
        result_of (hasClass id c') added = result_of (hasClass id c') d
        /\ result_of (hasClass id c') removed = result_of (hasClass id c') d).
Proof.
  intros H Hc Hw added removed. subst added removed. unfold world_after.
  rewrite (addClass_found _ _ _ _ H Hc Hw),
    (removeClass_found _ _ _ _ H Hc Hw). cbn [snd].
  destruct (found_after_update id d el
              (fun e => set_classList (token_add c (el_classList e)) e) H)
    as [Ha Ta]; [reflexivity|].
  destruct (found_after_update id d el
              (fun e => set_classList (token_remove c (el_classList e)) e) H)
    as [Hr Tr]; [reflexivity|].
  unfold result_of.
  split; [reflexivity|]. split.
  { rewrite (hasClass_found _ _ _ _ Ha), Ta. cbn [el_classList set_classList].
    rewrite bool_decide_eq_true_2; [reflexivity|].
    apply list_elem_of_In, token_add_In. right. reflexivity. }
  split; [reflexivity|]. split.
  { rewrite (hasClass_found _ _ _ _ Hr), Tr. cbn [el_classList set_classList].
    rewrite bool_decide_eq_false_2; [reflexivity|].
    rewrite list_elem_of_In, token_remove_In. tauto. }
  intros c' Hne.
  rewrite (hasClass_found _ _ _ _ Ha), (hasClass_found _ _ _ _ Hr),
    (hasClass_found _ _ _ _ H), Ta, Tr.
  cbn [el_classList set_classList fst]. split; f_equal;
    apply bool_decide_In_iff;
    rewrite ?token_add_In, ?token_remove_In; tauto.
Qed.

Lemma addClass_removeClass_hasClass_witness :
  document_getElementById (js "editModal") sample_document = Some (Ref 3)
  /\ hasClass (js "editModal") (js "open")
       (world_after (addClass (js "editModal") (js "open")) sample_document)
     = (Normal true,
        world_after (addClass (js "editModal") (js "open")) sample_document)
  /\ hasClass (js "editModal") (js "hidden")
       (world_after (removeClass (js "editModal") (js "hidden"))
          sample_document)
     = (Normal false,
        world_after (removeClass (js "editModal") (js "hidden"))
          sample_document).
Proof.
  assert (H : document_getElementById (js "editModal") sample_document
              = Some (Ref 3)) by (vm_compute; reflexivity).
  split; [exact H|]. split.
  - apply (addClass_removeClass_hasClass sample_document (js "editModal")
             (js "open") (Ref 3) H); [discriminate|reflexivity].
  - apply (addClass_removeClass_hasClass sample_document (js "editModal")
             (js "hidden") (Ref 3) H); [discriminate|reflexivity].
Defined.

(** X4.  With a valid class name and an element that exists,
    [toggleClass] returns [true] and flips the answer of [hasClass] for
    that class, leaving it for every other class; toggling twice brings
    back the answer of [hasClass] for every class. *)
Theorem toggleClass_flips (d : Document) (id c : jsstring) (el : node) :
  document_getElementById id d = Some el ->
  c <> [] ->
  existsb is_ascii_whitespace c = false ->
  let once := world_after (toggleClass id c) d in
  let twice := world_after (toggleClass id c) once in
  toggleClass id c d = (Normal true, once)
  /\ (exists b, hasClass id c d = (Normal b, d)
                /\ hasClass id c once = (Normal (negb b), once))
  /\ (forall c', c' <> c ->
        result_of (hasClass id c') once = result_of (hasClass id c') d)
  /\ toggleClass id c once = (Normal true, twice)
  /\ (forall c',
        result_of (hasClass id c') twice = result_of (hasClass id c') d).
Proof.
  intros H Hc Hw once twice. subst twice once. unfold world_after.
  rewrite (toggleClass_found _ _ _ _ H Hc Hw). cbn [snd].
  set (l := el_classList (the d el)).
  set (l1 := if bool_decide (c ∈ l) then token_remove c l else l ++ [c]).
  destruct (found_after_update id d el (set_classList l1) H)
    as [H1 T1]; [reflexivity|].
  rewrite (toggleClass_found _ _ _ _ H1 Hc Hw). cbn [snd].
  rewrite T1. cbn [el_classList set_classList].
  set (l2 := if bool_decide (c ∈ l1) then token_remove c l1 else l1 ++ [c]).
  destruct (found_after_update id _ el (set_classList l2) H1)
    as [H2 T2]; [reflexivity|].
  assert (M1 : forall t, In t l1 <-> (In t l /\ t <> c) \/ (t = c /\ ~ In c l)).
  { intros t. subst l1. case_bool_decide as Hin;
      rewrite list_elem_of_In in Hin.
    - rewrite token_remove_In. tauto.
    - rewrite in_app_iff. simpl.
      destruct (decide (t = c)) as [->|Hne]; intuition congruence. }
  assert (M2 : forall t, In t l2 <-> In t l).
  { intros t. subst l2. case_bool_decide as Hin;
      rewrite list_elem_of_In in Hin.
    - rewrite token_remove_In, M1. apply M1 in Hin.
      destruct (decide (t = c)) as [->|Hne]; tauto.
    - rewrite in_app_iff, M1. simpl. rewrite M1 in Hin.
      destruct (decide (t = c)) as [->|Hne]; [|intuition congruence].
      destruct (decide (c ∈ l)) as [Hc'|Hc'];
        rewrite list_elem_of_In in Hc'; tauto. }
  unfold result_of.
  split; [reflexivity|]. split.
  { exists (bool_decide (c ∈ l)). split; [apply (hasClass_found _ _ _ _ H)|].
    rewrite (hasClass_found _ _ _ _ H1), T1. cbn [el_classList set_classList].
    f_equal. f_equal.
    assert (Hiff : c ∈ l1 <-> ~ c ∈ l).
    { rewrite !list_elem_of_In, M1.
      destruct (decide (c ∈ l)) as [Hin|Hin];
        rewrite list_elem_of_In in Hin; tauto. }
    destruct (decide (c ∈ l)) as [Hin|Hin].
    - rewrite (bool_decide_eq_true_2 _ Hin).
      apply bool_decide_eq_false_2. tauto.
    - rewrite (bool_decide_eq_false_2 _ Hin).
      apply bool_decide_eq_true_2. tauto. }
  split.
  { intros c' Hne.
    rewrite (hasClass_found _ _ _ _ H1), (hasClass_found _ _ _ _ H), T1.
    cbn [el_classList set_classList fst]. f_equal.
    apply bool_decide_In_iff. rewrite M1. fold l. tauto. }
  split; [reflexivity|].
  intros c'.
  rewrite (hasClass_found _ _ _ _ H2), (hasClass_found _ _ _ _ H), T2.
  cbn [el_classList set_classList fst]. f_equal.
  apply bool_decide_In_iff. apply M2.
Qed.

Lemma toggleClass_flips_witness :
  document_getElementById (js "editModal") sample_document = Some (Ref 3)
  /\ hasClass (js "editModal") (js "hidden") sample_document
     = (Normal true, sample_document)
  /\ result_of (hasClass (js "editModal") (js "hidden"))
       (world_after (toggleClass (js "editModal") (js "hidden"))
          sample_document)
     = Normal false.
Proof.
  assert (H : document_getElementById (js "editModal") sample_document
              = Some (Ref 3)) by (vm_compute; reflexivity).
  split; [exact H|].
  destruct (toggleClass_flips sample_document (js "editModal") (js "hidden")
              (Ref 3) H ltac:(discriminate) eq_refl)
    as (_ & (b & Hb & Hb') & _).
  assert (E : hasClass (js "editModal") (js "hidden") sample_document
              = (Normal true, sample_document)) by (vm_compute; reflexivity).
  split; [exact E|].
  rewrite E in Hb. injection Hb as <-.
  unfold result_of. rewrite Hb'. reflexivity.
Defined.

(** X5.  The class operations are not safe against a bad class name: on
    an element that exists, [addClass], [removeClass] and [toggleClass]
    throw [SyntaxError] for the empty name and [InvalidCharacterError]
    for a name with ASCII whitespace, and the document is left as it
    was. *)
Theorem class_operations_reject_bad_names (d : Document) (id c : jsstring)
    (el : node) :
  document_getElementById id d = Some el ->
  c = [] \/ existsb is_ascii_whitespace c = true ->
  let e := if truthy c then InvalidCharacterError else SyntaxError in
  addClass id c d = (Throw e, d)
  /\ removeClass id c d = (Throw e, d)
  /\ toggleClass id c d = (Throw e, d).
Proof.
  intros H Hc e. subst e.
  unfold addClass, removeClass, toggleClass, getElementById, gets,
    classList_add, classList_remove, classList_toggle.
  cbv [bind]. rewrite H, (class_op_invalid c d Hc). repeat split.
Qed.

Lemma class_operations_reject_bad_names_witness :
  document_getElementById (js "editModal") sample_document = Some (Ref 3)
  /\ addClass (js "editModal") (js "") sample_document
     = (Throw SyntaxError, sample_document)
  /\ toggleClass (js "editModal") (js "is open") sample_document
     = (Throw InvalidCharacterError, sample_document).
Proof.
  assert (H : document_getElementById (js "editModal") sample_document
              = Some (Ref 3)) by (vm_compute; reflexivity).
  split; [exact H|]. split.
  - apply (class_operations_reject_bad_names sample_document
             (js "editModal") (js "") (Ref 3) H). left. reflexivity.
  - apply (class_operations_reject_bad_names sample_document
             (js "editModal") (js "is open") (Ref 3) H). right. reflexivity.
Defined.

(** ** FormUtils.validateEmail *)

Lemma lang_star_class (p : code_unit -> bool) (s : jsstring) :
  lang (Star (Class p)) s <-> forallb p s = true.
Proof.
  split.
  - intros H. remember (Star (Class p)) as r eqn:Er.
    induction H as [| | | | | |r0 s1 s2 H1 _ H2 IH2]; try discriminate.
    + reflexivity.
    + injection Er as ->. apply lang_class_inv in H1 as (c & -> & Hc).
      simpl. rewrite Hc. apply IH2. reflexivity.
  - induction s as [|c s IH]; simpl; intros H; [constructor|].
    apply andb_true_iff in H as [Hc Hs].
    apply (lang_star_app (Class p) [c] s); [constructor; exact Hc|auto].
Qed.

Lemma lang_plus_class (p : code_unit -> bool) (s : jsstring) :
  lang (Plus (Class p)) s <-> s <> [] /\ forallb p s = true.
Proof.
  unfold Plus. split.
  - intros H. apply lang_cat_inv in H as (s1 & s2 & -> & H1 & H2).
    apply lang_class_inv in H1 as (c & -> & Hc).
    apply lang_star_class in H2. simpl. rewrite Hc, H2.
    split; [discriminate|reflexivity].
  - intros [Hne H]. destruct s as [|c s]; [congruence|].
    simpl in H. apply andb_true_iff in H as [Hc Hs].
    apply (lang_cat _ _ [c] s); [constructor; exact Hc|].
    apply lang_star_class. exact Hs.
Qed.

Lemma lang_lit (c : code_unit) (s : jsstring) : lang (Lit c) s <-> s = [c].
Proof.
  unfold Lit. split.
  - intros H. apply lang_class_inv in H as (x & -> & Hx).
    apply N.eqb_eq in Hx as ->. reflexivity.
  - intros ->. constructor. apply N.eqb_refl.
Qed.

(** The parts of an accepted address. *)
Lemma validateEmail_accepts_parts (email : jsstring) :
  FormUtils.validateEmail email = true ->
  exists loc dom rest,
    email = loc ++ [at_sign] ++ dom ++ [full_stop] ++ rest
    /\ loc <> [] /\ dom <> [] /\ rest <> []
    /\ forallb not_space_or_at loc = true
    /\ forallb not_space_or_at dom = true
    /\ forallb not_space_or_at rest = true.
Proof.
  unfold FormUtils.validateEmail, RegExp_test.
  cbn [FormUtils.emailRegex re_from_start re_body re_to_end].
  rewrite matches_lang. intros H.
  apply lang_cat_inv in H as (s0 & t0 & -> & H0 & H).
  apply lang_eps_inv in H0 as ->.
  apply lang_cat_inv in H as (sb & s9 & -> & H & H9).
  apply lang_eps_inv in H9 as ->.
  apply lang_cat_inv in H as (loc & t1 & -> & Hloc & H).
  apply lang_cat_inv in H as (s1 & t2 & -> & Hat & H).
  apply lang_cat_inv in H as (dom & t3 & -> & Hdom & H).
  apply lang_cat_inv in H as (s2 & rest & -> & Hdot & Hrest).
  apply lang_lit in Hat as ->. apply lang_lit in Hdot as ->.
  apply lang_plus_class in Hloc as [? ?].
  apply lang_plus_class in Hdom as [? ?].
  apply lang_plus_class in Hrest as [? ?].
  exists loc, dom, rest. rewrite app_nil_r. simpl. repeat split; auto.
Qed.

(** X6.  [FormUtils.validateEmail] accepts exactly the strings of the
    form local-part, at sign, domain, full stop, rest, where the three
    parts are non-empty and hold neither whitespace nor an at sign. *)
Theorem validateEmail_accepts (email : jsstring) :
  FormUtils.validateEmail email = true <->
  exists loc dom rest,
    email = loc ++ [at_sign] ++ dom ++ [full_stop] ++ rest
    /\ loc <> [] /\ dom <> [] /\ rest <> []
    /\ forallb not_space_or_at loc = true
    /\ forallb not_space_or_at dom = true
    /\ forallb not_space_or_at rest = true.
Proof.
  split; [apply validateEmail_accepts_parts|].
  intros (loc & dom & rest & -> & Hl & Hd & Hr & Pl & Pd & Pr).
  unfold FormUtils.validateEmail, RegExp_test.
  cbn [FormUtils.emailRegex re_from_start re_body re_to_end].
  rewrite matches_lang.
  apply (lang_cat _ _ [] _); [constructor|].
  rewrite <- (app_nil_r (loc ++ _)).
  apply lang_cat; [|constructor].
  apply lang_cat; [apply lang_plus_class; auto|].
  apply lang_cat; [apply lang_lit; reflexivity|].
  apply lang_cat; [apply lang_plus_class; auto|].
  apply lang_cat; [apply lang_lit; reflexivity|].
  apply lang_plus_class; auto.
Qed.

Lemma not_space_or_at_count (s : jsstring) :
  forallb not_space_or_at s = true -> count_occ N.eq_dec s at_sign = 0.
Proof.
  induction s as [|c s IH]; simpl; [reflexivity|].
  intros H. apply andb_true_iff in H as [Hc Hs].
  destruct (N.eq_dec c at_sign) as [->|_]; [discriminate Hc|auto].
Qed.

Lemma not_space_or_at_no_space (s : jsstring) :
  forallb not_space_or_at s = true ->
  forallb (fun c => negb (is_whitespace c)) s = true.
Proof.
  induction s as [|c s IH]; simpl; [reflexivity|].
  intros H. apply andb_true_iff in H as [Hc Hs].
  rewrite (IH Hs), andb_true_r.
  unfold not_space_or_at in Hc. destruct (is_whitespace c); [discriminate|].
  reflexivity.
Qed.

(** X7.  An address that [FormUtils.validateEmail] accepts has exactly one
    at sign, no whitespace, and at least five code units. *)
Theorem validateEmail_accepted_shape (email : jsstring) :
  FormUtils.validateEmail email = true ->
  count_occ N.eq_dec email at_sign = 1
  /\ forallb (fun c => negb (is_whitespace c)) email = true
  /\ 5 <= length email.
Proof.
  intros H.
  apply validateEmail_accepts_parts in H
    as (loc & dom & rest & -> & Hl & Hd & Hr & Pl & Pd & Pr).
  unfold code_unit in *.
  split; [|split].
  - rewrite count_occ_app, (not_space_or_at_count _ Pl). cbn [app].
    rewrite count_occ_cons_eq by reflexivity.
    rewrite count_occ_app, (not_space_or_at_count _ Pd). cbn [app].
    rewrite count_occ_cons_neq by discriminate.
    rewrite (not_space_or_at_count _ Pr). reflexivity.
  - rewrite forallb_app. apply andb_true_iff.
    split; [exact (not_space_or_at_no_space _ Pl)|].
    cbn [app forallb]. apply andb_true_iff. split; [reflexivity|].
    rewrite forallb_app. apply andb_true_iff.
    split; [exact (not_space_or_at_no_space _ Pd)|].
    cbn [app forallb]. apply andb_true_iff. split; [reflexivity|].
    exact (not_space_or_at_no_space _ Pr).
  - rewrite !length_app. simpl.
    destruct loc, dom, rest; try congruence. simpl. lia.
Qed.

Lemma validateEmail_accepted_shape_witness :
  FormUtils.validateEmail (js "ani@desa.id") = true
  /\ count_occ N.eq_dec (js "ani@desa.id") at_sign = 1
  /\ forallb (fun c => negb (is_whitespace c)) (js "ani@desa.id") = true
  /\ 5 <= length (js "ani@desa.id").
Proof.
  split; [reflexivity|].
  apply validateEmail_accepted_shape. reflexivity.
Defined.

(** ** FormUtils.validatePassword, continued *)

Lemma letter_not_digit (c : code_unit) :
  is_letter c = true -> is_digit c = false.
Proof.
  intros H. apply is_letter_spec in H.
  destruct (is_digit c) eqn:E; [|reflexivity].
  apply is_digit_spec in E. lia.
Qed.

Lemma number_le_trans (x y z : number) :
  number_le x y = true -> number_le y z = true -> number_le x z = true.
Proof.
  destruct x as [|[|]|p], y as [|[|]|q], z as [|[|]|r]; simpl;
    try discriminate; try reflexivity.
  rewrite !Qle_bool_iff. apply Qle_trans.
Qed.

(** X8.  A password that [FormUtils.validatePassword] accepts has at least
    two code units whatever [minLength] is (also zero, negative or
    [NaN]); it has at least [minLength] of them unless [minLength] is
    [NaN]; and it is accepted for every [minLength] that is at most the
    given one. *)
Theorem validatePassword_accepted `{!NumberFormat} (password : jsstring)
    (minLength : option number) :
  isValid (FormUtils.validatePassword password minLength) = true ->
  let m := default (number_of_Z 8) minLength in
  2 <= length password
  /\ (m <> NaN -> number_le m (number_of_nat (length password)) = true)
  /\ (forall smaller,
        number_le smaller m = true ->
        isValid (FormUtils.validatePassword password (Some smaller)) = true).
Proof.
  rewrite validatePassword_isValid. intros Hv m. fold m in Hv.
  apply andb_true_iff in Hv as [Hv Hd]. apply andb_true_iff in Hv as [Hl Ha].
  apply negb_true_iff in Hl.
  assert (Hlen : number_of_nat (length password) <> NaN)
    by (unfold number_of_nat, number_of_Z; congruence).
  split; [|split].
  - apply existsb_exists in Ha as (a & Hina & Ha).
    apply existsb_exists in Hd as (b & Hinb & Hb).
    destruct password as [|x [|y rest]]; simpl; [destruct Hina| |lia].
    destruct Hina as [<-|[]]. destruct Hinb as [<-|[]].
    rewrite (letter_not_digit _ Ha) in Hb. discriminate.
  - intros Hm. rewrite number_lt_le in Hl by assumption.
    apply negb_false_iff in Hl. exact Hl.
  - intros smaller Hs. rewrite validatePassword_isValid, Ha, Hd.
    cbn [default]. rewrite andb_true_r, andb_true_r.
    assert (Hm : m <> NaN)
      by (intros E; rewrite E in Hs; destruct smaller as [|[|]|];
          discriminate).
    assert (Hsm : smaller <> NaN) by (intros E; rewrite E in Hs; discriminate).
    rewrite number_lt_le in Hl |- * by assumption.
    apply negb_false_iff in Hl. rewrite negb_involutive.
    exact (number_le_trans _ _ _ Hs Hl).
Qed.

Lemma validatePassword_accepted_witness :
  isValid
    (FormUtils.validatePassword (format := integer_format) (js "a1")
       (Some (number_of_Z (-3))))
  = true
  /\ 2 <= length (js "a1")
  /\ isValid
       (FormUtils.validatePassword (format := integer_format) (js "a1")
          (Some (Infinity true)))
     = true.
Proof.
  split; [reflexivity|].
  destruct (validatePassword_accepted (H := integer_format) (js "a1")
              (Some (number_of_Z (-3))) eq_refl)
    as (H2 & _ & Hs).
  split; [exact H2|]. apply Hs. reflexivity.
Defined.

(** ** ProfileFormUtils.validateForm, continued *)

Lemma blank_trim (s : jsstring) :
  negb (truthy (trim s)) = forallb is_whitespace s.
Proof.
  apply eq_iff_eq_true.
  rewrite negb_true_iff, truthy_nil_iff. apply trim_nil_iff.
Qed.

Lemma validateEmail_not_blank (email : jsstring) :
  FormUtils.validateEmail email = true ->
  forallb is_whitespace email = false /\ truthy email = true.
Proof.
  intros H. split.
  - destruct (forallb is_whitespace email) eqn:E; [|reflexivity].
    rewrite (validateEmail_whitespace _ E) in H. discriminate.
  - apply validateEmail_at_sign in H. destruct email; [destruct H|reflexivity].
Qed.

(** X9.  [ProfileFormUtils.validateForm] looks at four fields only.  The
    form is valid exactly when the name, the position and the phone are
    not blank and the e-mail passes [FormUtils.validateEmail]; the errors
    come in the fixed order name, position, e-mail required, phone,
    e-mail format, the last one for a non-empty e-mail that fails the
    pattern. *)
Theorem validateForm_characterised (data : ProfileFormData) :
  let r := ProfileFormUtils.validateForm data in
  let blank s := forallb is_whitespace s in
  (isValid r = true <->
     blank (fullName data) = false
     /\ blank (position data) = false
     /\ blank (phone data) = false
     /\ FormUtils.validateEmail (email data) = true)
  /\ errors r
     = (if blank (fullName data) then [js "Nama lengkap wajib diisi"] else [])
       ++ (if blank (position data) then [js "Jabatan wajib diisi"] else [])
       ++ (if blank (email data) then [js "Email wajib diisi"] else [])
       ++ (if blank (phone data) then [js "Nomor telepon wajib diisi"]
           else [])
       ++ (if truthy (email data)
              && negb (FormUtils.validateEmail (email data))
           then [js "Format email tidak valid"] else []).
Proof.
  intros r blank. subst r blank. unfold ProfileFormUtils.validateForm.
  rewrite !blank_trim.
  destruct (FormUtils.validateEmail (email data)) eqn:Ev.
  - destruct (validateEmail_not_blank _ Ev) as [-> ->].
    destruct (forallb is_whitespace (fullName data));
      destruct (forallb is_whitespace (position data));
      destruct (forallb is_whitespace (phone data));
      unfold push; simpl; (split; [|reflexivity]); intuition congruence.
  - destruct (forallb is_whitespace (fullName data));
      destruct (forallb is_whitespace (position data));
      destruct (forallb is_whitespace (phone data));
      destruct (forallb is_whitespace (email data)) eqn:Eb;
      destruct (truthy (email data)) eqn:Et;
      unfold push; simpl; (split; [|reflexivity]);
      try (intuition congruence).
    all: exfalso; destruct (email data); discriminate.
Qed.

(** ** LoadingUtils, continued *)

Lemma setElementLoading_found `{!HTMLParser} (elementId : jsstring)
    (loadingText : option jsstring) (d : Document) (element : node) :
  document_getElementById elementId d = Some element ->
  LoadingUtils.setElementLoading elementId loadingText d
  = (Normal (Some
       {| restore :=
            assign_innerHTML element (el_innerHTML (the d element)) |}),
     world_after
       (assign_innerHTML element
          (spinner (default (js "Loading...") loadingText)))
       d).
Proof.
  intros Hid.
  unfold LoadingUtils.setElementLoading, getElementById, bind, gets.
  rewrite Hid. reflexivity.
Qed.

(** A node that is below another one is in the store. *)
Lemma has_ancestor_allocated (fuel : nat) (d : Document) (a m : node) :
  has_ancestor fuel d a m = true -> m <> a -> is_Some (deref d m).
Proof.
  intros Hb Hne. destruct fuel as [|fuel]; simpl in Hb;
    rewrite bool_decide_eq_false_2 in Hb by exact Hne; simpl in Hb;
    [discriminate|].
  unfold the in Hb. destruct (deref d m) as [e|]; [eauto|discriminate].
Qed.

(** The nodes of the document after an assignment to [innerHTML]: those
    that were there and are not below the element, and new ones. *)
Lemma assign_innerHTML_tree `{!HTMLParser} (element : node)
    (markup : jsstring) (d : Document) (m : node) :
  In m (doc_tree (world_after (assign_innerHTML element markup) d)) ->
  (In m (doc_tree d)
   /\ (has_ancestor (length (doc_tree d)) d element m = false
       \/ m = element))
  \/ deref d m = None.
Proof.
  unfold assign_innerHTML, modify, world_after. cbn [snd].
  rewrite doc_tree_update. cbn [doc_tree with_tree].
  intros Hin. apply in_flat_map in Hin as (m0 & Hm0 & Hin).
  destruct (decide (m0 = element)) as [->|Hne].
  - rewrite bool_decide_eq_true_2 in Hin by reflexivity.
    destruct Hin as [<-|Hin]; [left; auto|].
    right. apply list_elem_of_In, list_elem_of_fmap in Hin as (q & -> & Hq).
    apply fresh_list_is_fresh in Hq. simpl. apply not_elem_of_dom. exact Hq.
  - rewrite bool_decide_eq_false_2 in Hin by exact Hne.
    cbn [negb] in Hin. rewrite andb_true_r in Hin.
    destruct (has_ancestor _ d element m0) eqn:Hb; [destruct Hin|].
    destruct Hin as [<-|[]]. left. auto.
Qed.

Lemma assign_innerHTML_allocated `{!HTMLParser} (element : node)
    (markup : jsstring) (d : Document) (m : node) :
  is_Some (deref d m) ->
  is_Some (deref (world_after (assign_innerHTML element markup) d) m).
Proof.
  intros [e He]. unfold assign_innerHTML, modify, world_after. cbn [snd].
  destruct (decide (element = m)) as [->|Hne].
  - destruct (assign_innerHTML_element m markup d e He) as (e' & He' & _).
    unfold assign_innerHTML, modify, world_after in He'. cbn [snd] in He'.
    eauto.
  - rewrite deref_update_ne by exact Hne. rewrite deref_with_tree.
    destruct m as [|q]; cbn [deref with_heap doc_heap doc_body] in *;
      [eauto|].
    rewrite lookup_union_r.
    + rewrite lookup_fmap, He. simpl. eauto.
    + apply not_elem_of_list_to_map_1. rewrite fst_zip.
      * intros Hq. apply fresh_list_is_fresh in Hq.
        apply Hq, elem_of_dom. eauto.
      * rewrite length_fmap, length_fresh_list. reflexivity.
Qed.

(** The elements below leave the document, and stay out of it after a
    second assignment. *)
Lemma assign_innerHTML_removes `{!HTMLParser} (element : node)
    (markup : jsstring) (d : Document) (m : node) :
  has_ancestor (length (doc_tree d)) d element m = true ->
  m <> element ->
  ~ In m (doc_tree (world_after (assign_innerHTML element markup) d)).
Proof.
  intros Hb Hne Hin.
  apply assign_innerHTML_tree in Hin as [[_ [Hf| ->]]|Hn].
  - congruence.
  - congruence.
  - destruct (has_ancestor_allocated _ _ _ _ Hb Hne) as [e He]. congruence.
Qed.

Lemma assign_innerHTML_stays_out `{!HTMLParser} (element : node)
    (markup : jsstring) (d : Document) (m : node) :
  is_Some (deref d m) ->
  ~ In m (doc_tree d) ->
  ~ In m (doc_tree (world_after (assign_innerHTML element markup) d)).
Proof.
  intros [e He] Hout Hin.
  apply assign_innerHTML_tree in Hin as [[Hin _]|Hn]; [auto|congruence].
Qed.

(** X10.  For an id that names an element, [setElementLoading] assigns the
    spinner markup to [innerHTML] and leaves [disabled] alone; the
    elements that were below the element leave the document.  [restore]
    assigns the captured markup: [innerHTML] then reads what the parser
    reads back from it, its earlier value when the markup reads back
    unchanged, and the elements that were below the element stay out of
    the document (what is below it now is newly parsed). *)
Theorem setElementLoading_restore `{!HTMLParser} (d : Document)
    (elementId : jsstring) (loadingText : option jsstring) (element : node) :
  document_getElementById elementId d = Some element ->
  let name := el_localName (the d element) in
  let original := el_innerHTML (the d element) in
  exists handle,
    let loading :=
      world_after (LoadingUtils.setElementLoading elementId loadingText) d in
    let restored := world_after (restore handle) loading in
    LoadingUtils.setElementLoading elementId loadingText d
    = (Normal (Some handle), loading)
    /\ el_innerHTML (the loading element)
       = serialize_fragment name
           (spinner (default (js "Loading...") loadingText))
    /\ el_disabled (the loading element) = el_disabled (the d element)
    /\ restore handle loading = (Normal tt, restored)
    /\ el_innerHTML (the restored element) = serialize_fragment name original
    /\ (serialize_fragment name original = original ->
        el_innerHTML (the restored element) = original)
    /\ (forall m,
          has_ancestor (length (doc_tree d)) d element m = true ->
          m <> element ->
          ~ In m (doc_tree loading) /\ ~ In m (doc_tree restored)).
Proof.
  intros Hid name original. subst name original.
  destruct (getElementById_Some _ _ _ Hid) as (_ & e & He & _).
  rewrite (the_deref _ _ _ He).
  eexists. unfold world_after at 1 2.
  rewrite (setElementLoading_found _ _ _ _ Hid). cbn [snd restore].
  rewrite (the_deref _ _ _ He).
  set (sp := spinner (default (js "Loading...") loadingText)).
  destruct (assign_innerHTML_element element sp d e He)
    as (e1 & He1 & Hi1 & _ & Hn1 & Hd1 & _).
  destruct (assign_innerHTML_element element (el_innerHTML e) _ e1 He1)
    as (e2 & He2 & Hi2 & _ & _ & _ & _).
  rewrite Hn1 in Hi2.
  pose proof (the_deref _ _ _ He1) as T1.
  pose proof (the_deref _ _ _ He2) as T2.
  split; [reflexivity|].
  split; [exact (eq_trans (f_equal el_innerHTML T1) Hi1)|].
  split; [exact (eq_trans (f_equal el_disabled T1) Hd1)|].
  split; [reflexivity|].
  split; [exact (eq_trans (f_equal el_innerHTML T2) Hi2)|].
  split;
    [intros E; exact (eq_trans (eq_trans (f_equal el_innerHTML T2) Hi2) E)|].
  intros m Hb Hne.
  pose proof (assign_innerHTML_removes element sp d m Hb Hne) as Hout.
  split; [exact Hout|].
  apply assign_innerHTML_stays_out; [|exact Hout].
  apply assign_innerHTML_allocated.
  exact (has_ancestor_allocated _ _ _ _ Hb Hne).
Qed.

Lemma setElementLoading_restore_witness :
  document_getElementById (js "editModal") nested_document = Some (Ref 3)
  /\ document_getElementById (js "nama") nested_document = Some (Ref 4)
  /\ document_getElementById (js "nama")
       (world_after
          (LoadingUtils.setElementLoading (parser := sample_parser)
             (js "editModal") None)
          nested_document)
     = None.
Proof.
  assert (H : document_getElementById (js "editModal") nested_document
              = Some (Ref 3)) by (vm_compute; reflexivity).
  split; [exact H|]. split; [vm_compute; reflexivity|].
  destruct (setElementLoading_restore (H := sample_parser) nested_document
              (js "editModal") None (Ref 3) H) as (handle & C).
  destruct C as (_ & _ & _ & _ & _ & _ & C).
  destruct (C (Ref 4)) as [Hout _]; [vm_compute; reflexivity|discriminate|].
  destruct (document_getElementById (js "nama") _) as [n|] eqn:E;
    [|reflexivity].
  exfalso. destruct (getElementById_Some _ _ _ E) as (Hin & e & He & Hi & _).
  revert Hin He Hi. vm_compute.
  intros [<-|[<-|[<-|[<-|[<-|[]]]]]]; intros [= <-]; vm_compute;
    discriminate.
Defined.

(** On the sample page with the name input in its modal: the input reads
    'Ani'; while the modal is loading no element carries its id; after
    [restore] the id names an input that the parser has newly made, which
    is empty. *)
Example setElementLoading_sample :
  let loading :=
    world_after
      (LoadingUtils.setElementLoading (parser := sample_parser)
         (js "editModal") None)
      nested_document in
  let restored :=
    world_after
      (element_round_trip (parser := sample_parser) (js "editModal") None)
      nested_document in
  document_getElementById (js "nama") nested_document = Some (Ref 4)
  /\ result_of (getInputValue (js "nama")) nested_document
     = Normal (VString (js "Ani"))
  /\ document_getElementById (js "nama") loading = None
  /\ doc_tree loading = [Body; Ref 1; Ref 2; Ref 3; Ref 5]
  /\ document_getElementById (js "nama") restored = Some (Ref 6)
  /\ result_of (getInputValue (js "nama")) restored = Normal (VString [])
  /\ doc_tree restored = [Body; Ref 1; Ref 2; Ref 3; Ref 6].
Proof. vm_compute. repeat split. Qed.

(** ** ModalUtils, continued *)








(** ** showNotification, continued *)

Lemma find_app_Some {A} (f : A -> bool) (l1 l2 : list A) (x : A) :
  List.find f l1 = Some x -> List.find f (l1 ++ l2) = Some x.
Proof.
  induction l1 as [|a l1 IH]; simpl; [discriminate|].
  destruct (f a); [auto|exact IH].
Qed.

Lemma filter_other {A} `{EqDecision A} (n : A) (l : list A) :
  ~ In n l ->
  List.filter (fun m => negb (bool_decide (m = n))) l = l.
Proof.
  induction l as [|a l IH]; simpl; intros Hn; [reflexivity|].
  rewrite bool_decide_eq_false_2 by (intros ->; apply Hn; left; reflexivity).
  simpl. f_equal. apply IH. intros Hin. apply Hn. right. exact Hin.
Qed.

(** The objects that were in the store are as they were after
    [showNotification], whether it ends normally or throws. *)
Lemma showNotification_old `{!HTMLParser} (message : jsstring)
    (type : option NotificationType) (duration : option number) (t : Tab)
    (m : node) :
  is_Some (deref (tab_document t) m) ->
  deref (tab_document (world_after (showNotification message type duration) t))
    m
  = deref (tab_document t) m.
Proof.
  intros Hm. unfold world_after.
  destruct m as [|q];
    [destruct (tab_body t) eqn:Hb;
     [rewrite (showNotification_body _ _ _ _ Hb)
     |rewrite (showNotification_no_body _ _ _ _ Hb)]; reflexivity|].
  assert (Hqp : q <> fresh (dom (doc_heap (tab_document t)))).
  { intros ->. destruct Hm as [e He].
    pose proof (notification_fresh t) as Hf. cbv zeta in Hf.
    simpl in He. rewrite Hf in He. discriminate. }
  pose proof (notification_h2_old message type t q Hm) as Ho.
  cbv zeta in Ho.
  destruct (tab_body t) eqn:Hb.
  - rewrite (showNotification_body _ _ _ _ Hb). cbn [snd tab_document].
    rewrite deref_with_timers, deref_with_tree.
    cbn [deref with_heap doc_heap].
    rewrite lookup_alter_ne by congruence. exact Ho.
  - rewrite (showNotification_no_body _ _ _ _ Hb). cbn [snd tab_document].
    cbn [deref with_heap doc_heap]. exact Ho.
Qed.

Lemma find_app_skip {A} (f : A -> bool) (before new after : list A) :
  (forall x, In x new -> f x = false) ->
  List.find f (before ++ new ++ after) = List.find f (before ++ after).
Proof.
  intros Hn. induction before as [|a l IH]; simpl.
  - induction new as [|x new IHn]; simpl; [reflexivity|].
    rewrite (Hn x) by (left; reflexivity).
    apply IHn. intros y Hy. apply Hn. right. exact Hy.
  - destruct (f a); [reflexivity|exact IH].
Qed.

(** The document tree after [showNotification] on a page with a body:
    the earlier nodes in their order, and among them the notification,
    which carries no id, followed by the elements parsed from the
    markup. *)
Lemma showNotification_tree `{!HTMLParser} (message : jsstring)
    (type : option NotificationType) (duration : option number) (t : Tab) :
  tab_body t = true ->
  let d := tab_document t in
  let d' :=
    tab_document (world_after (showNotification message type duration) t) in
  let notification := Ref (fresh (dom (doc_heap d))) in
  exists refs before after,
    List.filter (fun m => negb (bool_decide (m = notification))) (doc_tree d)
    = before ++ after
    /\ doc_tree d' = before ++ (notification :: (Ref <$> refs)) ++ after
    /\ (exists e, deref d' notification = Some e /\ el_id e = [])
    /\ (forall q,
          In q refs ->
          exists pe,
            In pe
              (parse_fragment (js "div")
                 (notification_innerHTML (default success type) message))
            /\ deref d' (Ref q) = Some (place notification refs pe)).
Proof.
  intros Hb d d' notification. subst d' notification. unfold world_after.
  rewrite (showNotification_body _ _ _ _ Hb). cbn [snd tab_document].
  cbn [doc_tree with_timers with_tree].
  match goal with
  | |- context [appended_to_body ?a ?b ?c] =>
      destruct (appended_to_body_split a b c)
        as (before & after & Esplit & Etree & _)
  end.
  eexists _, before, after.
  split; [exact Esplit|]. split; [exact Etree|]. split.
  - eexists. split.
    + rewrite deref_with_timers, deref_with_tree.
      cbn [deref with_heap doc_heap].
      rewrite lookup_alter_eq, (notification_h2_p message type t).
      reflexivity.
    + reflexivity.
  - intros q Hq. apply list_elem_of_In, list_elem_of_lookup in Hq as [i Hq].
    destruct (lookup_lt_is_Some_2
                (parse_fragment (js "div")
                   (notification_innerHTML (default success type) message))
                i)
      as [pe Hpe].
    { apply lookup_lt_Some in Hq. rewrite length_fresh_list in Hq.
      exact Hq. }
    exists pe. split.
    + apply list_elem_of_In, list_elem_of_lookup. eauto.
    + rewrite deref_with_timers, deref_with_tree.
      cbn [deref with_heap doc_heap].
      assert (Hqp : fresh (dom (doc_heap d)) <> q).
      { apply not_eq_sym, (notification_refs_new message type t).
        apply list_elem_of_lookup. eauto. }
      rewrite (lookup_alter_ne _ _ _ _ Hqp).
      exact (notification_h2_parsed message type t i q pe Hq Hpe).
Qed.

(** X14.  [showNotification] leaves the lookups by id as they were, save
    for the ids that the message brings with it: in a document all of
    whose nodes are in the store, an id that no element parsed from the
    markup of the notification carries names after the call what it
    named before (the same element, or none), whether the call ends
    normally or throws. *)
Theorem showNotification_keeps_lookups `{!HTMLParser} (message : jsstring)
    (type : option NotificationType) (duration : option number) (t : Tab)
    (id : jsstring) :
  (forall m, In m (doc_tree (tab_document t)) ->
             is_Some (deref (tab_document t) m)) ->
  (forall pe,
     In pe
       (parse_fragment (js "div")
          (notification_innerHTML (default success type) message)) ->
     el_id (parsed_element pe) <> id) ->
  let d' :=
    tab_document (world_after (showNotification message type duration) t) in
  document_getElementById id d' = document_getElementById id (tab_document t).
Proof.
  intros Hwf Hids d'. subst d'.
  unfold document_getElementById.
  assert (Hold : forall m, In m (doc_tree (tab_document t)) ->
            has_id
              (tab_document
                 (world_after (showNotification message type duration) t))
              id m
            = has_id (tab_document t) id m).
  { intros m Hm. unfold has_id.
    rewrite showNotification_old by (apply Hwf; exact Hm). reflexivity. }
  destruct (tab_body t) eqn:Hb.
  - destruct (showNotification_tree message type duration t Hb)
      as (refs & before & after & Esplit & -> & (e & He & Hie) & Hrefs).
    rewrite filter_other in Esplit.
    2:{ intros Hin. apply Hwf in Hin as [e0 He0].
        rewrite createElement_fresh in He0. discriminate. }
    rewrite find_app_skip.
    + rewrite Esplit. apply find_ext. intros m Hm. apply Hold.
      rewrite Esplit. exact Hm.
    + intros x [<-|Hx]; unfold has_id.
      * rewrite He, Hie. destruct id as [|c i]; [reflexivity|].
        apply andb_false_intro2, bool_decide_eq_false_2. discriminate.
      * apply list_elem_of_In, list_elem_of_fmap in Hx as (q & -> & Hq).
        apply list_elem_of_In in Hq.
        destruct (Hrefs q Hq) as (pe & Hpe & ->).
        apply andb_false_intro2, bool_decide_eq_false_2.
        unfold place. cbn [el_id set_parentNode]. exact (Hids pe Hpe).
  - unfold world_after in *.
    rewrite (showNotification_no_body _ _ _ _ Hb) in *.
    cbn [snd tab_document doc_tree with_heap] in *.
    apply find_ext. exact Hold.
Qed.

Lemma showNotification_keeps_lookups_witness :
  document_getElementById (js "saveBtn")
    (tab_document
       (world_after
          (showNotification (parser := sample_parser) (js "Tersimpan") None
             None)
          sample_tab))
  = Some (Ref 2).
Proof.
  assert (H : document_getElementById (js "saveBtn") (tab_document sample_tab)
              = Some (Ref 2)) by (vm_compute; reflexivity).
  rewrite <- H.
  apply (showNotification_keeps_lookups (H := sample_parser) (js "Tersimpan")
           None None sample_tab (js "saveBtn")).
  - intros m Hm. simpl in Hm.
    destruct Hm as [<-|[<-|[<-|[<-|[]]]]]; vm_compute; eauto.
  - intros pe Hpe. vm_compute in Hpe.
    destruct Hpe as [<-|[<-|[]]]; vm_compute; discriminate.
Defined.

(** ** StorageUtils, continued *)

Lemma set_true {S : Type} `{!Storage S} (key value : jsstring)
    (w : Window S) :
  result_of (StorageUtils.set key value) w = Normal true ->
  exists s',
    setItem key value (localStorage w) = (Normal tt, s')
    /\ world_after (StorageUtils.set key value) w = with_localStorage s' w.
Proof.
  unfold result_of, world_after. rewrite set_run.
  destruct (setItem key value (localStorage w)) as [[[]|e] s'];
    [|discriminate].
  intros _. exists s'. split; reflexivity.
Qed.

Lemma remove_true {S : Type} `{!Storage S} (key : jsstring) (w : Window S) :
  result_of (StorageUtils.remove key) w = Normal true ->
  exists s',
    removeItem key (localStorage w) = (Normal tt, s')
    /\ world_after (StorageUtils.remove key) w = with_localStorage s' w.
Proof.
  unfold result_of, world_after. rewrite remove_run.
  destruct (removeItem key (localStorage w)) as [[[]|e] s'];
    [|discriminate].
  intros _. exists s'. split; reflexivity.
Qed.

Lemma setJSON_true {S V : Type} `{!Storage S, !JSON V} (key : jsstring)
    (val : V) (w : Window S) :
  result_of (StorageUtils.setJSON key val) w = Normal true ->
  exists text s',
    JSON_stringify val = Normal text
    /\ setItem key text (localStorage w) = (Normal tt, s')
    /\ world_after (StorageUtils.setJSON key val) w = with_localStorage s' w.
Proof.
  unfold result_of, world_after. rewrite setJSON_run.
  destruct (JSON_stringify val) as [text|e] eqn:Et; [|discriminate].
  destruct (setItem key text (localStorage w)) as [[[]|e] s'] eqn:Es;
    [|discriminate].
  intros _. exists text, s'. split; [reflexivity|]. split; [exact Es|].
  reflexivity.
Qed.

(** The laws of a storage area that the round trips rest on. *)
Lemma MemStorage_set_get (key value : jsstring) (s s' : MemStorage) :
  setItem key value s = (Normal tt, s') ->
  getItem key s' = (Normal (Some value), s').
Proof.
  cbn [setItem getItem MemStorage_Storage].
  destruct (ms_denied s) eqn:Ed; [discriminate|].
  destruct (ms_quota s <? ms_used (<[key:=value]> (ms_items s)));
    [discriminate|].
  intros [= <-]. cbn [ms_denied ms_items]. rewrite ?Ed, lookup_insert_eq.
  reflexivity.
Qed.

Lemma MemStorage_remove_get (key : jsstring) (s s' : MemStorage) :
  removeItem key s = (Normal tt, s') ->
  getItem key s' = (Normal None, s').
Proof.
  cbn [removeItem getItem MemStorage_Storage].
  destruct (ms_denied s) eqn:Ed; [discriminate|].
  intros [= <-]. cbn [ms_denied ms_items]. rewrite ?Ed, lookup_delete_eq.
  reflexivity.
Qed.

Lemma JsonLiteral_round_trip (v : JsonLiteral) (text : jsstring) :
  JSON_stringify v = Normal text -> text <> [] /\ JSON_parse text = Normal v.
Proof.
  destruct v as [|[]]; intros [= <-]; split;
    solve [discriminate | vm_compute; reflexivity].
Qed.

(** X16.  Over a storage area where an item that was set is the item
    read, a call of [StorageUtils.set] that returns [true] makes
    [StorageUtils.get] of the same key return the value set. *)
Theorem StorageUtils_set_then_get {S : Type} `{!Storage S}
    (w : Window S) (key value : jsstring) :
  (forall k v s s',
     setItem k v s = (Normal tt, s') ->
     getItem k s' = (Normal (Some v), s')) ->
  result_of (StorageUtils.set key value) w = Normal true ->
  let w' := world_after (StorageUtils.set key value) w in
  StorageUtils.get key w' = (Normal (Some value), w').
Proof.
  intros Hlaw Hset w'. subst w'.
  apply set_true in Hset as (s' & Hs & ->).
  rewrite get_run. cbn [localStorage with_localStorage].
  rewrite (Hlaw _ _ _ _ Hs). reflexivity.
Qed.

Lemma StorageUtils_set_then_get_witness :
  (forall k v (s s' : MemStorage),
     setItem k v s = (Normal tt, s') ->
     getItem k s' = (Normal (Some v), s'))
  /\ result_of (StorageUtils.set (js "tema") (js "gelap")) sample_window
     = Normal true
  /\ result_of (StorageUtils.get (js "tema"))
       (world_after (StorageUtils.set (js "tema") (js "gelap")) sample_window)
     = Normal (Some (js "gelap")).
Proof.
  assert (H : result_of (StorageUtils.set (js "tema") (js "gelap"))
                sample_window = Normal true) by (vm_compute; reflexivity).
  split; [exact MemStorage_set_get|]. split; [exact H|].
  unfold result_of at 1.
  rewrite (StorageUtils_set_then_get sample_window (js "tema") (js "gelap")
             MemStorage_set_get H).
  reflexivity.
Defined.

(** X17.  Over a storage area where a removed item reads as absent, a
    call of [StorageUtils.remove] that returns [true] makes both
    [StorageUtils.get] and [StorageUtils.getJSON] of the key return
    [null], without a console entry. *)
Theorem StorageUtils_remove_then_get {S V : Type} `{!Storage S, !JSON V}
    (w : Window S) (key : jsstring) :
  (forall k s s',
     removeItem k s = (Normal tt, s') -> getItem k s' = (Normal None, s')) ->
  result_of (StorageUtils.remove key) w = Normal true ->
  let w' := world_after (StorageUtils.remove key) w in
  StorageUtils.get key w' = (Normal None, w')
  /\ StorageUtils.getJSON (V := V) key w' = (Normal None, w').
Proof.
  intros Hlaw Hrm w'. subst w'.
  apply remove_true in Hrm as (s' & Hs & ->).
  rewrite get_run, getJSON_run. cbn [localStorage with_localStorage].
  rewrite (Hlaw _ _ _ Hs). split; reflexivity.
Qed.

Lemma StorageUtils_remove_then_get_witness :
  (forall k (s s' : MemStorage),
     removeItem k s = (Normal tt, s') -> getItem k s' = (Normal None, s'))
  /\ result_of (StorageUtils.remove (js "darkMode")) sample_window
     = Normal true
  /\ result_of (StorageUtils.get (js "darkMode"))
       (world_after (StorageUtils.remove (js "darkMode")) sample_window)
     = Normal None.
Proof.
  assert (H : result_of (StorageUtils.remove (js "darkMode")) sample_window
              = Normal true) by (vm_compute; reflexivity).
  split; [exact MemStorage_remove_get|]. split; [exact H|].
  unfold result_of at 1.
  destruct (StorageUtils_remove_then_get (V := JsonLiteral) sample_window
              (js "darkMode") MemStorage_remove_get H) as [-> _].
  reflexivity.
Defined.

(** X18.  Over such a storage area, and a [JSON] whose [stringify] output
    is never empty and parses back to the value, a call of
    [StorageUtils.setJSON] that returns [true] makes
    [StorageUtils.getJSON] of the same key return the value stored. *)
Theorem StorageUtils_setJSON_then_getJSON {S V : Type}
    `{!Storage S, !JSON V} (w : Window S) (key : jsstring) (val : V) :
  (forall k v s s',
     setItem k v s = (Normal tt, s') ->
     getItem k s' = (Normal (Some v), s')) ->
  (forall (v : V) text,
     JSON_stringify v = Normal text ->
     text <> [] /\ JSON_parse text = Normal v) ->
  result_of (StorageUtils.setJSON key val) w = Normal true ->
  let w' := world_after (StorageUtils.setJSON key val) w in
  StorageUtils.getJSON key w' = (Normal (Some val), w').
Proof.
  intros Hlaw Hjson Hset w'. subst w'.
  apply setJSON_true in Hset as (text & s' & Ht & Hs & ->).
  rewrite getJSON_run. cbn [localStorage with_localStorage].
  rewrite (Hlaw _ _ _ _ Hs).
  destruct (Hjson _ _ Ht) as [Hne Hparse].
  destruct text as [|c text]; [congruence|].
  cbn [truthy]. rewrite Hparse. reflexivity.
Qed.

Lemma StorageUtils_setJSON_then_getJSON_witness :
  (forall k v (s s' : MemStorage),
     setItem k v s = (Normal tt, s') ->
     getItem k s' = (Normal (Some v), s'))
  /\ (forall (v : JsonLiteral) text,
        JSON_stringify v = Normal text ->
        text <> [] /\ JSON_parse text = Normal v)
  /\ result_of (StorageUtils.setJSON (js "2fa") (JBool false)) sample_window
     = Normal true
  /\ result_of (StorageUtils.getJSON (js "2fa"))
       (world_after (StorageUtils.setJSON (js "2fa") (JBool false))
          sample_window)
     = Normal (Some (JBool false)).
Proof.
  assert (H : result_of (StorageUtils.setJSON (js "2fa") (JBool false))
                sample_window = Normal true) by (vm_compute; reflexivity).
  split; [exact MemStorage_set_get|].
  split; [exact JsonLiteral_round_trip|]. split; [exact H|].
  unfold result_of at 1.
  rewrite (StorageUtils_setJSON_then_getJSON sample_window (js "2fa")
             (JBool false) MemStorage_set_get JsonLiteral_round_trip H).
  reflexivity.
Defined.

(** X19.  The empty string is stored but not read back as JSON: over such
    a storage area, after [StorageUtils.set] of the empty string has
    returned [true], [StorageUtils.get] returns the empty string while
    [StorageUtils.getJSON] returns [null] as for an absent key, without
    calling the parser and without a console entry. *)
Theorem StorageUtils_empty_string {S V : Type} `{!Storage S, !JSON V}
    (w : Window S) (key : jsstring) :
  (forall k v s s',
     setItem k v s = (Normal tt, s') ->
     getItem k s' = (Normal (Some v), s')) ->
  result_of (StorageUtils.set key []) w = Normal true ->
  let w' := world_after (StorageUtils.set key []) w in
  StorageUtils.get key w' = (Normal (Some []), w')
  /\ StorageUtils.getJSON (V := V) key w' = (Normal None, w').
Proof.
  intros Hlaw Hset w'. subst w'.
  apply set_true in Hset as (s' & Hs & ->).
  rewrite get_run, getJSON_run. cbn [localStorage with_localStorage].
  rewrite (Hlaw _ _ _ _ Hs). split; reflexivity.
Qed.

Lemma StorageUtils_empty_string_witness :
  (forall k v (s s' : MemStorage),
     setItem k v s = (Normal tt, s') ->
     getItem k s' = (Normal (Some v), s'))
  /\ result_of (StorageUtils.set (js "catatan") []) sample_window
     = Normal true
  /\ result_of (StorageUtils.getJSON (V := JsonLiteral) (js "catatan"))
       (world_after (StorageUtils.set (js "catatan") []) sample_window)
     = Normal None.
Proof.
  assert (H : result_of (StorageUtils.set (js "catatan") []) sample_window
              = Normal true) by (vm_compute; reflexivity).
  split; [exact MemStorage_set_get|]. split; [exact H|].
  unfold result_of at 1.
  destruct (StorageUtils_empty_string (V := JsonLiteral) sample_window
              (js "catatan") MemStorage_set_get H) as [_ ->].
  reflexivity.
Defined.

(** ** FormUtils.validateRequired, continued *)

Lemma forallb_ext_in {A} (f g : A -> bool) (l : list A) :
  (forall x, In x l -> f x = g x) -> forallb f l = forallb g l.
Proof.
  induction l as [|a l IH]; intros H; simpl; [reflexivity|].
  rewrite (H a) by (left; reflexivity). f_equal.
  apply IH. intros x Hx. apply H. right. exact Hx.
Qed.

(** X21.  After [setInputValue] on a control that keeps its value as a
    string, [FormUtils.validateRequired] reports the id as missing exactly
    when it is among the ids asked for and what the control has made of
    the value written is blank; for every other id the report is what it
    was before the write.  (The ids asked for are such that
    [validateRequired] returns on the document before the write.) *)
Theorem validateRequired_after_setInputValue (d : Document)
    (id v : jsstring) (el : node) (sanitize : jsstring -> jsstring)
    (old : jsstring) (ids : list jsstring) :
  document_getElementById id d = Some el ->
  el_value (the d el) = Control sanitize old ->
  forallb (string_valued d) ids = true ->
  let d' := world_after (setInputValue id v) d in
  exists before after,
    FormUtils.validateRequired ids d = (Normal before, d)
    /\ FormUtils.validateRequired ids d' = (Normal after, d')
    /\ (In id (missingFields after) <->
        In id ids /\ forallb is_whitespace (sanitize v) = true)
    /\ (forall other, other <> id ->
          (In other (missingFields after) <->
           In other (missingFields before))).
Proof.
  intros H E Hs d'. subst d'. unfold world_after.
  rewrite setInputValue_unfold, H, E. cbn [value_assign snd].
  set (d' := update el (set_value (Control sanitize (sanitize v))) d).
  assert (Hown : input_value id d' = VString (sanitize v)).
  { unfold input_value, d'. rewrite (value_at_update _ _ _ _ H).
    cbn [value_read]. apply or_value_string. }
  assert (Hother : forall other, other <> id ->
                     input_value other d' = input_value other d).
  { intros other Hne. unfold input_value. f_equal.
    apply keeps_value_at. apply (update_keeps other id);
      [exact H|congruence|reflexivity]. }
  assert (Hs' : forallb (string_valued d') ids = true).
  { rewrite <- Hs. apply forallb_ext_in. intros x Hx.
    unfold string_valued. destruct (decide (x = id)) as [->|Hne].
    - rewrite Hown. rewrite forallb_forall in Hs. specialize (Hs _ Hx).
      unfold string_valued in Hs. rewrite Hs. reflexivity.
    - rewrite (Hother _ Hne). reflexivity. }
  rewrite !validateRequired_run, Hs, Hs'. do 2 eexists.
  split; [reflexivity|]. split; [reflexivity|].
  cbn [missingFields]. split.
  - rewrite filter_In. unfold trims_to_empty. rewrite Hown.
    rewrite bool_decide_eq_true, trim_nil_iff. reflexivity.
  - intros other Hne. rewrite !filter_In. unfold trims_to_empty.
    rewrite (Hother _ Hne). reflexivity.
Qed.

Lemma validateRequired_after_setInputValue_witness :
  document_getElementById (js "modalEmail") sample_document = Some (Ref 1)
  /\ exists after,
       FormUtils.validateRequired [js "modalEmail"]
         (world_after (setInputValue (js "modalEmail") newline)
            sample_document)
       = (Normal after,
          world_after (setInputValue (js "modalEmail") newline)
            sample_document)
       /\ In (js "modalEmail") (missingFields after).
Proof.
  assert (H : document_getElementById (js "modalEmail") sample_document
              = Some (Ref 1)) by (vm_compute; reflexivity).
  split; [exact H|].
  destruct (validateRequired_after_setInputValue sample_document
              (js "modalEmail") newline (Ref 1) strip_newlines
              (js "ani@desa.id") [js "modalEmail"] H eq_refl eq_refl)
    as (before & after & _ & E & M & _).
  exists after. split; [exact E|].
  apply M. split; [left; reflexivity|reflexivity].
Defined.

(** ** AnimationUtils *)

Lemma fadeIn_found (elementId : jsstring) (duration : option Z) (p : Page)
    (element : node) :
  document_getElementById elementId (page_document p) = Some element ->
  AnimationUtils.fadeIn elementId duration p
  = (Normal tt,
     {| page_document :=
          update element remove_hidden
            (update element (style_assign set_opacity (js "0"))
               (page_document p));
        page_transition :=
          (element,
           js "opacity " ++ Number_toString (default 300%Z duration)
             ++ js "ms ease")
          :: page_transition p;
        page_timers :=
          page_timers p
            ++ [{| anim_delay := 10%Z;
                   anim_callback := FadeInShow element |}] |}).
Proof.
  intros H. unfold AnimationUtils.fadeIn, on_document, getElementById, gets.
  cbv [bind]. rewrite H. reflexivity.
Qed.

Lemma fadeOut_found (elementId : jsstring) (duration : option Z)
    (hideAfter : option bool) (p : Page) (element : node) :
  document_getElementById elementId (page_document p) = Some element ->
  AnimationUtils.fadeOut elementId duration hideAfter p
  = (Normal tt,
     {| page_document :=
          update element (style_assign set_opacity (js "0"))
            (page_document p);
        page_transition :=
          (element,
           js "opacity " ++ Number_toString (default 300%Z duration)
             ++ js "ms ease")
          :: page_transition p;
        page_timers :=
          if default true hideAfter
          then page_timers p
                 ++ [{| anim_delay := default 300%Z duration;
                        anim_callback := FadeOutHide element |}]
          else page_timers p |}).
Proof.
  intros H. unfold AnimationUtils.fadeOut, on_document, getElementById, gets.
  cbv [bind]. rewrite H. destruct (default true hideAfter); reflexivity.
Qed.

Lemma slideUp_found (elementId : jsstring) (duration : option Z) (p : Page)
    (element : node) :
  document_getElementById elementId (page_document p) = Some element ->
  AnimationUtils.slideUp elementId duration p
  = (Normal tt,
     {| page_document :=
          update element (style_assign set_opacity (js "0"))
            (update element
               (style_assign set_transform (js "translateY(-20px)"))
               (page_document p));
        page_transition :=
          (element,
           js "transform " ++ Number_toString (default 300%Z duration)
             ++ js "ms ease, opacity "
             ++ Number_toString (default 300%Z duration) ++ js "ms ease")
          :: page_transition p;
        page_timers :=
          page_timers p
            ++ [{| anim_delay := default 300%Z duration;
                   anim_callback := SlideUpHide element |}] |}).
Proof.
  intros H. unfold AnimationUtils.slideUp, on_document, getElementById, gets.
  cbv [bind]. rewrite H. reflexivity.
Qed.

(** X22.  For an id that names no element, [fadeIn], [fadeOut] and
    [slideUp] do nothing: the document, the transition styles and the
    timers are as they were. *)
Theorem animation_absent_element (p : Page) (elementId : jsstring) :
  document_getElementById elementId (page_document p) = None ->
  (forall duration,
     AnimationUtils.fadeIn elementId duration p = (Normal tt, p))
  /\ (forall duration hideAfter,
        AnimationUtils.fadeOut elementId duration hideAfter p
        = (Normal tt, p))
  /\ (forall duration,
        AnimationUtils.slideUp elementId duration p = (Normal tt, p)).
Proof.
  intros H.
  unfold AnimationUtils.fadeIn, AnimationUtils.fadeOut,
    AnimationUtils.slideUp, on_document, getElementById, gets.
  cbv [bind]. rewrite H. destruct p. repeat split.
Qed.

Lemma animation_absent_element_witness :
  document_getElementById (js "sidebar") (page_document sample_page) = None
  /\ AnimationUtils.fadeOut (js "sidebar") None None sample_page
     = (Normal tt, sample_page).
Proof.
  assert (H : document_getElementById (js "sidebar")
                (page_document sample_page) = None)
    by (vm_compute; reflexivity).
  split; [exact H|].
  apply (animation_absent_element sample_page (js "sidebar") H).
Defined.

Lemma transition_of_latest (element : node) (v : jsstring)
    (l : list (node * jsstring)) (d : Document) (t : list AnimationTimer) :
  transition_of element
    {| page_document := d; page_transition := (element, v) :: l;
       page_timers := t |}
  = Some v.
Proof.
  unfold transition_of. cbn [page_transition List.find fst].
  rewrite bool_decide_eq_true_2 by reflexivity. reflexivity.
Qed.

Lemma run_FadeInShow (element : node) (p : Page) :
  run_animation_callback (FadeInShow element) p
  = (Normal tt,
     with_document
       (update element (style_assign set_opacity (js "1")) (page_document p))
       p).
Proof. reflexivity. Qed.

Lemma run_add_hidden (element : node) (p : Page) :
  run_animation_callback (FadeOutHide element) p
  = (Normal tt, with_document (update element add_hidden (page_document p)) p)
  /\ run_animation_callback (SlideUpHide element) p
     = (Normal tt,
        with_document (update element add_hidden (page_document p)) p).
Proof. split; reflexivity. Qed.

Lemma opacity_assigned (element : node) (v : jsstring) (d : Document) :
  is_Some (deref d element) ->
  opacity (el_style (the (update element (style_assign set_opacity v) d)
                       element))
  = v.
Proof. intros H. rewrite the_update_at by exact H. reflexivity. Qed.

Lemma hidden_after_remove (d : Document) (element : node) :
  is_Some (deref d element) ->
  ~ In (js "hidden") (el_classList (the (update element remove_hidden d)
                                      element)).
Proof.
  intros H. rewrite the_update_at by exact H.
  unfold remove_hidden. cbn [el_classList set_classList].
  rewrite token_remove_In. tauto.
Qed.

Lemma hidden_after_add (d : Document) (element : node) :
  is_Some (deref d element) ->
  In (js "hidden") (el_classList (the (update element add_hidden d) element)).
Proof.
  intros H. rewrite the_update_at by exact H.
  unfold add_hidden. cbn [el_classList set_classList].
  rewrite token_add_In. tauto.
Qed.

Lemma is_Some_deref_update (n m : node) f (d : Document) :
  is_Some (deref d m) -> is_Some (deref (update n f d) m).
Proof.
  intros [e He]. destruct (decide (n = m)) as [->|Hne].
  - rewrite deref_update_eq, He. eauto.
  - rewrite deref_update_ne by exact Hne. eauto.
Qed.

(** X23.  For an id that names an element, [fadeIn] sets the opacity to
    '0', takes the class 'hidden' off and queues one timer of 10 ms; for a
    duration of magnitude below two to the 53 (300 when omitted) it sets
    the transition to 'opacity', the digits of the duration and 'ms
    ease'.  When the timer fires the opacity becomes '1' and the class
    list stays as it is, so the element ends shown. *)
Theorem fadeIn_then_timer (p : Page) (elementId : jsstring)
    (duration : option Z) (element : node) :
  document_getElementById elementId (page_document p) = Some element ->
  let p1 := world_after (AnimationUtils.fadeIn elementId duration) p in
  let p2 := world_after (run_animation_callback (FadeInShow element)) p1 in
  AnimationUtils.fadeIn elementId duration p = (Normal tt, p1)
  /\ page_timers p1
     = page_timers p
       ++ [{| anim_delay := 10%Z; anim_callback := FadeInShow element |}]
  /\ ((Z.abs (default 300%Z duration) < 2 ^ 53)%Z ->
      transition_of element p1
      = Some (js "opacity " ++ Number_toString (default 300%Z duration)
                ++ js "ms ease"))
  /\ opacity (el_style (the (page_document p1) element)) = js "0"
  /\ ~ In (js "hidden") (el_classList (the (page_document p1) element))
  /\ run_animation_callback (FadeInShow element) p1 = (Normal tt, p2)
  /\ opacity (el_style (the (page_document p2) element)) = js "1"
  /\ el_classList (the (page_document p2) element)
     = el_classList (the (page_document p1) element)
  /\ page_timers p2 = page_timers p1.
Proof.
  intros H p1 p2. subst p2 p1. unfold world_after.
  rewrite (fadeIn_found _ _ _ _ H). cbn [snd].
  rewrite run_FadeInShow. cbn [snd page_document page_timers with_document].
  destruct (getElementById_Some _ _ _ H) as (_ & e & He & _).
  assert (Hs : is_Some (deref (page_document p) element)) by eauto.
  split; [reflexivity|]. split; [reflexivity|].
  split; [intros _; apply transition_of_latest|]. split.
  { rewrite (the_update_slot (fun e => opacity (el_style e)))
      by (intros [? ? ? ? ? ? ? ? ? [] ?]; reflexivity).
    apply opacity_assigned. exact Hs. }
  split; [apply hidden_after_remove, is_Some_deref_update; exact Hs|].
  split; [reflexivity|]. split.
  { apply opacity_assigned. do 2 apply is_Some_deref_update. exact Hs. }
  split; [|reflexivity].
  apply (the_update_slot el_classList). intros []. reflexivity.
Qed.

Lemma fadeIn_then_timer_witness :
  document_getElementById (js "editModal") (page_document sample_page)
  = Some (Ref 3)
  /\ opacity
       (el_style
          (the
             (page_document
                (world_after (run_animation_callback (FadeInShow (Ref 3)))
                   (world_after (AnimationUtils.fadeIn (js "editModal") None)
                      sample_page)))
             (Ref 3)))
     = js "1".
Proof.
  assert (H : document_getElementById (js "editModal")
                (page_document sample_page) = Some (Ref 3))
    by (vm_compute; reflexivity).
  split; [exact H|].
  apply (fadeIn_then_timer sample_page (js "editModal") None (Ref 3) H).
Defined.

(** X24.  For an id that names an element, [fadeOut] sets the opacity to
    '0' and leaves the class list alone.  With [hideAfter] false it
    queues no timer, so the element never gets the class 'hidden'; with
    [hideAfter] true or omitted it queues one timer with the given
    duration (300 when omitted), and when that timer fires the element
    gets the class 'hidden'. *)
Theorem fadeOut_then_timer (p : Page) (elementId : jsstring)
    (duration : option Z) (hideAfter : option bool) (element : node) :
  document_getElementById elementId (page_document p) = Some element ->
  let p1 :=
    world_after (AnimationUtils.fadeOut elementId duration hideAfter) p in
  let p2 := world_after (run_animation_callback (FadeOutHide element)) p1 in
  AnimationUtils.fadeOut elementId duration hideAfter p = (Normal tt, p1)
  /\ opacity (el_style (the (page_document p1) element)) = js "0"
  /\ el_classList (the (page_document p1) element)
     = el_classList (the (page_document p) element)
  /\ (hideAfter = Some false -> page_timers p1 = page_timers p)
  /\ (hideAfter <> Some false ->
      page_timers p1
      = page_timers p
        ++ [{| anim_delay := default 300%Z duration;
               anim_callback := FadeOutHide element |}])
  /\ run_animation_callback (FadeOutHide element) p1 = (Normal tt, p2)
  /\ In (js "hidden") (el_classList (the (page_document p2) element))
  /\ opacity (el_style (the (page_document p2) element)) = js "0".
Proof.
  intros H p1 p2. subst p2 p1. unfold world_after.
  rewrite (fadeOut_found _ _ _ _ _ H). cbn [snd].
  rewrite (proj1 (run_add_hidden _ _)).
  cbn [snd page_document page_timers with_document].
  destruct (getElementById_Some _ _ _ H) as (_ & e & He & _).
  assert (Hs : is_Some (deref (page_document p) element)) by eauto.
  split; [reflexivity|].
  split; [apply opacity_assigned; exact Hs|]. split.
  { apply (the_update_slot el_classList).
    intros []. reflexivity. }
  split; [intros ->; reflexivity|]. split.
  { intros Hh. destruct hideAfter as [[]|]; [reflexivity|congruence|].
    reflexivity. }
  split; [reflexivity|]. split.
  { apply hidden_after_add, is_Some_deref_update. exact Hs. }
  rewrite (the_update_slot (fun e => opacity (el_style e)))
    by (intros []; reflexivity).
  apply opacity_assigned. exact Hs.
Qed.

Lemma fadeOut_then_timer_witness :
  document_getElementById (js "saveBtn") (page_document sample_page)
  = Some (Ref 2)
  /\ page_timers
       (world_after (AnimationUtils.fadeOut (js "saveBtn") None (Some false))
          sample_page)
     = page_timers sample_page.
Proof.
  assert (H : document_getElementById (js "saveBtn")
                (page_document sample_page) = Some (Ref 2))
    by (vm_compute; reflexivity).
  split; [exact H|].
  apply (fadeOut_then_timer sample_page (js "saveBtn") None (Some false)
           (Ref 2) H).
  reflexivity.
Defined.

(** X25.  For an id that names an element, [slideUp] sets the transform
    to 'translateY(-20px)' and the opacity to '0', leaves the class
    list alone and queues one timer with the given duration (300 when
    omitted); when that timer fires the element gets the class
    'hidden'. *)
Theorem slideUp_then_timer (p : Page) (elementId : jsstring)
    (duration : option Z) (element : node) :
  document_getElementById elementId (page_document p) = Some element ->
  let p1 := world_after (AnimationUtils.slideUp elementId duration) p in
  let p2 := world_after (run_animation_callback (SlideUpHide element)) p1 in
  AnimationUtils.slideUp elementId duration p = (Normal tt, p1)
  /\ transform (el_style (the (page_document p1) element))
     = js "translateY(-20px)"
  /\ opacity (el_style (the (page_document p1) element)) = js "0"
  /\ el_classList (the (page_document p1) element)
     = el_classList (the (page_document p) element)
  /\ page_timers p1
     = page_timers p
       ++ [{| anim_delay := default 300%Z duration;
              anim_callback := SlideUpHide element |}]
  /\ run_animation_callback (SlideUpHide element) p1 = (Normal tt, p2)
  /\ In (js "hidden") (el_classList (the (page_document p2) element)).
Proof.
  intros H p1 p2. subst p2 p1. unfold world_after.
  rewrite (slideUp_found _ _ _ _ H). cbn [snd].
  rewrite (proj2 (run_add_hidden _ _)).
  cbn [snd page_document page_timers with_document].
  destruct (getElementById_Some _ _ _ H) as (_ & e & He & _).
  assert (Hs : is_Some (deref (page_document p) element)) by eauto.
  split; [reflexivity|]. split.
  { rewrite (the_update_slot (fun e => transform (el_style e)))
      by (intros [? ? ? ? ? ? ? ? ? [] ?]; reflexivity).
    rewrite the_update_at by exact Hs. reflexivity. }
  split; [apply opacity_assigned, is_Some_deref_update; exact Hs|]. split.
  { rewrite !(the_update_slot el_classList) by (intros []; reflexivity).
    reflexivity. }
  split; [reflexivity|]. split; [reflexivity|].
  apply hidden_after_add. do 2 apply is_Some_deref_update. exact Hs.
Qed.

Lemma slideUp_then_timer_witness :
  document_getElementById (js "saveBtn") (page_document sample_page)
  = Some (Ref 2)
  /\ In (js "hidden")
       (el_classList
          (the
             (page_document
                (world_after (run_animation_callback (SlideUpHide (Ref 2)))
                   (world_after (AnimationUtils.slideUp (js "saveBtn") None)
                      sample_page)))
             (Ref 2))).
Proof.
  assert (H : document_getElementById (js "saveBtn")
                (page_document sample_page) = Some (Ref 2))
    by (vm_compute; reflexivity).
  split; [exact H|].
  apply (slideUp_then_timer sample_page (js "saveBtn") None (Ref 2) H).
Defined.

(** X26.  A pending [fadeOut] overtakes a later [fadeIn].  When [fadeIn]
    is called while the hide timer of an earlier [fadeOut] of the same
    element is still queued, and the timers fire in the order 10 ms
    timer of [fadeIn], hide timer of [fadeOut], the element ends with
    the class 'hidden' and opacity '1'. *)
Theorem fadeOut_timer_after_fadeIn (p : Page) (elementId : jsstring)
    (durationOut durationIn : option Z) (hideAfter : option bool)
    (element : node) :
  document_getElementById elementId (page_document p) = Some element ->
  hideAfter <> Some false ->
  let p1 :=
    world_after (AnimationUtils.fadeOut elementId durationOut hideAfter) p in
  let p2 := world_after (AnimationUtils.fadeIn elementId durationIn) p1 in
  let p3 := world_after (run_animation_callback (FadeInShow element)) p2 in
  let p4 := world_after (run_animation_callback (FadeOutHide element)) p3 in
  page_timers p2
  = page_timers p
    ++ [{| anim_delay := default 300%Z durationOut;
           anim_callback := FadeOutHide element |};
        {| anim_delay := 10%Z; anim_callback := FadeInShow element |}]
  /\ ~ In (js "hidden") (el_classList (the (page_document p3) element))
  /\ In (js "hidden") (el_classList (the (page_document p4) element))
  /\ opacity (el_style (the (page_document p4) element)) = js "1".
Proof.
  intros H Hh p1 p2 p3 p4. subst p4 p3 p2 p1. unfold world_after.
  rewrite (fadeOut_found _ _ _ _ _ H). cbn [snd].
  assert (Hd : default true hideAfter = true)
    by (destruct hideAfter as [[]|]; [reflexivity|congruence|reflexivity]).
  rewrite Hd.
  set (d1 := update element (style_assign set_opacity (js "0"))
               (page_document p)).
  set (p1 := {| page_document := d1; page_transition := _;
                page_timers := _ |}).
  assert (H1 : document_getElementById elementId (page_document p1)
               = Some element).
  { subst p1 d1. cbn [page_document].
    rewrite getElementById_update; [exact H|]. intros []. reflexivity. }
  rewrite (fadeIn_found _ _ p1 _ H1). subst p1.
  cbn [snd page_document page_timers].
  rewrite run_FadeInShow. cbn [snd page_document page_timers with_document].
  rewrite (proj1 (run_add_hidden _ _)).
  cbn [snd page_document page_timers with_document].
  destruct (getElementById_Some _ _ _ H) as (_ & e & He & _).
  assert (Hs : is_Some (deref d1 element)).
  { subst d1. apply is_Some_deref_update. eauto. }
  split; [rewrite <- app_assoc; reflexivity|]. split.
  { rewrite (the_update_slot el_classList) by (intros []; reflexivity).
    apply hidden_after_remove, is_Some_deref_update. exact Hs. }
  split.
  { apply hidden_after_add. do 3 apply is_Some_deref_update. exact Hs. }
  rewrite (the_update_slot (fun e => opacity (el_style e)))
    by (intros []; reflexivity).
  apply opacity_assigned. do 2 apply is_Some_deref_update. exact Hs.
Qed.

Lemma fadeOut_timer_after_fadeIn_witness :
  document_getElementById (js "saveBtn") (page_document sample_page)
  = Some (Ref 2)
  /\ (None : option bool) <> Some false
  /\ In (js "hidden")
       (el_classList
          (the
             (page_document
                (world_after (run_animation_callback (FadeOutHide (Ref 2)))
                   (world_after (run_animation_callback (FadeInShow (Ref 2)))
                      (world_after
                         (AnimationUtils.fadeIn (js "saveBtn") None)
                         (world_after
                            (AnimationUtils.fadeOut (js "saveBtn") None None)
                            sample_page)))))
             (Ref 2))).
Proof.
  assert (H : document_getElementById (js "saveBtn")
                (page_document sample_page) = Some (Ref 2))
    by (vm_compute; reflexivity).
  assert (Hh : (None : option bool) <> Some false) by discriminate.
  split; [exact H|]. split; [exact Hh|].
  apply (fadeOut_timer_after_fadeIn sample_page (js "saveBtn") None None
           None (Ref 2) H Hh).
Defined.
